(** * Whisper STT server: a shallow embedding of [whisper/whisper_server.py]

    The development follows the Python module top-down: the module-level
    configuration and registry state, [convert_to_wav], [get_model], the
    [/health] endpoint and the [/transcribe] handler.  Everything the module
    obtains from outside (the environment variables, [shutil.which], the
    [ffmpeg] subprocess, [torch], the [WhisperModel] constructor and its
    [transcribe] method, [tempfile] and [os.unlink]) is gathered in one
    record of oracles, [Env]; the mutable process state (the file system,
    [model_cache], [current_model_name]) is threaded explicitly. *)

From Stdlib Require Import ZArith Ascii String Floats.PrimFloat.
From stdpp Require Import base option list strings gmap fin_maps.

Set Warnings "-register-all".

Local Open Scope string_scope.
Local Open Scope Z_scope.

(** ** Python strings

    A Python [str] is modelled by a Rocq [string] whose characters are the
    code points below 256. *)

Module PyStr.

Definition code (c : ascii) : Z := Z.of_N (Ascii.N_of_ascii c).

Definition chr (z : Z) : ascii := Ascii.ascii_of_N (Z.to_N z).

(** [str.isspace] on one code point below 256: the characters
    [\t \n \v \f \r], the separators [0x1c..0x1f], the space, NEL and the
    no-break space. *)
Definition isspace (c : ascii) : bool :=
  let n := code c in
  ((9 <=? n) && (n <=? 13)) || ((28 <=? n) && (n <=? 32))
  || (n =? 133) || (n =? 160).

(** [str.lower] on one code point below 256. *)
Definition lower_char (c : ascii) : ascii :=
  let n := code c in
  if ((65 <=? n) && (n <=? 90))
     || ((192 <=? n) && (n <=? 222) && negb (n =? 215))
  then chr (n + 32) else c.

Fixpoint lower (s : string) : string :=
  match s with
  | EmptyString => EmptyString
  | String c s' => String (lower_char c) (lower s')
  end.

(** [sub in s] for a one-character [sub]. *)
Fixpoint contains (sep : ascii) (s : string) : bool :=
  match s with
  | EmptyString => false
  | String c s' => if Ascii.eqb c sep then true else contains sep s'
  end.

(** [s.split(sep)] for a one-character separator: every occurrence cuts,
    so a string with [n] separators yields [n + 1] pieces. *)
Fixpoint split (sep : ascii) (s : string) : list string :=
  match s with
  | EmptyString => [EmptyString]
  | String c s' =>
      if Ascii.eqb c sep then EmptyString :: split sep s'
      else match split sep s' with
           | [] => [String c EmptyString]
           | p :: ps => String c p :: ps
           end
  end.

(** [s.rsplit(sep, 1)[0]]: what precedes the last separator, or the whole
    string when there is none. *)
Fixpoint rsplit1_head (sep : ascii) (s : string) : string :=
  match s with
  | EmptyString => EmptyString
  | String c s' =>
      if Ascii.eqb c sep && negb (contains sep s') then EmptyString
      else String c (rsplit1_head sep s')
  end.

Fixpoint lstrip (s : string) : string :=
  match s with
  | EmptyString => EmptyString
  | String c s' => if isspace c then lstrip s' else s
  end.

Fixpoint all_space (s : string) : bool :=
  match s with
  | EmptyString => true
  | String c s' => isspace c && all_space s'
  end.

Fixpoint rstrip (s : string) : string :=
  match s with
  | EmptyString => EmptyString
  | String c s' => if all_space s then EmptyString else String c (rstrip s')
  end.

(** [s.strip()] *)
Definition strip (s : string) : string := rstrip (lstrip s).

(** [sep.join(parts)] *)
Fixpoint join (sep : string) (parts : list string) : string :=
  match parts with
  | [] => EmptyString
  | [p] => p
  | p :: ps => p +:+ sep +:+ join sep ps
  end.

End PyStr.

(** ** Exceptions and results *)

(** The exceptions the module can meet.  [External] stands for whatever an
    outside collaborator raises whose class derives from [Exception] (class
    name and message); [NonException] for what it raises whose class derives
    from [BaseException] but not from [Exception]: [KeyboardInterrupt],
    [SystemExit], [GeneratorExit], [asyncio.CancelledError]. *)
Inductive exn : Type :=
  | ValueErrorNonAscii
  | ValueErrorOutOfRange (f : float)
  | BinasciiIncorrectPadding
  | BinasciiInvalidLength (data_chars : Z)
  | TypeError (what : string)
  | AttributeError (what : string)
  | IndexError
  | TimeoutExpired
  | External (cls msg : string)
  | NonException (cls msg : string).

(** [isinstance(e, Exception)]: what an [except Exception] clause catches. *)
Definition is_Exception (e : exn) : bool :=
  match e with
  | NonException _ _ => false
  | _ => true
  end.

Inductive result (A : Type) : Type :=
  | Ok (a : A)
  | Raise (e : exn).
Arguments Ok {A} a.
Arguments Raise {A} e.

Definition is_ok {A} (r : result A) : bool :=
  match r with Ok _ => true | Raise _ => false end.

(** Python [bytes]: a list of octets, each an integer in [0, 255]. *)
Abbreviation bytes := (list Z).

(** ** [base64.b64decode(s)] with the default [validate=False]

    [base64.b64decode] is library code; it is modelled after CPython (3.11
    and later): a [str] argument is first encoded as ASCII, then
    [binascii.a2b_base64] runs in its lenient mode, which skips every
    character outside the alphabet and stops at a complete pad sequence. *)

Module Base64.

Definition BASE64_PAD : Z := 61.

(** [table_a2b_base64], with [None] for the entries that are not digits. *)
Definition table_a2b_base64 (c : Z) : option Z :=
  if (65 <=? c) && (c <=? 90) then Some (c - 65)
  else if (97 <=? c) && (c <=? 122) then Some (c - 97 + 26)
  else if (48 <=? c) && (c <=? 57) then Some (c - 48 + 52)
  else if c =? 43 then Some 62
  else if c =? 47 then Some 63
  else None.

Definition u8 (z : Z) : Z := Z.land z 255.

(** The decoding loop; [acc] holds the output octets, last first, and
    [ndata] counts the alphabet characters seen (for the error message). *)
Fixpoint a2b_loop (data : list Z) (quad_pos leftchar pads ndata : Z)
    (acc : list Z) : result bytes :=
  match data with
  | [] =>
      if quad_pos =? 0 then Ok (rev acc)
      else if quad_pos =? 1 then Raise (BinasciiInvalidLength ndata)
      else Raise BinasciiIncorrectPadding
  | this_ch :: rest =>
      if this_ch =? BASE64_PAD then
        if 2 <=? quad_pos then
          if 4 <=? quad_pos + (pads + 1) then Ok (rev acc)
          else a2b_loop rest quad_pos leftchar (pads + 1) ndata acc
        else a2b_loop rest quad_pos leftchar pads ndata acc
      else
        match table_a2b_base64 this_ch with
        | None => a2b_loop rest quad_pos leftchar pads ndata acc
        | Some d =>
            if quad_pos =? 0 then
              a2b_loop rest 1 d 0 (ndata + 1) acc
            else if quad_pos =? 1 then
              a2b_loop rest 2 (Z.land d 15) 0 (ndata + 1)
                (u8 (Z.lor (Z.shiftl leftchar 2) (Z.shiftr d 4)) :: acc)
            else if quad_pos =? 2 then
              a2b_loop rest 3 (Z.land d 3) 0 (ndata + 1)
                (u8 (Z.lor (Z.shiftl leftchar 4) (Z.shiftr d 2)) :: acc)
            else
              a2b_loop rest 0 0 0 (ndata + 1)
                (u8 (Z.lor (Z.shiftl leftchar 6) d) :: acc)
        end
  end.

Definition a2b_base64 (data : list Z) : result bytes :=
  a2b_loop data 0 0 0 0 [].

Fixpoint codes (s : string) : list Z :=
  match s with
  | EmptyString => []
  | String c s' => PyStr.code c :: codes s'
  end.

(** [s.encode('ascii')], whose failure [b64decode] turns into a
    [ValueError]. *)
Definition encode_ascii (s : string) : result (list Z) :=
  if forallb (fun c => c <? 128) (codes s) then Ok (codes s)
  else Raise ValueErrorNonAscii.

Definition b64decode (s : string) : result bytes :=
  match encode_ascii s with
  | Ok data => a2b_base64 data
  | Raise e => Raise e
  end.

End Base64.

(** ** JSON values, as the request body carries them

    [json.loads] gives [None], [bool], [int], [float], [str], [list] and
    [dict]; Python's [None] is [JNull]. *)
Inductive json : Type :=
  | JNull
  | JBool (b : bool)
  | JInt (z : Z)
  | JFloat (f : float)
  | JStr (s : string)
  | JArr (items : list json)
  | JObj (fields : list (string * json)).

(** Python truth value of a JSON value ([not v] is its negation). *)
Definition truthy (v : json) : bool :=
  match v with
  | JNull => false
  | JBool b => b
  | JInt z => negb (z =? 0)
  | JFloat f => negb (PrimFloat.eqb f 0%float)
  | JStr s => negb (String.eqb s "")
  | JArr items => match items with [] => false | _ => true end
  | JObj fields => match fields with [] => false | _ => true end
  end.

(** [v == s] for a string [s]: only a [str] can equal a [str]. *)
Definition eq_str (v : json) (s : string) : bool :=
  match v with JStr t => String.eqb t s | _ => false end.

(** [v in strs] for a list (or tuple) of strings. *)
Definition in_strs (v : json) (strs : list string) : bool :=
  existsb (eq_str v) strs.

(** The request body, a JSON object: [request.get(key)] is [!!]. *)
Abbreviation Request := (gmap string json).

Definition get (request : Request) (key : string) : json :=
  default JNull (request !! key).

Definition get_default (request : Request) (key : string) (dflt : json) : json :=
  default dflt (request !! key).

(** ** Collaborators and process state *)

(** A loaded [WhisperModel]: the constructor's arguments and the identity
    of the object ([h_serial] is the instant at which it was built). *)
Record Handle : Type := mkHandle {
  h_model : string;
  h_device : string;
  h_compute_type : string;
  h_download_root : string;
  h_serial : nat
}.

(** The part of a segment the handler reads. *)
Record Segment : Type := mkSegment { seg_text : string }.

Record Info : Type := mkInfo {
  info_language : string;
  info_language_probability : float;
  info_duration : float
}.

(** What [whisper_model.transcribe(...)] followed by [list(segments)]
    does: the call raises, or it returns the lazy segment sequence and the
    info, and consuming the sequence either completes or raises. *)
Inductive EngineOutcome : Type :=
  | EngineRaises (e : exn)
  | EngineYields (segments : list Segment) (iteration_error : option exn) (info : Info).

(** What running [ffmpeg] does: [subprocess.run] raises [ff_spawn_error]
    before anything is written (the process cannot be spawned, or the call
    is interrupted), or ffmpeg runs for some seconds, leaves [ff_written] at
    the output path (if anything), exits with [ff_returncode] and a stderr
    that decodes as UTF-8 or does not. *)
Record FfmpegRun : Type := mkFfmpegRun {
  ff_spawn_error : option exn;
  ff_seconds : Z;
  ff_returncode : Z;
  ff_stderr_decodes : bool;
  ff_written : option bytes
}.

(** What [import torch] and the availability queries of [get_model] do:
    the import fails with [ImportError], or the queries answer, or
    something other than [ImportError] is raised. *)
Inductive TorchProbe : Type :=
  | TorchMissing
  | TorchPresent (cuda_available : bool) (mps_available : bool)
  | TorchRaises (e : exn).

(** Calls that leave the process, in the order they happen (newest first).
    The length of the trace is the clock the oracles see. *)
Inductive Event : Type :=
  | EvWhich
  | EvFfmpeg (ffmpeg_path input_path output_path : string)
  | EvTorch
  | EvModelInit (name device compute_type download_root : string)
  | EvEngine (h : Handle) (audio_path : string) (content : option bytes) (language : json)
  | EvMkTemp (suffix : string)
  | EvWrite (path : string)
  | EvClose (path : string)
  | EvUnlink (path : string).

Record Env : Type := mkEnv {
  (* Configuration from environment *)
  MODELS_DIR : string;
  DEFAULT_MODEL : string;
  DEVICE : string;
  COMPUTE_TYPE : string;
  (* shutil.which('ffmpeg') *)
  shutil_which_ffmpeg : nat -> option string;
  (* subprocess.run([ffmpeg_path, '-y', '-i', input_path, ..., output_path]),
     given the content of the input file *)
  ffmpeg : nat -> string -> string -> option bytes -> FfmpegRun;
  (* import torch; torch.cuda.is_available(); torch.backends.mps:
     [TorchMissing] is the ImportError the code catches, [TorchRaises] any
     other exception *)
  torch : nat -> TorchProbe;
  (* WhisperModel(name, device=, compute_type=, download_root=):
     [None] when the constructor returns *)
  WhisperModel_init : nat -> string -> string -> string -> string -> option exn;
  (* whisper_model.transcribe(audio_path, language=, ...) and list(segments),
     given the content of the audio file *)
  engine : nat -> Handle -> string -> option bytes -> json -> EngineOutcome;
  (* tempfile.gettempdir() *)
  tempdir : string;
  (* tempfile.NamedTemporaryFile(delete=False, suffix=): the random
     characters of the name chosen, between the prefix and the suffix *)
  mkstemp : nat -> string -> result string;
  (* tmp_file.write(audio_bytes): [None] when it succeeds *)
  tmp_file_write : nat -> string -> bytes -> option exn;
  (* the close at the end of the with block: [None] when it succeeds *)
  tmp_file_close : nat -> string -> option exn;
  (* os.unlink(path) on an existing file: [None] when the file is removed *)
  os_unlink : nat -> string -> option exn;
  (* str(v) for a value that is not a str, as the f-string formats it *)
  py_str : json -> string
}.

Record World : Type := mkWorld {
  fs : gmap string bytes;
  model_cache : gmap string Handle;
  current_model_name : option string;
  trace : list Event
}.

Definition clock (w : World) : nat := length (trace w).

Definition log_event (ev : Event) (w : World) : World :=
  mkWorld (fs w) (model_cache w) (current_model_name w) (ev :: trace w).

Definition set_fs (f : gmap string bytes) (w : World) : World :=
  mkWorld f (model_cache w) (current_model_name w) (trace w).

(** ** The state-and-exception monad

    A computation over a state [S] returns a value or raises, and leaves a
    state either way.  The module's functions run over the [World]; the
    body of the request handler runs over its [Frame], the world together
    with the handler's local variables that the [finally] block reads. *)

Definition St (S A : Type) : Type := S -> result A * S.

Abbreviation M := (St World).

Definition ret {S A} (a : A) : St S A := fun s => (Ok a, s).

Definition raise {S A} (e : exn) : St S A := fun s => (Raise e, s).

Definition bind {S A B} (m : St S A) (k : A -> St S B) : St S B :=
  fun s =>
    match m s with
    | (Ok a, s') => k a s'
    | (Raise e, s') => (Raise e, s')
    end.

(** [try: body except Exception as e: handler(e)]: an exception that is
    not an [Exception] passes through. *)
Definition try_except {S A} (body : St S A) (handler : exn -> St S A) : St S A :=
  fun s =>
    match body s with
    | (Ok a, s') => (Ok a, s')
    | (Raise e, s') => if is_Exception e then handler e s' else (Raise e, s')
    end.

(** [with ... : body]: [exit] runs however [body] ends; what [body]
    returned or raised stands unless [exit] raises. *)
Definition with_block {S A} (body : St S A) (exit : St S unit) : St S A :=
  fun s =>
    match body s with
    | (r, s') =>
        match exit s' with
        | (Ok _, s'') => (r, s'')
        | (Raise e, s'') => (Raise e, s'')
        end
    end.

Definition lift_result {S A} (r : result A) : St S A := fun s => (r, s).

Declare Scope py_scope.
Delimit Scope py_scope with py.
Notation "x <- m ;; k" := (bind m (fun x => k))
  (at level 100, m at next level, right associativity) : py_scope.
Notation "m ;;; k" := (bind m (fun _ => k))
  (at level 100, right associativity) : py_scope.
Local Open Scope py_scope.

(** ** Module constants *)

Definition AVAILABLE_MODELS : list string :=
  [ "tiny"; "tiny.en";
    "base"; "base.en";
    "small"; "small.en";
    "medium"; "medium.en";
    "large-v2"; "large-v3" ].

(** The formats for which the handler calls [convert_to_wav]. *)
Definition CONVERT_FORMATS : list string :=
  [ "webm"; "ogg"; "mp4"; "m4a"; "opus"; "oga" ].

(** [timeout=30] of [subprocess.run], in seconds. *)
Definition FFMPEG_TIMEOUT : Z := 30.

Definition dot : ascii := "."%char.
Definition comma : ascii := ","%char.

Section Server.

Variable env : Env.

(** *** Calls to the collaborators *)

Definition shutil_which : M (option string) :=
  fun w => (Ok (shutil_which_ffmpeg env (clock w)), log_event EvWhich w).

(** [subprocess.run([...], capture_output=True, timeout=30)]: raises
    [ff_spawn_error] when there is one, and [TimeoutExpired] when the
    process is still running after the timeout; what it wrote stays on
    disk. *)
Definition subprocess_run (ffmpeg_path input_path output_path : string) : M FfmpegRun :=
  fun w =>
    let run := ffmpeg env (clock w) ffmpeg_path input_path (fs w !! input_path) in
    let w1 := log_event (EvFfmpeg ffmpeg_path input_path output_path) w in
    match ff_spawn_error run with
    | Some e => (Raise e, w1)
    | None =>
        let w2 := match ff_written run with
                  | Some b => set_fs (<[output_path := b]> (fs w1)) w1
                  | None => w1
                  end in
        if FFMPEG_TIMEOUT <? ff_seconds run then (Raise TimeoutExpired, w2)
        else (Ok run, w2)
    end.

Definition os_path_exists (path : string) : M bool :=
  fun w => (Ok (bool_decide (is_Some (fs w !! path))), w).

(** [result.stderr.decode()] *)
Definition stderr_decode (run : FfmpegRun) : M unit :=
  if ff_stderr_decodes run then ret tt
  else raise (External "UnicodeDecodeError" "stderr").

Definition torch_probe : M TorchProbe :=
  fun w => (Ok (torch env (clock w)), log_event EvTorch w).

Definition WhisperModel (name device compute_type download_root : string) : M Handle :=
  fun w =>
    let w1 := log_event (EvModelInit name device compute_type download_root) w in
    match WhisperModel_init env (clock w) name device compute_type download_root with
    | None => (Ok (mkHandle name device compute_type download_root (clock w)), w1)
    | Some e => (Raise e, w1)
    end.

(** [whisper_model.transcribe(audio_path, language=language, ...)] and
    [list(segments)]. *)
Definition model_transcribe (h : Handle) (audio_path : string) (language : json)
    : M (list Segment * Info) :=
  fun w =>
    let content := fs w !! audio_path in
    let w1 := log_event (EvEngine h audio_path content language) w in
    match engine env (clock w) h audio_path content language with
    | EngineRaises e => (Raise e, w1)
    | EngineYields _ (Some e) _ => (Raise e, w1)
    | EngineYields segments None info => (Ok (segments, info), w1)
    end.

(** The name [tempfile] gives a file: directory, the prefix [tmp], random
    characters, the suffix. *)
Definition temp_name (random suffix : string) : string :=
  tempdir env +:+ "/tmp" +:+ random +:+ suffix.

(** [tempfile.NamedTemporaryFile(delete=False, suffix=suffix)]: the file
    is created empty; the result is [tmp_file.name]. *)
Definition NamedTemporaryFile (suffix : string) : M string :=
  fun w =>
    let w1 := log_event (EvMkTemp suffix) w in
    match mkstemp env (clock w) suffix with
    | Ok random =>
        let path := temp_name random suffix in
        (Ok path, set_fs (<[path := []]> (fs w1)) w1)
    | Raise e => (Raise e, w1)
    end.

(** [tmp_file.write(data)] *)
Definition file_write (path : string) (data : bytes) : M unit :=
  fun w =>
    let w1 := log_event (EvWrite path) w in
    match tmp_file_write env (clock w) path data with
    | None => (Ok tt, set_fs (<[path := data]> (fs w1)) w1)
    | Some e => (Raise e, w1)
    end.

(** Leaving the [with] block closes the file. *)
Definition file_close (path : string) : M unit :=
  fun w =>
    let w1 := log_event (EvClose path) w in
    match tmp_file_close env (clock w) path with
    | None => (Ok tt, w1)
    | Some e => (Raise e, w1)
    end.

(** [os.unlink(path)] *)
Definition unlink (path : string) : M unit :=
  fun w =>
    let w1 := log_event (EvUnlink path) w in
    match fs w !! path with
    | None => (Raise (External "FileNotFoundError" path), w1)
    | Some _ =>
        match os_unlink env (clock w) path with
        | None => (Ok tt, set_fs (delete path (fs w1)) w1)
        | Some e => (Raise e, w1)
        end
    end.

(** *** [convert_to_wav] *)

Definition output_path_of (input_path : string) : string :=
  PyStr.rsplit1_head dot input_path +:+ "_converted.wav".

Definition convert_to_wav (input_path : string) : M string :=
  let output_path := output_path_of input_path in
  ffmpeg_path <- shutil_which ;;
  match ffmpeg_path with
  | None | Some "" => ret input_path
  | Some ffmpeg_path =>
      try_except
        (result <- subprocess_run ffmpeg_path input_path output_path ;;
         present <- os_path_exists output_path ;;
         if (ff_returncode result =? 0) && present then ret output_path
         else (stderr_decode result ;;; ret input_path))
        (fun _ => ret input_path)
  end.

(** *** [get_model] *)

(** The first two lines of [get_model]: an argument that is not in
    [AVAILABLE_MODELS] is replaced by [DEFAULT_MODEL]. *)
Definition resolve_model_name (model_name : json) : string :=
  match model_name with
  | JStr s => if in_strs model_name AVAILABLE_MODELS then s else DEFAULT_MODEL env
  | _ => DEFAULT_MODEL env
  end.

Definition detect_device : M string :=
  if String.eqb (DEVICE env) "auto" then
    t <- torch_probe ;;
    match t with
    | TorchPresent true _ => ret "cuda"
    | TorchPresent false true => ret "cpu"
    | TorchPresent false false => ret "cpu"
    | TorchMissing => ret "cpu"
    | TorchRaises e => raise e
    end
  else ret (DEVICE env).

Definition detect_compute_type (device : string) : string :=
  if String.eqb (COMPUTE_TYPE env) "auto" then
    if String.eqb device "cuda" then "float16" else "int8"
  else COMPUTE_TYPE env.

Definition cache_store (name : string) (model : Handle) : M unit :=
  fun w => (Ok tt, mkWorld (fs w) (<[name := model]> (model_cache w)) (Some name) (trace w)).

Definition get_model (model_name : json) : M Handle :=
  let model_name := resolve_model_name model_name in
  fun w =>
    match model_cache w !! model_name with
    | Some model => (Ok model, w)
    | None =>
        (device <- detect_device ;;
         let compute_type := detect_compute_type device in
         model <- WhisperModel model_name device compute_type (MODELS_DIR env) ;;
         cache_store model_name model ;;;
         ret model) w
    end.

(** *** [/health] *)

Record Health : Type := mkHealth {
  status : string;
  model_loaded : bool;
  current_model : option string;
  available_models : list string
}.

Definition health (w : World) : Health :=
  mkHealth "healthy"
    (match current_model_name w with Some _ => true | None => false end)
    (current_model_name w)
    AVAILABLE_MODELS.

(** *** [/models] *)

Record Models : Type := mkModels {
  models : list string;
  current : option string;
  default_ : string
}.

Definition list_models (w : World) : Models :=
  mkModels AVAILABLE_MODELS (current_model_name w) (DEFAULT_MODEL env).

(** *** [startup_event] *)

Definition startup_event : M unit :=
  try_except (get_model (JStr (DEFAULT_MODEL env)) ;;; ret tt) (fun _ => ret tt).

(** *** [/transcribe] *)

Record Content : Type := mkContent {
  text : string;
  language : string;
  language_probability : float;
  duration : float
}.

(** [detail] of an [HTTPException]: a literal, or [str(e)]. *)
Inductive Detail : Type :=
  | DetailStr (s : string)
  | DetailOfExn (e : exn).

(** How the handler ends: it returns a [JSONResponse] (HTTP 200), raises an
    [HTTPException], or is left by an exception that its [except Exception]
    clause does not catch. *)
Inductive Response : Type :=
  | JSONResponse (content : Content)
  | HTTPException (status_code : Z) (detail : Detail)
  | Uncaught (e : exn).

(** The floats that [json.dumps(..., allow_nan=False)] accepts: neither NaN
    nor an infinity. *)
Definition json_compliant (f : float) : bool :=
  negb (PrimFloat.is_nan f || PrimFloat.is_infinity f).

(** [JSONResponse(content={"text": ..., "language": ...,
    "language_probability": ..., "duration": ...})]: the constructor renders
    its content at once, with [json.dumps(content, allow_nan=False, ...)],
    which raises [ValueError] at the first float, in the order of the keys,
    that is out of range. *)
Definition JSONResponse_init (content : Content) : result Response :=
  if negb (json_compliant (language_probability content)) then
    Raise (ValueErrorOutOfRange (language_probability content))
  else if negb (json_compliant (duration content)) then
    Raise (ValueErrorOutOfRange (duration content))
  else Ok (JSONResponse content).

(** [except Exception as e: raise HTTPException(status_code=500,
    detail=str(e))], applied to the exception [e] that ended the [try]
    block. *)
Definition except_Exception (e : exn) : Response :=
  if is_Exception e then HTTPException 500 (DetailOfExn e) else Uncaught e.

(** The handler's frame: the world and the two locals of the [finally]
    block. *)
Record Frame : Type := mkFrame {
  world : World;
  tmp_path : option string;
  converted_path : option string
}.

Definition lift {A} (m : M A) : St Frame A :=
  fun fr =>
    let '(r, w) := m (world fr) in
    (r, mkFrame w (tmp_path fr) (converted_path fr)).

Definition set_tmp_path (p : string) : St Frame unit :=
  fun fr => (Ok tt, mkFrame (world fr) (Some p) (converted_path fr)).

Definition set_converted_path (p : string) : St Frame unit :=
  fun fr => (Ok tt, mkFrame (world fr) (tmp_path fr) (Some p)).

(** [if "," in audio_data: audio_data = audio_data.split(",")[1]] followed
    by the type check of [base64.b64decode]: what reaches the decoder is a
    [str].  Only a [str] has [split]; [in] needs a container. *)
Definition strip_data_url (audio_data : json) : result string :=
  match audio_data with
  | JStr s =>
      if PyStr.contains comma s then
        match PyStr.split comma s !! 1%nat with
        | Some payload => Ok payload
        | None => Raise IndexError
        end
      else Ok s
  | JArr items =>
      if existsb (fun v => eq_str v ",") items then Raise (AttributeError "split")
      else Raise (TypeError "b64decode")
  | JObj fields =>
      if existsb (fun kv => String.eqb (fst kv) ",") fields then Raise (AttributeError "split")
      else Raise (TypeError "b64decode")
  | JNull | JBool _ | JInt _ | JFloat _ => Raise (TypeError "in")
  end.

(** The bytes the handler decodes: the data-URL prefix stripped, then
    [base64.b64decode]. *)
Definition decode_audio (audio_data : json) : result bytes :=
  match strip_data_url audio_data with
  | Ok payload => Base64.b64decode payload
  | Raise e => Raise e
  end.

(** [f".{file_format}"] *)
Definition suffix_of (file_format : json) : string :=
  match file_format with
  | JStr f => "." +:+ f
  | v => "." +:+ py_str env v
  end.

(** [file_format.lower() in ['webm', 'ogg', 'mp4', 'm4a', 'opus', 'oga']] *)
Definition needs_conversion (file_format : json) : result bool :=
  match file_format with
  | JStr f => Ok (bool_decide (PyStr.lower f ∈ CONVERT_FORMATS))
  | _ => Raise (AttributeError "lower")
  end.

Definition full_text_of (segments_list : list Segment) : string :=
  PyStr.join " " (map (fun segment => PyStr.strip (seg_text segment)) segments_list).

(** The body of the [try] block. *)
Definition transcribe_try (audio_data model_name language file_format : json)
    : St Frame Response :=
  audio_bytes <- lift_result (decode_audio audio_data) ;;
  tmp_file <- lift (NamedTemporaryFile (suffix_of file_format)) ;;
  with_block
    (lift (file_write tmp_file audio_bytes) ;;;
     set_tmp_path tmp_file)
    (lift (file_close tmp_file)) ;;;
  convert <- lift_result (needs_conversion file_format) ;;
  audio_path <-
    (if convert : bool then
       converted <- lift (convert_to_wav tmp_file) ;;
       set_converted_path converted ;;;
       ret (if String.eqb converted tmp_file then tmp_file else converted)
     else ret tmp_file) ;;
  whisper_model <- lift (get_model model_name) ;;
  transcribed <- lift (model_transcribe whisper_model audio_path language) ;;
  let '(segments_list, info) := transcribed in
  lift_result
    (JSONResponse_init
       (mkContent (full_text_of segments_list)
          (info_language info)
          (info_language_probability info)
          (info_duration info))).

(** [try: os.unlink(path) except: pass]: the bare [except] catches
    whatever [os.unlink] raises, an [Exception] or not. *)
Definition unlink_quietly (path : string) : World -> World :=
  fun w => snd (unlink path w).

Definition path_truthy (p : option string) : bool :=
  match p with
  | Some s => negb (String.eqb s "")
  | None => false
  end.

(** The [finally] block. *)
Definition cleanup (fr : Frame) : World :=
  let w1 :=
    match tmp_path fr with
    | Some p => if path_truthy (tmp_path fr) then unlink_quietly p (world fr) else world fr
    | None => world fr
    end in
  match converted_path fr with
  | Some c =>
      if path_truthy (converted_path fr)
         && negb (bool_decide (converted_path fr = tmp_path fr))
      then unlink_quietly c w1 else w1
  | None => w1
  end.

(** The frame in which the [try] block ends and its outcome, the
    [except Exception] clause applied. *)
Definition transcribe_protected (audio_data model_name language file_format : json)
    (w : World) : Response * Frame :=
  match transcribe_try audio_data model_name language file_format (mkFrame w None None) with
  | (Ok response, fr) => (response, fr)
  | (Raise e, fr) => (except_Exception e, fr)
  end.

Definition transcribe (request : Request) (w : World) : Response * World :=
  let audio_data := get request "audio" in
  let model_name := get_default request "model" (JStr (DEFAULT_MODEL env)) in
  let language := get request "language" in
  let language := if in_strs language ["auto"; ""] then JNull else language in
  let file_format := get_default request "format" (JStr "ogg") in
  if negb (truthy audio_data) then
    (HTTPException 400 (DetailStr "No audio data provided"), w)
  else
    let '(response, fr) := transcribe_protected audio_data model_name language file_format w in
    (response, cleanup fr).

End Server.

(** The host [env] with another [os.unlink]. *)
Definition with_os_unlink (env : Env) (unlink : nat -> string -> option exn) : Env := {|
  MODELS_DIR := MODELS_DIR env;
  DEFAULT_MODEL := DEFAULT_MODEL env;
  DEVICE := DEVICE env;
  COMPUTE_TYPE := COMPUTE_TYPE env;
  shutil_which_ffmpeg := shutil_which_ffmpeg env;
  ffmpeg := ffmpeg env;
  torch := torch env;
  WhisperModel_init := WhisperModel_init env;
  engine := engine env;
  tempdir := tempdir env;
  mkstemp := mkstemp env;
  tmp_file_write := tmp_file_write env;
  tmp_file_close := tmp_file_close env;
  os_unlink := unlink;
  py_str := py_str env
|}.

(** The host [env] with another engine. *)
Definition with_engine (env : Env)
    (run : nat -> Handle -> string -> option bytes -> json -> EngineOutcome) : Env := {|
  MODELS_DIR := MODELS_DIR env;
  DEFAULT_MODEL := DEFAULT_MODEL env;
  DEVICE := DEVICE env;
  COMPUTE_TYPE := COMPUTE_TYPE env;
  shutil_which_ffmpeg := shutil_which_ffmpeg env;
  ffmpeg := ffmpeg env;
  torch := torch env;
  WhisperModel_init := WhisperModel_init env;
  engine := run;
  tempdir := tempdir env;
  mkstemp := mkstemp env;
  tmp_file_write := tmp_file_write env;
  tmp_file_close := tmp_file_close env;
  os_unlink := os_unlink env;
  py_str := py_str env
|}.

(** The host [env] with another [WhisperModel] constructor. *)
Definition with_WhisperModel_init (env : Env)
    (init : nat -> string -> string -> string -> string -> option exn) : Env := {|
  MODELS_DIR := MODELS_DIR env;
  DEFAULT_MODEL := DEFAULT_MODEL env;
  DEVICE := DEVICE env;
  COMPUTE_TYPE := COMPUTE_TYPE env;
  shutil_which_ffmpeg := shutil_which_ffmpeg env;
  ffmpeg := ffmpeg env;
  torch := torch env;
  WhisperModel_init := init;
  engine := engine env;
  tempdir := tempdir env;
  mkstemp := mkstemp env;
  tmp_file_write := tmp_file_write env;
  tmp_file_close := tmp_file_close env;
  os_unlink := os_unlink env;
  py_str := py_str env
|}.

(** ** A concrete host, for running the model *)

Module Sample.

Definition info : Info := mkInfo "en" 0.5%float 2.5%float.

Definition segments : list Segment :=
  [ mkSegment " Hello there. "; mkSegment "  How are you?" ].

Definition riff : bytes := [82; 73; 70; 70].

Definition good_run : FfmpegRun := mkFfmpegRun None 1 0 true (Some riff).

(** A host with ffmpeg installed and no torch, on which every collaborator
    succeeds except as the arguments say: the configured default model, what
    a run of ffmpeg does, and the outcomes of [write] and [os.unlink]. *)
Definition host (default_model : string) (run : FfmpegRun)
    (write unlink : option exn) : Env := {|
  MODELS_DIR := "/root/.cache/whisper";
  DEFAULT_MODEL := default_model;
  DEVICE := "auto";
  COMPUTE_TYPE := "auto";
  shutil_which_ffmpeg := fun _ => Some "/usr/bin/ffmpeg";
  ffmpeg := fun _ _ _ _ => run;
  torch := fun _ => TorchMissing;
  WhisperModel_init := fun _ _ _ _ _ => None;
  engine := fun _ _ _ _ _ => EngineYields segments None info;
  tempdir := "/tmp";
  mkstemp := fun _ _ => Ok "k3x9ab_q";
  tmp_file_write := fun _ _ _ => write;
  tmp_file_close := fun _ _ => None;
  os_unlink := fun _ _ => unlink;
  py_str := fun _ => "None"
|}.

Definition env : Env := host "base" good_run None None.

(** The same host, on which [os.unlink] fails. *)
Definition env_unlink_fails : Env :=
  host "base" good_run None (Some (External "PermissionError" "Operation not permitted")).

(** The same host, on which writing the temporary file fails. *)
Definition env_write_fails : Env :=
  host "base" good_run (Some (External "OSError" "No space left on device")) None.

(** The same host, on which ffmpeg is still running after the timeout,
    having written the beginning of its output. *)
Definition env_ffmpeg_hangs : Env :=
  host "base" (mkFfmpegRun None 45 0 true (Some [82; 73])) None None.

(** The same host started with [WHISPER_DEFAULT_MODEL=large-v3-turbo]. *)
Definition env_turbo : Env := host "large-v3-turbo" good_run None None.

Definition w0 : World := mkWorld ∅ ∅ None [].

(** [{"audio": "aGVsbG8=", "format": "wav"}] *)
Definition req_wav : Request :=
  <["audio" := JStr "aGVsbG8="]> (<["format" := JStr "wav"]> ∅).

(** [{"audio": "data:audio/ogg;base64,aGVsbG8="}] *)
Definition req_ogg : Request :=
  <["audio" := JStr "data:audio/ogg;base64,aGVsbG8="]> ∅.

(** The same host, on which the run of ffmpeg is interrupted. *)
Definition env_interrupted : Env :=
  host "base" (mkFfmpegRun (Some (NonException "KeyboardInterrupt" "")) 0 0 true None)
    None None.

(** The host on which the engine raises. *)
Definition env_engine_fails : Env :=
  with_engine env (fun _ _ _ _ _ => EngineRaises (External "RuntimeError" "out of memory")).

(** The host on which no model can be loaded. *)
Definition env_load_fails : Env :=
  with_WhisperModel_init env
    (fun _ _ _ _ _ => Some (External "ValueError" "Invalid model size")).

End Sample.

(** * Vocabulary of the specification *)

(** The run of ffmpeg that [convert_to_wav] observes in world [w]: it
    happens one tick after the [shutil.which] call. *)
Definition observed_run (env : Env) (ffmpeg_path input_path : string) (w : World) : FfmpegRun :=
  ffmpeg env (S (clock w)) ffmpeg_path input_path (fs w !! input_path).

(** The events of the converter: looking ffmpeg up and running it. *)
Definition is_converter_event (ev : Event) : bool :=
  match ev with
  | EvWhich | EvFfmpeg _ _ _ => true
  | _ => false
  end.

Definition is_ffmpeg_run (ev : Event) : bool :=
  match ev with
  | EvFfmpeg _ _ _ => true
  | _ => false
  end.

Definition ffmpeg_events (evs : list Event) : list Event :=
  List.filter is_ffmpeg_run evs.

(** The model [name] loads: the torch probe raises nothing and the
    constructor succeeds. *)
Definition loads (env : Env) (name : string) : Prop :=
  (forall c e, torch env c <> TorchRaises e)
  /\ (forall c device compute_type,
        WhisperModel_init env c name device compute_type (MODELS_DIR env) = None).

(** ** Runs of [get_model] *)

(** What a fresh load leaves behind. *)
Definition loaded (env : Env) (name device : string) (w1 : World) : Handle * World :=
  let compute_type := detect_compute_type env device in
  let model := mkHandle name device compute_type (MODELS_DIR env) (clock w1) in
  (model,
   mkWorld (fs w1) (<[name := model]> (model_cache w1)) (Some name)
     (EvModelInit name device compute_type (MODELS_DIR env) :: trace w1)).

(** The four ways [get_model] can go. *)
Inductive get_model_run (env : Env) (v : json) (w : World) : result Handle * World -> Prop :=
  | run_hit (model : Handle) :
      model_cache w !! resolve_model_name env v = Some model ->
      get_model_run env v w (Ok model, w)
  | run_load (device : string) (w1 : World) :
      model_cache w !! resolve_model_name env v = None ->
      w1 = w \/ w1 = log_event EvTorch w ->
      WhisperModel_init env (clock w1) (resolve_model_name env v) device
        (detect_compute_type env device) (MODELS_DIR env) = None ->
      get_model_run env v w
        (Ok (fst (loaded env (resolve_model_name env v) device w1)),
         snd (loaded env (resolve_model_name env v) device w1))
  | run_probe_fail (e : exn) :
      model_cache w !! resolve_model_name env v = None ->
      DEVICE env = "auto" -> torch env (clock w) = TorchRaises e ->
      get_model_run env v w (Raise e, log_event EvTorch w)
  | run_fail (device : string) (w1 : World) (e : exn) :
      model_cache w !! resolve_model_name env v = None ->
      w1 = w \/ w1 = log_event EvTorch w ->
      WhisperModel_init env (clock w1) (resolve_model_name env v) device
        (detect_compute_type env device) (MODELS_DIR env) = Some e ->
      get_model_run env v w
        (Raise e,
         log_event (EvModelInit (resolve_model_name env v) device
                      (detect_compute_type env device) (MODELS_DIR env)) w1).

(** ** A program logic for the monad

    [hoare P m Q E]: started in a state satisfying [P], [m] ends in a state
    satisfying [Q a] when it returns [a] and [E e] when it raises [e]. *)

Definition hoare {S A} (P : S -> Prop) (m : St S A) (Q : A -> S -> Prop)
    (E : exn -> S -> Prop) : Prop :=
  forall s, P s ->
    match m s with
    | (Ok a, s') => Q a s'
    | (Raise e, s') => E e s'
    end.

(** [stable I m]: [m] keeps [I], however it ends. *)
Definition stable {S A} (I : S -> Prop) (m : St S A) : Prop :=
  hoare I m (fun _ => I) (fun _ => I).

(** A property of the registry alone ([model_cache] and
    [current_model_name]). *)
Definition on_registry (R : gmap string Handle -> option string -> Prop) : World -> Prop :=
  fun w => R (model_cache w) (current_model_name w).

(** A property of the file system alone. *)
Definition on_fs (F : gmap string bytes -> Prop) : World -> Prop :=
  fun w => F (fs w).

(** The invariant as first stated: the current model is a supported one
    and is cached. *)
Definition registry_inv_supported : World -> Prop :=
  on_registry (fun cache current =>
    forall n, current = Some n -> n ∈ AVAILABLE_MODELS /\ is_Some (cache !! n)).

(** The invariant the code keeps: the current model is a supported one or
    the configured default, and is cached. *)
Definition registry_inv (env : Env) : World -> Prop :=
  on_registry (fun cache current =>
    forall n, current = Some n ->
      (n ∈ AVAILABLE_MODELS \/ n = DEFAULT_MODEL env) /\ is_Some (cache !! n)).

(** The states the server goes through: it boots with an empty registry,
    runs [startup_event], then serves requests; files may change under it. *)
Inductive reachable (env : Env) : World -> Prop :=
  | reach_boot (files : gmap string bytes) :
      reachable env (mkWorld files ∅ None [])
  | reach_startup (w : World) :
      reachable env w -> reachable env (snd (startup_event env w))
  | reach_get_model (w : World) (v : json) :
      reachable env w -> reachable env (snd (get_model env v w))
  | reach_transcribe (w : World) (request : Request) :
      reachable env w -> reachable env (snd (transcribe env request w))
  | reach_files (w : World) (files : gmap string bytes) :
      reachable env w -> reachable env (set_fs files w).

(** ** Responses *)

(** The language the engine is given: ["auto"] and [""] mean unspecified. *)
Definition language_hint (request : Request) : json :=
  if in_strs (get request "language") ["auto"; ""] then JNull
  else get request "language".

(** [response] is the 200 response assembled from the segments and the
    info that one engine call, made with language [lang], yielded; the two
    floats of the info are such as JSON can carry. *)
Definition assembled_from (env : Env) (lang : json) (response : Response) : Prop :=
  exists c h audio_path content segments_list info,
    engine env c h audio_path content lang = EngineYields segments_list None info
    /\ json_compliant (info_language_probability info) = true
    /\ json_compliant (info_duration info) = true
    /\ response = JSONResponse
         (mkContent
            (PyStr.join " " (map (fun segment => PyStr.strip (seg_text segment)) segments_list))
            (info_language info)
            (info_language_probability info)
            (info_duration info)).

Definition is_ok_response (response : Response) : bool :=
  match response with
  | JSONResponse _ => true
  | HTTPException _ _ | Uncaught _ => false
  end.

(** Whatever a run of ffmpeg raises is an [Exception], which
    [convert_to_wav] absorbs. *)
Definition ffmpeg_raises_Exceptions (env : Env) : Prop :=
  forall c ffmpeg_path input_path content e,
    ff_spawn_error (ffmpeg env c ffmpeg_path input_path content) = Some e ->
    is_Exception e = true.

(** The collaborators that can fail the request before the engine is
    called all succeed: the temporary file is created, written and closed,
    the model loads, and a run of ffmpeg raises nothing but [Exception]s. *)
Definition collaborators_succeed (env : Env) : Prop :=
  (forall c sfx, is_ok (mkstemp env c sfx) = true)
  /\ (forall c p d, tmp_file_write env c p d = None)
  /\ (forall c p, tmp_file_close env c p = None)
  /\ (forall c name device compute_type root,
        WhisperModel_init env c name device compute_type root = None)
  /\ (forall c e, torch env c <> TorchRaises e)
  /\ ffmpeg_raises_Exceptions env.

(** Among the events [evs] (newest first) logged since [w] there is a call
    of the engine with language [lang], made at the instant that follows the
    events before it; [outcome] is what that call did. *)
Definition engine_called (env : Env) (w : World) (evs : list Event) (lang : json)
    (outcome : EngineOutcome) : Prop :=
  exists after before h audio_path content,
    evs = (after ++ EvEngine h audio_path content lang :: before)%list
    /\ outcome = engine env (length (before ++ trace w)%list) h audio_path content lang.

(** How a request ends whose [try] block comes to the call of the engine,
    given what that call does. *)
Definition response_to (outcome : EngineOutcome) : Response :=
  match outcome with
  | EngineRaises e | EngineYields _ (Some e) _ => except_Exception e
  | EngineYields segments_list None info =>
      match JSONResponse_init
              (mkContent (full_text_of segments_list) (info_language info)
                 (info_language_probability info) (info_duration info)) with
      | Ok response => response
      | Raise e => except_Exception e
      end
  end.

(** The merged text in the words of the specification: the trimmed texts
    in the order yielded, the first as it is, each later one appended after
    a single space. *)
Definition merged_text (segments_list : list Segment) : string :=
  match segments_list with
  | [] => ""
  | first :: others =>
      fold_left (fun acc segment => acc +:+ " " +:+ PyStr.strip (seg_text segment))
        others (PyStr.strip (seg_text first))
  end.

Definition starts_with_space (s : string) : bool :=
  match s with
  | EmptyString => false
  | String c _ => PyStr.isspace c
  end.

Fixpoint ends_with_space (s : string) : bool :=
  match s with
  | EmptyString => false
  | String c EmptyString => PyStr.isspace c
  | String _ s' => ends_with_space s'
  end.

(** [m] never raises. *)
Definition no_raise {S A} (m : St S A) : Prop :=
  hoare (fun _ => True) m (fun _ _ => True) (fun _ _ => False).

(** ** Events of a request *)

(** What the events of a request may be, given whether its format calls
    for conversion ([conv]) and the bytes [decoded] from its payload: the
    converter appears only when [conv] holds, and otherwise the engine is
    only ever given a file holding exactly [decoded]. *)
Definition ok_event (conv : bool) (decoded : bytes) (ev : Event) : Prop :=
  (is_converter_event ev = true -> conv = true)
  /\ (conv = false ->
      forall h audio_path content lang,
        ev = EvEngine h audio_path content lang -> content = Some decoded).

(** The events since the trace was [before] are all such events, and the
    file [written], once there is one, holds [decoded]. *)
Definition events_ok (before : list Event) (conv : bool) (decoded : bytes)
    (written : option string) (w : World) : Prop :=
  (exists evs, trace w = (evs ++ before)%list /\ Forall (ok_event conv decoded) evs)
  /\ (forall p, written = Some p -> fs w !! p = Some decoded).

(** ** Temporary files *)

(** Every file on disk in [w'] was already there in [w]: nothing created
    in between remains. *)
Definition no_files_left (w w' : World) : Prop :=
  forall p, is_Some (fs w' !! p) -> is_Some (fs w !! p).

(** [os.unlink] removes every file it is asked to remove. *)
Definition unlink_succeeds (env : Env) : Prop :=
  forall c p, os_unlink env c p = None.

(** Writing the decoded bytes to the temporary file succeeds. *)
Definition write_succeeds (env : Env) : Prop :=
  forall c p d, tmp_file_write env c p d = None.

(** ffmpeg leaves an output file only when it ends within the timeout
    with exit status zero. *)
Definition ffmpeg_tidy (env : Env) : Prop :=
  forall c ffmpeg_path input_path content,
    let run := ffmpeg env c ffmpeg_path input_path content in
    ff_spawn_error run = None -> is_Some (ff_written run) ->
    ff_seconds run <= FFMPEG_TIMEOUT /\ ff_returncode run = 0.

(** The files of the handler's frame are accounted for: each is an old
    file (of [files0]) or one of the two paths the [finally] block will
    delete, and those paths are non-empty. *)
Definition accounted (files0 : gmap string bytes) (fr : Frame) : Prop :=
  (forall q, is_Some (fs (world fr) !! q) ->
     is_Some (files0 !! q) \/ tmp_path fr = Some q \/ converted_path fr = Some q)
  /\ (forall p, tmp_path fr = Some p -> p <> "")
  /\ (forall c, converted_path fr = Some c -> c <> "").

(** [m] does not touch the file system. *)
Definition keeps_fs {A} (m : M A) : Prop :=
  forall w, fs (snd (m w)) = fs w.

(** ** Instantiations *)

Definition is_model_init (ev : Event) : bool :=
  match ev with
  | EvModelInit _ _ _ _ => true
  | _ => false
  end.

(** How many times the [WhisperModel] constructor has been called. *)
Definition instantiations (w : World) : nat :=
  length (List.filter is_model_init (trace w)).

(** ** The registry's handles *)

(** The world in which the process starts: some files, nothing loaded. *)
Definition boot (files : gmap string bytes) : World := mkWorld files ∅ None [].

(** The device [get_model] settles on follows the configuration: an
    explicit [DEVICE] is taken as it is; with ["auto"] the device is
    ["cuda"] or ["cpu"]. *)
Definition device_policy (env : Env) (device : string) : Prop :=
  (DEVICE env <> "auto" -> device = DEVICE env)
  /\ (DEVICE env = "auto" -> device = "cuda" \/ device = "cpu").

(** The precision follows the configuration: an explicit [COMPUTE_TYPE]
    is taken as it is; with ["auto"] it is ["float16"] on ["cuda"] and
    ["int8"] otherwise. *)
Definition compute_type_policy (env : Env) (device compute_type : string) : Prop :=
  (COMPUTE_TYPE env <> "auto" -> compute_type = COMPUTE_TYPE env)
  /\ (COMPUTE_TYPE env = "auto" -> device = "cuda" -> compute_type = "float16")
  /\ (COMPUTE_TYPE env = "auto" -> device <> "cuda" -> compute_type = "int8").

(** The handle [model] cached under [name] was built for [name], with the
    configured weights directory and according to the two policies, and
    [name] is a supported name or the configured default. *)
Definition handle_for (env : Env) (name : string) (model : Handle) : Prop :=
  h_model model = name
  /\ h_download_root model = MODELS_DIR env
  /\ device_policy env (h_device model)
  /\ compute_type_policy env (h_device model) (h_compute_type model)
  /\ (name ∈ AVAILABLE_MODELS \/ name = DEFAULT_MODEL env).

(** Relative to a registry [(cache0, current0)]: nothing has changed, or
    exactly the entry [name] has been added and made current. *)
Definition grown_by (cache0 : gmap string Handle) (current0 : option string) (name : string)
    (cache : gmap string Handle) (current : option string) : Prop :=
  (cache = cache0 /\ current = current0)
  \/ (exists model, cache0 !! name = None /\ cache = <[name := model]> cache0
                    /\ current = Some name).

(** The events [w'] has logged since [w]. *)
Definition logged_since (w w' : World) (evs : list Event) : Prop :=
  trace w' = (evs ++ trace w)%list.

(** ** The order of a request's calls

    The calls a [/transcribe] request makes outside the process follow the
    text of the handler: the temporary file is created, written and closed;
    ffmpeg is looked up and run; torch is probed and the model built; the
    engine runs; the [finally] block unlinks the temporary file and then the
    converted one.  Each call may be missing (a step was skipped or an
    earlier one raised), none is repeated. *)

Inductive Stage : Type :=
  | Closed | Looked | Converted | Probed | Built | Transcribed | Unlinked1 | Unlinked2.

Definition stage_rank (s : Stage) : nat :=
  match s with
  | Closed => 3 | Looked => 4 | Converted => 5 | Probed => 6
  | Built => 7 | Transcribed => 8 | Unlinked1 => 9 | Unlinked2 => 10
  end.

(** How far a request has come; from [PWritten] on, the name of its
    temporary file is known. *)
Inductive Phase : Type :=
  | PStart
  | PCreated
  | PWritten (p : string)
  | PAt (s : Stage) (p : string).

Definition phase_rank (ph : Phase) : nat :=
  match ph with
  | PStart => 0
  | PCreated => 1
  | PWritten _ => 2
  | PAt s _ => stage_rank s
  end.

(** One call, made in phase [ph], leads to the next phase.  [sfx] is the
    suffix asked of [tempfile] and [lang] the language given to the
    engine. *)
Inductive call_step (sfx : string) (lang : json) : Phase -> Event -> Phase -> Prop :=
  | step_mktemp :
      call_step sfx lang PStart (EvMkTemp sfx) PCreated
  | step_write (p : string) :
      call_step sfx lang PCreated (EvWrite p) (PWritten p)
  | step_close (p : string) :
      call_step sfx lang (PWritten p) (EvClose p) (PAt Closed p)
  | step_which (p : string) :
      call_step sfx lang (PAt Closed p) EvWhich (PAt Looked p)
  | step_ffmpeg (p ffmpeg_path : string) :
      call_step sfx lang (PAt Looked p) (EvFfmpeg ffmpeg_path p (output_path_of p))
        (PAt Converted p)
  | step_torch (s : Stage) (p : string) :
      (stage_rank s <= stage_rank Converted)%nat ->
      call_step sfx lang (PAt s p) EvTorch (PAt Probed p)
  | step_init (s : Stage) (p name device compute_type root : string) :
      (stage_rank s <= stage_rank Probed)%nat ->
      call_step sfx lang (PAt s p) (EvModelInit name device compute_type root) (PAt Built p)
  | step_engine (s : Stage) (p audio_path : string) (h : Handle) (content : option bytes) :
      (stage_rank s <= stage_rank Built)%nat ->
      audio_path = p \/ audio_path = output_path_of p ->
      call_step sfx lang (PAt s p) (EvEngine h audio_path content lang) (PAt Transcribed p)
  | step_unlink1 (s : Stage) (p : string) :
      (stage_rank s <= stage_rank Transcribed)%nat ->
      call_step sfx lang (PAt s p) (EvUnlink p) (PAt Unlinked1 p)
  | step_unlink2 (p : string) :
      call_step sfx lang (PAt Unlinked1 p) (EvUnlink (output_path_of p)) (PAt Unlinked2 p).

(** The calls [evs] (newest first) lead from the start to phase [ph]. *)
Inductive calls_reach (sfx : string) (lang : json) : list Event -> Phase -> Prop :=
  | reach_nil : calls_reach sfx lang [] PStart
  | reach_cons (evs : list Event) (ph ph' : Phase) (ev : Event) :
      calls_reach sfx lang evs ph ->
      call_step sfx lang ph ev ph' ->
      calls_reach sfx lang (ev :: evs) ph'.

(** Since the trace was [before], the world has come to phase [ph]. *)
Definition at_phase (sfx : string) (lang : json) (before : list Event) (ph : Phase)
    (w : World) : Prop :=
  exists evs, trace w = (evs ++ before)%list /\ calls_reach sfx lang evs ph.

(** What the [finally] block can rely on when the [try] block ends:
    either no path was recorded and no call past closing the file was
    made, or the temporary file [p] was recorded, the calls are those of a
    request working on [p], and the converted path, if recorded, is [p] or
    its converted sibling. *)
Definition ready_for_cleanup (sfx : string) (lang : json) (before : list Event)
    (fr : Frame) : Prop :=
  exists ph, at_phase sfx lang before ph (world fr)
    /\ match tmp_path fr with
       | None => converted_path fr = None /\ (phase_rank ph <= stage_rank Closed)%nat
       | Some p =>
           p <> ""
           /\ (exists s, ph = PAt s p /\ (stage_rank s <= stage_rank Transcribed)%nat)
           /\ (converted_path fr = None \/ converted_path fr = Some p
               \/ converted_path fr = Some (output_path_of p))
       end.

(** The place of an event in the order of the handler's calls. *)
Definition call_rank (ev : Event) : nat :=
  match ev with
  | EvMkTemp _ => 1
  | EvWrite _ => 2
  | EvClose _ => 3
  | EvWhich => 4
  | EvFfmpeg _ _ _ => 5
  | EvTorch => 6
  | EvModelInit _ _ _ _ => 7
  | EvEngine _ _ _ _ => 8
  | EvUnlink _ => 9
  end.

Definition is_unlink (ev : Event) : bool :=
  match ev with
  | EvUnlink _ => true
  | _ => false
  end.

Definition is_engine_call (ev : Event) : bool :=
  match ev with
  | EvEngine _ _ _ _ => true
  | _ => false
  end.

(** Newest first, the calls are in the order of the handler's text: an
    older call never has a later place than a newer one, and only
    [os.unlink] can share its place with an older call. *)
Fixpoint in_call_order (evs : list Event) : Prop :=
  match evs with
  | [] => True
  | ev :: older =>
      (forall e, e ∈ older ->
         (call_rank e <= call_rank ev)%nat
         /\ (is_unlink ev = false -> call_rank e < call_rank ev)%nat)
      /\ in_call_order older
  end.

(** ** Paths a request touches *)

(** [m] changes no file other than [p] and its converted sibling. *)
Definition touches_only {A} (p : string) (m : M A) : Prop :=
  forall w q, q <> p -> q <> output_path_of p -> fs (snd (m w)) !! q = fs w !! q.

(** Relative to the files [files0]: the frame's world differs at most at
    [p] and its converted sibling, and the paths recorded for the [finally]
    block are among these two. *)
Definition touched_at_most (files0 : gmap string bytes) (p : string) (fr : Frame) : Prop :=
  (forall q, q <> p -> q <> output_path_of p -> fs (world fr) !! q = files0 !! q)
  /\ (tmp_path fr = None \/ tmp_path fr = Some p)
  /\ (converted_path fr = None \/ converted_path fr = Some p
      \/ converted_path fr = Some (output_path_of p)).

(** ** Failures of the pipeline *)

(** The temporary file is created, written and closed without error. *)
Definition files_succeed (env : Env) : Prop :=
  (forall c sfx, is_ok (mkstemp env c sfx) = true)
  /\ (forall c p d, tmp_file_write env c p d = None)
  /\ (forall c p, tmp_file_close env c p = None).

(** The call of the engine fails with [e], at the call or while the
    segments are consumed. *)
Definition fails_with (outcome : EngineOutcome) (e : exn) : Prop :=
  outcome = EngineRaises e
  \/ exists segments_list info, outcome = EngineYields segments_list (Some e) info.

(** Every call of the [WhisperModel] constructor fails with [e], and the
    torch probe raises nothing. *)
Definition load_fails (env : Env) (e : exn) : Prop :=
  (forall c t, torch env c <> TorchRaises t)
  /\ (forall c name device compute_type root,
        WhisperModel_init env c name device compute_type root = Some e).

(** ** What the engine reads *)

(** On this host a conversion can succeed: at some instant ffmpeg is found
    and, run on some input, ends within the timeout with exit status
    zero. *)
Definition conversion_possible (env : Env) : Prop :=
  exists c ffmpeg_path input_path content,
    shutil_which_ffmpeg env c = Some ffmpeg_path /\ ffmpeg_path <> ""
    /\ let run := ffmpeg env (S c) ffmpeg_path input_path content in
       ff_spawn_error run = None /\ ff_seconds run <= FFMPEG_TIMEOUT
       /\ ff_returncode run = 0.

(** An engine call reads the bytes [decoded], or else it reads an existing
    converted file, on a host on which a conversion can succeed. *)
Definition engine_reads (env : Env) (decoded : bytes) (ev : Event) : Prop :=
  forall h audio_path content lang,
    ev = EvEngine h audio_path content lang ->
    content = Some decoded
    \/ (is_Some content /\ (exists p, audio_path = output_path_of p)
        /\ conversion_possible env).

(** [m] logs some events, none of them an engine call. *)
Definition quiet {A} (m : M A) : Prop :=
  forall w, exists evs,
    forallb (fun ev => negb (is_engine_call ev)) evs = true
    /\ trace (snd (m w)) = (evs ++ trace w)%list.

(** The events logged since [before] all satisfy [P]. *)
Definition events_sat (P : Event -> Prop) (before : list Event) (w : World) : Prop :=
  exists evs, trace w = (evs ++ before)%list /\ Forall P evs.

(** * Properties *)

(** ** Base64 *)

Example b64decode_hello :
  Base64.b64decode "aGVsbG8=" = Ok [104; 101; 108; 108; 111].
Proof. reflexivity. Qed.

Example b64decode_empty : Base64.b64decode "" = Ok [].
Proof. reflexivity. Qed.

Example b64decode_skips_newline :
  Base64.b64decode (String (PyStr.chr 10) "aGk=") = Ok [104; 105].
Proof. reflexivity. Qed.

Example b64decode_abc : Base64.b64decode "abc" = Raise BinasciiIncorrectPadding.
Proof. reflexivity. Qed.

Example b64decode_one_char : Base64.b64decode "a" = Raise (BinasciiInvalidLength 1).
Proof. reflexivity. Qed.


(** ** Strings *)

Section StringFacts.

Local Open Scope nat_scope.

Lemma append_cancel_l (a x y : string) : a +:+ x = a +:+ y -> x = y.
Proof.
  induction a as [|c a IH]; simpl; [tauto|].
  intros H. injection H as H. auto.
Qed.

Lemma contains_append (sep : ascii) (a b : string) :
  PyStr.contains sep (a +:+ b) = PyStr.contains sep a || PyStr.contains sep b.
Proof.
  induction a as [|c a IH]; simpl; [reflexivity|].
  destruct (Ascii.eqb c sep); [reflexivity | exact IH].
Qed.

Lemma split_no_sep (sep : ascii) (s : string) :
  PyStr.contains sep s = false -> PyStr.split sep s = [s].
Proof.
  induction s as [|c s IH]; simpl; [reflexivity|].
  destruct (Ascii.eqb c sep); [discriminate|].
  intros H. rewrite (IH H). reflexivity.
Qed.

Lemma split_at_first (sep : ascii) (a b : string) :
  PyStr.contains sep a = false ->
  PyStr.split sep (a +:+ String sep b) = a :: PyStr.split sep b.
Proof.
  induction a as [|c a IH]; simpl.
  - intros _. rewrite Ascii.eqb_refl. reflexivity.
  - destruct (Ascii.eqb c sep); [discriminate|].
    intros H. rewrite (IH H). reflexivity.
Qed.

(** A string with a separator always splits in at least two pieces, so
    the index [1] is in range. *)
Lemma split_second (sep : ascii) (s : string) :
  PyStr.contains sep s = true -> is_Some (PyStr.split sep s !! 1).
Proof.
  induction s as [|c s IH]; simpl; [discriminate|].
  destruct (Ascii.eqb c sep).
  - intros _. destruct s as [|d s]; simpl; [eauto|].
    destruct (Ascii.eqb d sep); [eauto|].
    destruct (PyStr.split sep s); eauto.
  - intros H. specialize (IH H).
    destruct (PyStr.split sep s) as [|p [|q ps]]; simpl in *; eauto.
Qed.

(** [rsplit1_head] cuts at a separator: what it drops is empty or starts
    with the separator. *)
Lemma rsplit1_head_cut (sep : ascii) (s : string) :
  exists rest, s = PyStr.rsplit1_head sep s +:+ rest
               /\ (rest = EmptyString \/ exists r, rest = String sep r).
Proof.
  induction s as [|c s IH]; simpl.
  - exists EmptyString. auto.
  - destruct (Ascii.eqb c sep && negb (PyStr.contains sep s)) eqn:E.
    + apply andb_prop in E as [E _]. apply Ascii.eqb_eq in E. subst c.
      exists (String sep s). simpl. eauto.
    + destruct IH as (rest & Hs & Hr). exists rest. simpl.
      split; [exact (f_equal (String c) Hs) | exact Hr].
Qed.

End StringFacts.

(** The converted file never has the name of the input file. *)
Lemma output_path_of_neq (input_path : string) :
  output_path_of input_path <> input_path.
Proof.
  unfold output_path_of.
  destruct (rsplit1_head_cut dot input_path) as (rest & Hs & Hr).
  intros H. rewrite Hs in H at 2. apply append_cancel_l in H.
  destruct Hr as [-> | [r ->]]; discriminate.
Qed.

Lemma output_path_of_nonempty (input_path : string) :
  output_path_of input_path <> "".
Proof.
  unfold output_path_of.
  destruct (PyStr.rsplit1_head dot input_path); discriminate.
Qed.

(** ** Decoding the payload *)

Lemma strip_data_url_prefixed (prefix payload : string) :
  PyStr.contains comma prefix = false ->
  PyStr.contains comma payload = false ->
  strip_data_url (JStr (prefix +:+ String comma payload)) = Ok payload.
Proof.
  intros Hp Hq. unfold strip_data_url.
  rewrite contains_append, Hp. simpl.
  rewrite (split_at_first comma prefix payload Hp), (split_no_sep comma payload Hq).
  reflexivity.
Qed.

Lemma strip_data_url_bare (s : string) :
  PyStr.contains comma s = false -> strip_data_url (JStr s) = Ok s.
Proof. intros H. unfold strip_data_url. rewrite H. reflexivity. Qed.

(** On a [str] the comma test never leads to an [IndexError]. *)
Lemma strip_data_url_str_ok (s : string) : is_ok (strip_data_url (JStr s)) = true.
Proof.
  unfold strip_data_url. destruct (PyStr.contains comma s) eqn:E; [|reflexivity].
  destruct (split_second comma s E) as [p ->]. reflexivity.
Qed.

(** The handler sees its [audio] argument only through [decode_audio]. *)
Lemma transcribe_protected_decode (env : Env) (a1 a2 model_name language file_format : json) (w : World) :
  decode_audio a1 = decode_audio a2 ->
  transcribe_protected env a1 model_name language file_format w
  = transcribe_protected env a2 model_name language file_format w.
Proof.
  intros H. unfold transcribe_protected, transcribe_try. unfold bind at 1 3.
  unfold lift_result. rewrite H. reflexivity.
Qed.

(** C7. For a data-URL [data:audio/ogg;base64,<payload>] whose payload
    holds no comma, the bytes the handler decodes are the base64 decoding of
    the payload alone, and the handler runs exactly as on the bare payload;
    a value without a comma is decoded as it is. *)
Theorem data_url_round_trip (payload : string) :
  PyStr.contains comma payload = false ->
  decode_audio (JStr ("data:audio/ogg;base64," +:+ payload)) = Base64.b64decode payload
  /\ decode_audio (JStr payload) = Base64.b64decode payload
  /\ forall (env : Env) (model_name language file_format : json) (w : World),
       transcribe_protected env (JStr ("data:audio/ogg;base64," +:+ payload))
         model_name language file_format w
       = transcribe_protected env (JStr payload) model_name language file_format w.
Proof.
  intros Hq.
  assert (H1 : decode_audio (JStr ("data:audio/ogg;base64," +:+ payload))
               = Base64.b64decode payload).
  { unfold decode_audio.
    change ("data:audio/ogg;base64," +:+ payload)
      with ("data:audio/ogg;base64" +:+ String comma payload).
    rewrite strip_data_url_prefixed; [reflexivity | reflexivity | exact Hq]. }
  assert (H2 : decode_audio (JStr payload) = Base64.b64decode payload).
  { unfold decode_audio. rewrite strip_data_url_bare; [reflexivity | exact Hq]. }
  split; [exact H1|]. split; [exact H2|].
  intros env model_name language file_format w.
  apply transcribe_protected_decode. rewrite H1, H2. reflexivity.
Qed.

Lemma data_url_round_trip_witness :
  PyStr.contains comma "aGVsbG8=" = false
  /\ decode_audio (JStr ("data:audio/ogg;base64," +:+ "aGVsbG8="))
     = Ok [104; 101; 108; 108; 111].
Proof.
  split; [reflexivity|].
  destruct (data_url_round_trip "aGVsbG8=" eq_refl) as [H _].
  rewrite H. reflexivity.
Defined.

(** ** [convert_to_wav] *)

Ltac ff_simpl :=
  cbn [fst snd andb is_Exception
       ff_spawn_error ff_seconds ff_returncode ff_stderr_decodes ff_written] in *.

(** [convert_to_wav] returns the input path or the converted path, unless
    an exception that is not an [Exception] leaves it. *)
Lemma convert_to_wav_returns (env : Env) (input_path : string) (w : World) :
  (exists p, fst (convert_to_wav env input_path w) = Ok p
             /\ (p = input_path \/ p = output_path_of input_path))
  \/ (exists e, fst (convert_to_wav env input_path w) = Raise e /\ is_Exception e = false).
Proof.
  unfold convert_to_wav, bind, shutil_which, try_except, subprocess_run,
    os_path_exists, stderr_decode, ret, raise.
  destruct (shutil_which_ffmpeg env (clock w)) as [[|c ff]|]; simpl; eauto.
  match goal with |- context [ffmpeg ?e ?c ?f ?i ?o] => destruct (ffmpeg e c f i o) as [sp secs rc dec wr] end.
  simpl. destruct sp as [e|]; simpl.
  { destruct (is_Exception e) eqn:He; simpl; eauto. }
  destruct (FFMPEG_TIMEOUT <? secs); simpl; eauto.
  destruct (rc =? 0); simpl; [|destruct dec; simpl; eauto].
  match goal with |- context [bool_decide ?P] => destruct (bool_decide P) end; simpl; eauto.
  destruct dec; simpl; eauto.
Qed.

(** What leaves [convert_to_wav] is what [subprocess.run] raised, and is
    not an [Exception]. *)
Lemma convert_to_wav_raises (env : Env) (input_path : string) (w : World) (e : exn) :
  fst (convert_to_wav env input_path w) = Raise e ->
  is_Exception e = false
  /\ exists ff, shutil_which_ffmpeg env (clock w) = Some ff /\ ff <> ""
                /\ ff_spawn_error (observed_run env ff input_path w) = Some e.
Proof.
  unfold observed_run, convert_to_wav, bind, shutil_which, try_except, subprocess_run,
    os_path_exists, stderr_decode, ret, raise.
  destruct (shutil_which_ffmpeg env (clock w)) as [[|c ff]|]; simpl; try discriminate.
  change (S (clock w)) with (clock (log_event EvWhich w)).
  destruct (ffmpeg env (clock (log_event EvWhich w)) (String c ff) input_path (fs w !! input_path))
    as [sp secs rc dec wr] eqn:Hrun.
  simpl. destruct sp as [e'|]; simpl.
  { destruct (is_Exception e') eqn:He; simpl; [discriminate|].
    intros [= <-]. split; [exact He|]. exists (String c ff).
    split; [reflexivity|]. split; [discriminate|]. rewrite Hrun. reflexivity. }
  destruct (FFMPEG_TIMEOUT <? secs); simpl; try discriminate.
  destruct (rc =? 0); simpl; [|destruct dec; simpl; discriminate].
  match goal with |- context [bool_decide ?P] => destruct (bool_decide P) end; simpl;
    try discriminate.
  destruct dec; simpl; discriminate.
Qed.

(** Without ffmpeg on the host nothing is run and nothing is written. *)
Lemma convert_to_wav_no_ffmpeg (env : Env) (input_path : string) (w : World) :
  shutil_which_ffmpeg env (clock w) = None \/ shutil_which_ffmpeg env (clock w) = Some "" ->
  convert_to_wav env input_path w = (Ok input_path, log_event EvWhich w).
Proof.
  unfold convert_to_wav, bind, shutil_which, ret.
  intros [-> | ->]; reflexivity.
Qed.

(** With ffmpeg on the host, the converted path is returned exactly when
    the run is spawned, ends within the timeout with exit status zero, and
    the output file exists. *)
Lemma convert_to_wav_converted_iff (env : Env) (input_path ff : string) (w : World) :
  shutil_which_ffmpeg env (clock w) = Some ff -> ff <> "" ->
  let run := observed_run env ff input_path w in
  let r := convert_to_wav env input_path w in
  fst r = Ok (output_path_of input_path)
  <-> ff_spawn_error run = None /\ ff_seconds run <= FFMPEG_TIMEOUT
      /\ ff_returncode run = 0
      /\ is_Some (fs (snd r) !! output_path_of input_path).
Proof.
  intros Hw Hff. pose proof (output_path_of_neq input_path) as Hneq.
  unfold observed_run.
  unfold convert_to_wav, bind, shutil_which, try_except, subprocess_run,
    os_path_exists, stderr_decode, ret, raise.
  rewrite Hw. destruct ff as [|c ff]; [congruence|].
  change (clock (log_event EvWhich w)) with (S (clock w)).
  change (fs (log_event EvWhich w)) with (fs w).
  destruct (ffmpeg env (S (clock w)) (String c ff) input_path (fs w !! input_path))
    as [sp secs rc dec wr].
  ff_simpl.
  destruct sp as [e|]; ff_simpl.
  { destruct (is_Exception e); ff_simpl;
      (split; [intros [= H]; exfalso; exact (Hneq (eq_sym H)) | intros [[=] _]]). }
  destruct (FFMPEG_TIMEOUT <? secs) eqn:Et; ff_simpl.
  { apply Z.ltb_lt in Et.
    split; [intros [= H]; exfalso; exact (Hneq (eq_sym H)) | intros (_ & ? & _); lia]. }
  apply Z.ltb_ge in Et.
  destruct (rc =? 0) eqn:Erc; ff_simpl.
  2:{ apply Z.eqb_neq in Erc.
      split; [|intros (_ & _ & ? & _); congruence].
      destruct dec; ff_simpl; intros [= H]; exfalso; exact (Hneq (eq_sym H)). }
  apply Z.eqb_eq in Erc.
  match goal with |- context [bool_decide ?P] => destruct (bool_decide_reflect P) as [Hex|Hex] end;
    ff_simpl.
  - split; [|reflexivity]. intros _. repeat split; auto.
  - split.
    + destruct dec; ff_simpl; intros [= H]; exfalso; exact (Hneq (eq_sym H)).
    + intros (_ & _ & _ & Hs). exfalso. apply Hex.
      destruct dec; ff_simpl; exact Hs.
Qed.

(** An exception that is not an [Exception], such as the
    [KeyboardInterrupt] of an interrupted run, is no error of the
    transcoder: [except Exception] is written not to catch it, and it
    leaves [convert_to_wav]. *)
Example interrupt_leaves_convert_to_wav :
  fst (convert_to_wav Sample.env_interrupted "/tmp/voice.ogg" Sample.w0)
  = Raise (NonException "KeyboardInterrupt" "").
Proof. reflexivity. Qed.

(** The interrupt then leaves the handler too, whose [finally] block still
    removes the temporary file. *)
Example interrupt_leaves_handler :
  transcribe Sample.env_interrupted Sample.req_ogg Sample.w0
  = (Uncaught (NonException "KeyboardInterrupt" ""),
     mkWorld ∅ ∅ None
       [ EvUnlink "/tmp/tmpk3x9ab_q.ogg";
         EvFfmpeg "/usr/bin/ffmpeg" "/tmp/tmpk3x9ab_q.ogg" "/tmp/tmpk3x9ab_q_converted.wav";
         EvWhich;
         EvClose "/tmp/tmpk3x9ab_q.ogg";
         EvWrite "/tmp/tmpk3x9ab_q.ogg";
         EvMkTemp ".ogg" ]).
Proof. vm_compute. reflexivity. Qed.

(** C5.  Whatever error the transcoder meets, [convert_to_wav] does not
    raise: where a run of ffmpeg raises nothing but [Exception]s (spawn
    errors, timeouts and the like), every call returns a path.  It returns
    the input path when ffmpeg is absent, cannot be spawned, runs past the
    30 second timeout or exits non-zero, and the converted path only when
    ffmpeg exits zero and the output file exists. *)
Theorem convert_to_wav_best_effort (env : Env) (input_path : string) (w : World) :
  ffmpeg_raises_Exceptions env ->
  let r := convert_to_wav env input_path w in
  (exists p, fst r = Ok p /\ (p = input_path \/ p = output_path_of input_path))
  /\ (shutil_which_ffmpeg env (clock w) = None ->
      fst r = Ok input_path /\ fs (snd r) = fs w /\ ffmpeg_events (trace (snd r)) = ffmpeg_events (trace w))
  /\ (forall ff, shutil_which_ffmpeg env (clock w) = Some ff -> ff <> "" ->
      let run := observed_run env ff input_path w in
      (is_Some (ff_spawn_error run) \/ FFMPEG_TIMEOUT < ff_seconds run \/ ff_returncode run <> 0 ->
       fst r = Ok input_path)
      /\ (fst r = Ok (output_path_of input_path)
          <-> ff_spawn_error run = None /\ ff_seconds run <= FFMPEG_TIMEOUT
              /\ ff_returncode run = 0
              /\ is_Some (fs (snd r) !! output_path_of input_path))).
Proof.
  intros Hffmpeg r.
  assert (Hret : exists p, fst r = Ok p /\ (p = input_path \/ p = output_path_of input_path)).
  { destruct (convert_to_wav_returns env input_path w) as [H | (e & He & Hne)]; [exact H|].
    destruct (convert_to_wav_raises env input_path w e He) as (_ & ff & _ & _ & Hsp).
    unfold observed_run in Hsp. rewrite (Hffmpeg _ _ _ _ _ Hsp) in Hne. discriminate. }
  split; [exact Hret|]. split.
  - intros Hw. subst r. rewrite convert_to_wav_no_ffmpeg by auto.
    repeat split.
  - intros ff Hw Hff run.
    pose proof (convert_to_wav_converted_iff env input_path ff w Hw Hff) as Hiff.
    cbv zeta in Hiff. fold run r in Hiff. split; [|exact Hiff].
    intros Hbad. destruct Hret as (p & Hp & [-> | ->]); [exact Hp|].
    destruct (proj1 Hiff Hp) as (Hsp & Hsec & Hrc & _).
    destruct Hbad as [[e He] | [Ht | Hr]]; [congruence | lia | congruence].
Qed.

Lemma convert_to_wav_best_effort_witness :
  fst (convert_to_wav Sample.env_ffmpeg_hangs "/tmp/voice.ogg" Sample.w0) = Ok "/tmp/voice.ogg".
Proof.
  destruct (convert_to_wav_best_effort Sample.env_ffmpeg_hangs "/tmp/voice.ogg" Sample.w0)
    as (_ & _ & H).
  - intros c ff i content e. discriminate.
  - apply (H "/usr/bin/ffmpeg" eq_refl); [discriminate|].
    right. left. vm_compute. reflexivity.
Defined.

(** ** The model registry *)

Section Registry.

Variable env : Env.

Lemma resolve_model_name_unsupported (v : json) :
  in_strs v AVAILABLE_MODELS = false -> resolve_model_name env v = DEFAULT_MODEL env.
Proof.
  intros H. destruct v; try reflexivity.
  unfold resolve_model_name. rewrite H. reflexivity.
Qed.

Lemma resolve_model_name_default :
  resolve_model_name env (JStr (DEFAULT_MODEL env)) = DEFAULT_MODEL env.
Proof.
  unfold resolve_model_name.
  destruct (in_strs (JStr (DEFAULT_MODEL env)) AVAILABLE_MODELS); reflexivity.
Qed.

Lemma in_strs_elem_of (s : string) (strs : list string) :
  in_strs (JStr s) strs = true <-> s ∈ strs.
Proof.
  unfold in_strs. rewrite existsb_exists. split.
  - intros (x & Hx & He). simpl in He. apply String.eqb_eq in He. subst.
    apply list_elem_of_In. exact Hx.
  - intros H. exists s. split; [apply list_elem_of_In; exact H|].
    simpl. apply String.eqb_refl.
Qed.

(** The name under which [get_model] works is a supported one or the
    configured default. *)
Lemma resolve_model_name_range (v : json) :
  resolve_model_name env v ∈ AVAILABLE_MODELS
  \/ resolve_model_name env v = DEFAULT_MODEL env.
Proof.
  destruct v; try (right; reflexivity).
  unfold resolve_model_name.
  destruct (in_strs (JStr s) AVAILABLE_MODELS) eqn:E; [left | right; reflexivity].
  apply in_strs_elem_of. exact E.
Qed.

(** Device detection touches nothing but the trace; it raises only what
    the torch probe raises. *)
Lemma detect_device_runs (w : World) :
  (exists device w1,
     detect_device env w = (Ok device, w1)
     /\ (w1 = w \/ w1 = log_event EvTorch w))
  \/ (exists e,
        detect_device env w = (Raise e, log_event EvTorch w)
        /\ DEVICE env = "auto" /\ torch env (clock w) = TorchRaises e).
Proof.
  unfold detect_device, bind, torch_probe, ret, raise.
  destruct (String.eqb_spec (DEVICE env) "auto") as [Hauto|]; [|left; eauto].
  destruct (torch env (clock w)) as [|[|] [|]|e]; [left; eauto.. | right; eauto].
Qed.

Lemma get_model_runs (v : json) (w : World) : get_model_run env v w (get_model env v w).
Proof.
  unfold get_model.
  destruct (model_cache w !! resolve_model_name env v) as [model|] eqn:Hc.
  - apply run_hit. exact Hc.
  - destruct (detect_device_runs w) as [(device & w1 & Hd & Hw1) | (e & Hd & Hauto & Ht)];
      unfold bind at 1; rewrite Hd.
    + unfold bind, WhisperModel, cache_store, ret.
      destruct (WhisperModel_init env (clock w1) (resolve_model_name env v) device
                  (detect_compute_type env device) (MODELS_DIR env)) as [e|] eqn:Hi.
      * apply (run_fail env v w device w1 e Hc Hw1 Hi).
      * apply (run_load env v w device w1 Hc Hw1 Hi).
    + apply (run_probe_fail env v w e Hc Hauto Ht).
Qed.

(** [get_model] reads its argument only through the resolved name. *)
Lemma get_model_resolve (v1 v2 : json) (w : World) :
  resolve_model_name env v1 = resolve_model_name env v2 ->
  get_model env v1 w = get_model env v2 w.
Proof. intros H. unfold get_model. rewrite H. reflexivity. Qed.

End Registry.

(** C1. An identifier outside [AVAILABLE_MODELS] is not rejected:
    [get_model] runs exactly as on the configured default identifier.  It
    returns the cached default handle when there is one, loads and returns
    the default model when the load succeeds, and the only exceptions that
    can leave it are those of loading the default model: the torch probe's
    or the constructor's. *)
Theorem get_model_unsupported_is_default (env : Env) (v : json) (w : World) :
  in_strs v AVAILABLE_MODELS = false ->
  get_model env v w = get_model env (JStr (DEFAULT_MODEL env)) w
  /\ (forall model, model_cache w !! DEFAULT_MODEL env = Some model ->
      get_model env v w = (Ok model, w))
  /\ (loads env (DEFAULT_MODEL env) ->
      exists model, fst (get_model env v w) = Ok model
                    /\ model_cache (snd (get_model env v w)) !! DEFAULT_MODEL env = Some model)
  /\ (forall e, fst (get_model env v w) = Raise e ->
      (exists c, torch env c = TorchRaises e)
      \/ (exists c device compute_type,
            WhisperModel_init env c (DEFAULT_MODEL env) device compute_type (MODELS_DIR env)
            = Some e)).
Proof.
  intros Hv. pose proof (resolve_model_name_unsupported env v Hv) as Hr.
  split.
  { apply get_model_resolve. rewrite Hr, resolve_model_name_default. reflexivity. }
  pose proof (get_model_runs env v w) as Hrun.
  split; [|split].
  - intros model Hm.
    inversion Hrun as [model' Hc Heq | device w1 Hc Hw1 Hi Heq | e Hc Hauto Ht Heq
                      | device w1 e Hc Hw1 Hi Heq];
      rewrite Hr in Hc; congruence.
  - intros [Htorch Hload].
    inversion Hrun as [model Hc Heq | device w1 Hc Hw1 Hi Heq | e Hc Hauto Ht Heq
                      | device w1 e Hc Hw1 Hi Heq];
      rewrite Hr in *.
    + exists model. simpl. auto.
    + eexists. split; [reflexivity|]. simpl. apply lookup_insert_eq.
    + destruct (Htorch _ _ Ht).
    + rewrite Hload in Hi. discriminate.
  - intros e He.
    inversion Hrun as [model Hc Heq | device w1 Hc Hw1 Hi Heq | e' Hc Hauto Ht Heq
                      | device w1 e' Hc Hw1 Hi Heq];
      rewrite <- Heq in He; simpl in He; try discriminate; injection He as ->.
    + left. eauto.
    + right. rewrite Hr in Hi. eauto.
Qed.

Lemma get_model_unsupported_is_default_witness :
  in_strs (JStr "huge") AVAILABLE_MODELS = false
  /\ get_model Sample.env (JStr "huge") Sample.w0
     = get_model Sample.env (JStr (DEFAULT_MODEL Sample.env)) Sample.w0.
Proof.
  split; [reflexivity|].
  apply (get_model_unsupported_is_default Sample.env (JStr "huge") Sample.w0 eq_refl).
Defined.

(** ** The program logic *)

Section Hoare.

Context {S : Type}.

Lemma hoare_ret {A} (a : A) (Q : A -> S -> Prop) E : hoare (Q a) (ret a) Q E.
Proof. intros s H. exact H. Qed.

Lemma hoare_raise {A} (e : exn) (Q : A -> S -> Prop) E : hoare (E e) (raise e) Q E.
Proof. intros s H. exact H. Qed.

Lemma hoare_bind {A B} (P : S -> Prop) (m : St S A) (R : A -> S -> Prop)
    (k : A -> St S B) (Q : B -> S -> Prop) E :
  hoare P m R E -> (forall a, hoare (R a) (k a) Q E) -> hoare P (bind m k) Q E.
Proof.
  intros Hm Hk s HP. unfold bind. specialize (Hm s HP).
  destruct (m s) as [[a|e] s']; [apply (Hk a s' Hm) | exact Hm].
Qed.

Lemma hoare_conseq {A} (P P' : S -> Prop) (m : St S A) (Q Q' : A -> S -> Prop)
    (E E' : exn -> S -> Prop) :
  hoare P' m Q' E' ->
  (forall s, P s -> P' s) -> (forall a s, Q' a s -> Q a s) -> (forall e s, E' e s -> E e s) ->
  hoare P m Q E.
Proof.
  intros H HP HQ HE s Hs. specialize (H s (HP s Hs)).
  destruct (m s) as [[a|e] s']; auto.
Qed.

Lemma hoare_any {A} (m : St S A) :
  hoare (fun _ => True) m (fun _ _ => True) (fun _ _ => True).
Proof. intros s _. destruct (m s) as [[a|e] s']; exact I. Qed.

Lemma hoare_lift_result {A} (r : result A) (P : S -> Prop) :
  hoare P (lift_result r) (fun a s => P s /\ r = Ok a) (fun e s => P s /\ r = Raise e).
Proof. intros s H. unfold lift_result. destruct r; auto. Qed.

Lemma hoare_with_block {A} (P : S -> Prop) (body : St S A) (exit : St S unit)
    (Q Q' : A -> S -> Prop) (R E : exn -> S -> Prop) :
  hoare P body Q R ->
  (forall a, hoare (Q a) exit (fun _ => Q' a) E) ->
  (forall e, hoare (R e) exit (fun _ => E e) E) ->
  hoare P (with_block body exit) Q' E.
Proof.
  intros Hb Hq Hr s HP. unfold with_block. specialize (Hb s HP).
  destruct (body s) as [[a|e] s'].
  - specialize (Hq a s' Hb). destruct (exit s') as [[u|e'] s'']; exact Hq.
  - specialize (Hr e s' Hb). destruct (exit s') as [[u|e'] s'']; exact Hr.
Qed.

(** Binding a pure result: the continuation runs when it is a value. *)
Lemma hoare_bind_result {A B} (r : result A) (k : A -> St S B) (P : S -> Prop)
    (Q : B -> S -> Prop) (E : exn -> S -> Prop) :
  (forall a, r = Ok a -> hoare P (k a) Q E) ->
  (forall e, r = Raise e -> forall s, P s -> E e s) ->
  hoare P (bind (lift_result r) k) Q E.
Proof.
  intros Hk He s HP. unfold bind, lift_result.
  destruct r as [a|e]; [apply (Hk a eq_refl s HP) | apply (He e eq_refl s HP)].
Qed.

Lemma hoare_try_except {A} (P : S -> Prop) (body : St S A) (handler : exn -> St S A)
    (Q : A -> S -> Prop) (R E : exn -> S -> Prop) :
  hoare P body Q R ->
  (forall e, is_Exception e = true -> hoare (R e) (handler e) Q E) ->
  (forall e s, is_Exception e = false -> R e s -> E e s) ->
  hoare P (try_except body handler) Q E.
Proof.
  intros Hb Hh Hp s HP. unfold try_except. specialize (Hb s HP).
  destruct (body s) as [[a|e] s']; [exact Hb|].
  destruct (is_Exception e) eqn:He; [apply (Hh e He s' Hb) | apply (Hp e s' He Hb)].
Qed.

Lemma stable_snd {A} (I : S -> Prop) (m : St S A) :
  stable I m <-> forall s, I s -> I (snd (m s)).
Proof.
  unfold stable, hoare. split; intros H s Hs; specialize (H s Hs);
    destruct (m s) as [[a|e] s']; exact H.
Qed.

Lemma stable_bind {A B} (I : S -> Prop) (m : St S A) (k : A -> St S B) :
  stable I m -> (forall a, stable I (k a)) -> stable I (bind m k).
Proof. intros Hm Hk. apply (hoare_bind I m (fun _ => I)); assumption. Qed.

Lemma stable_with_block {A} (I : S -> Prop) (body : St S A) (exit : St S unit) :
  stable I body -> stable I exit -> stable I (with_block body exit).
Proof.
  intros Hb He.
  apply (hoare_with_block I body exit (fun _ => I) (fun _ => I) (fun _ => I));
    [exact Hb | intros _; exact He | intros _; exact He].
Qed.

Lemma stable_ret {A} (I : S -> Prop) (a : A) : stable I (ret a).
Proof. intros s H. exact H. Qed.

Lemma stable_raise {A} (I : S -> Prop) (e : exn) : stable (A := A) I (raise e).
Proof. intros s H. exact H. Qed.

Lemma stable_lift_result {A} (I : S -> Prop) (r : result A) : stable I (lift_result r).
Proof. intros s H. unfold lift_result. destruct r; exact H. Qed.

Lemma stable_try_except {A} (I : S -> Prop) (body : St S A) (handler : exn -> St S A) :
  stable I body -> (forall e, stable I (handler e)) -> stable I (try_except body handler).
Proof.
  intros Hb Hh.
  apply (hoare_try_except I body handler _ (fun _ => I));
    [exact Hb | intros e _; apply Hh | intros e s _ H; exact H].
Qed.

End Hoare.

(** A property of the world that [m] keeps is kept by [lift m], together
    with the handler's locals. *)
Lemma hoare_lift {A} (m : M A) (P : World -> Prop) (Q : A -> World -> Prop)
    (E : exn -> World -> Prop) (t c : option string) :
  hoare P m Q E ->
  hoare (fun fr => P (world fr) /\ tmp_path fr = t /\ converted_path fr = c)
    (lift m)
    (fun a fr => Q a (world fr) /\ tmp_path fr = t /\ converted_path fr = c)
    (fun e fr => E e (world fr) /\ tmp_path fr = t /\ converted_path fr = c).
Proof.
  intros H fr (HP & Ht & Hc). unfold lift. specialize (H (world fr) HP).
  destruct (m (world fr)) as [[a|e] w']; simpl; auto.
Qed.

Lemma stable_lift {A} (m : M A) (I : World -> Prop) :
  stable I m -> stable (fun fr => I (world fr)) (lift m).
Proof.
  intros H fr HI. unfold lift. specialize (H (world fr) HI).
  destruct (m (world fr)) as [[a|e] w']; simpl; exact H.
Qed.

(** ** What the collaborator calls leave untouched *)

Ltac prim_stable :=
  let w := fresh "w" in let H := fresh "H" in
  apply stable_snd; intros w H;
  unfold on_registry, on_fs in *; cbv zeta;
  repeat match goal with
         | |- context [match ?x with _ => _ end] => destruct x
         | |- context [if ?x then _ else _] => destruct x
         end;
  exact H.

Section Collaborators.

Variable env : Env.
Variable R : gmap string Handle -> option string -> Prop.

Lemma shutil_which_registry : stable (on_registry R) (shutil_which env).
Proof. unfold shutil_which. prim_stable. Qed.

Lemma subprocess_run_registry ff i o : stable (on_registry R) (subprocess_run env ff i o).
Proof. unfold subprocess_run. prim_stable. Qed.

Lemma os_path_exists_registry p : stable (on_registry R) (os_path_exists p).
Proof. unfold os_path_exists. prim_stable. Qed.

Lemma stderr_decode_registry run : stable (on_registry R) (stderr_decode run).
Proof. unfold stderr_decode, ret, raise. prim_stable. Qed.

Lemma model_transcribe_registry h p l : stable (on_registry R) (model_transcribe env h p l).
Proof. unfold model_transcribe. prim_stable. Qed.

Lemma NamedTemporaryFile_registry sfx : stable (on_registry R) (NamedTemporaryFile env sfx).
Proof. unfold NamedTemporaryFile. prim_stable. Qed.

Lemma file_write_registry p d : stable (on_registry R) (file_write env p d).
Proof. unfold file_write. prim_stable. Qed.

Lemma file_close_registry p : stable (on_registry R) (file_close env p).
Proof. unfold file_close. prim_stable. Qed.

Lemma unlink_registry p : stable (on_registry R) (unlink env p).
Proof. unfold unlink. prim_stable. Qed.

Lemma convert_to_wav_registry p : stable (on_registry R) (convert_to_wav env p).
Proof.
  unfold convert_to_wav. apply stable_bind; [apply shutil_which_registry|].
  intros [[|c ff]|]; try apply stable_ret.
  apply stable_try_except; [|intros e; apply stable_ret].
  apply stable_bind; [apply subprocess_run_registry|]. intros run.
  apply stable_bind; [apply os_path_exists_registry|]. intros present.
  destruct (_ && _); [apply stable_ret|].
  apply stable_bind; [apply stderr_decode_registry | intros _; apply stable_ret].
Qed.

End Collaborators.

(** ** The registry invariant *)

Section RegistryInvariant.

Variable env : Env.

Lemma get_model_registry_inv (v : json) : stable (registry_inv env) (get_model env v).
Proof.
  apply stable_snd. intros w H.
  destruct (get_model_runs env v w) as [model Hc | device w1 Hc Hw1 Hi | e Hc Hauto Ht | device w1 e Hc Hw1 Hi].
  - exact H.
  - unfold registry_inv, on_registry. simpl. intros n [= <-]. split.
    + apply resolve_model_name_range.
    + rewrite lookup_insert_eq. eauto.
  - exact H.
  - destruct Hw1; subst; exact H.
Qed.

(** The handler body touches the registry only through [get_model]. *)
Lemma transcribe_try_registry (R : gmap string Handle -> option string -> Prop)
    (audio_data model_name language file_format : json) :
  stable (on_registry R) (get_model env model_name) ->
  stable (fun fr => on_registry R (world fr))
    (transcribe_try env audio_data model_name language file_format).
Proof.
  intros Hg. unfold transcribe_try.
  apply stable_bind; [apply stable_lift_result|]. intros audio_bytes.
  apply stable_bind; [apply stable_lift, NamedTemporaryFile_registry|]. intros tmp_file.
  apply stable_bind.
  { apply stable_with_block; [|apply stable_lift, file_close_registry].
    apply stable_bind; [apply stable_lift, file_write_registry|]. intros _.
    intros fr H; exact H. }
  intros _.
  apply stable_bind; [apply stable_lift_result|]. intros convert.
  apply stable_bind.
  { destruct convert; [|apply stable_ret].
    apply stable_bind; [apply stable_lift, convert_to_wav_registry|]. intros converted.
    apply stable_bind; [intros fr H; exact H|]. intros _. apply stable_ret. }
  intros audio_path.
  apply stable_bind; [apply stable_lift, Hg|]. intros whisper_model.
  apply stable_bind; [apply stable_lift, model_transcribe_registry|].
  intros [segments_list info]. apply stable_lift_result.
Qed.

Lemma cleanup_registry (R : gmap string Handle -> option string -> Prop) (fr : Frame) :
  on_registry R (world fr) -> on_registry R (cleanup env fr).
Proof.
  intros H. unfold cleanup, unlink_quietly.
  assert (Hu : forall p w, on_registry R w -> on_registry R (snd (unlink env p w))).
  { intros p. apply stable_snd, unlink_registry. }
  destruct (tmp_path fr) as [p|], (converted_path fr) as [c|];
    repeat match goal with |- context [if ?b then _ else _] => destruct b end;
    auto.
Qed.

Lemma transcribe_registry (R : gmap string Handle -> option string -> Prop)
    (request : Request) (w : World) :
  (forall v, stable (on_registry R) (get_model env v)) ->
  on_registry R w -> on_registry R (snd (transcribe env request w)).
Proof.
  intros Hg H. unfold transcribe.
  destruct (negb (truthy (get request "audio"))); [exact H|].
  unfold transcribe_protected.
  match goal with |- context [transcribe_try env ?a ?m ?l ?f ?fr] =>
    pose proof (proj1 (stable_snd _ _) (transcribe_try_registry R a m l f (Hg m)) fr H) as Ht;
    destruct (transcribe_try env a m l f fr) as [[response|e] fr']
  end; simpl in *; apply cleanup_registry; exact Ht.
Qed.

Lemma startup_event_registry_inv (w : World) :
  registry_inv env w -> registry_inv env (snd (startup_event env w)).
Proof.
  apply stable_snd. unfold startup_event.
  apply stable_try_except; [|intros e; apply stable_ret].
  apply stable_bind; [apply get_model_registry_inv | intros _; apply stable_ret].
Qed.

Lemma reachable_registry_inv (w : World) : reachable env w -> registry_inv env w.
Proof.
  induction 1 as [files | w Hw IH | w v Hw IH | w request Hw IH | w files Hw IH].
  - intros n [=].
  - apply startup_event_registry_inv, IH.
  - apply (proj1 (stable_snd _ _) (get_model_registry_inv v)), IH.
  - apply transcribe_registry; [intros v; apply get_model_registry_inv | exact IH].
  - exact IH.
Qed.

End RegistryInvariant.

(** C9, as stated, fails: started with a default model outside
    [AVAILABLE_MODELS], the server's own startup makes that model the
    current one. *)
Lemma registry_inv_supported_fails :
  reachable Sample.env_turbo (snd (startup_event Sample.env_turbo Sample.w0))
  /\ ~ registry_inv_supported (snd (startup_event Sample.env_turbo Sample.w0)).
Proof.
  split; [apply reach_startup, reach_boot|].
  intros H. destruct (H "large-v3-turbo" eq_refl) as [Hin _].
  revert Hin. apply (bool_decide_eq_false_1 _). vm_compute. reflexivity.
Qed.

(** C9, amended.  In every state the server reaches, a non-null
    [current_model_name] is a supported name or the configured default (so
    a supported name whenever the default is one) and a key of
    [model_cache].  [get_model] leaves the world as it is on a cache hit,
    makes the loaded name current on a fresh load, and leaves the registry
    as it is when the load fails; [/health] reports
    [current_model_name]. *)
Theorem registry_invariant (env : Env) (w : World) (v : json) :
  reachable env w ->
  registry_inv env w
  /\ (DEFAULT_MODEL env ∈ AVAILABLE_MODELS -> registry_inv_supported w)
  /\ (is_Some (model_cache w !! resolve_model_name env v) ->
      snd (get_model env v w) = w)
  /\ (model_cache w !! resolve_model_name env v = None ->
      forall model, fst (get_model env v w) = Ok model ->
        current_model_name (snd (get_model env v w)) = Some (resolve_model_name env v)
        /\ model_cache (snd (get_model env v w)) !! resolve_model_name env v = Some model)
  /\ (forall e, fst (get_model env v w) = Raise e ->
        current_model_name (snd (get_model env v w)) = current_model_name w
        /\ model_cache (snd (get_model env v w)) = model_cache w)
  /\ current_model (health (snd (get_model env v w)))
     = current_model_name (snd (get_model env v w)).
Proof.
  intros Hreach. pose proof (reachable_registry_inv env w Hreach) as Hinv.
  split; [exact Hinv|]. split.
  { intros Hd n Hn. destruct (Hinv n Hn) as [[Hin | ->] Hc]; auto. }
  pose proof (get_model_runs env v w) as Hrun.
  split; [|split; [|split; [|reflexivity]]].
  - intros [model Hm].
    inversion Hrun as [model' Hc Heq | device w1 Hc Hw1 Hi Heq | e Hc Hauto Ht Heq | device w1 e Hc Hw1 Hi Heq];
      [reflexivity | congruence..].
  - intros Hnone model Hok.
    inversion Hrun as [model' Hc Heq | device w1 Hc Hw1 Hi Heq | e Hc Hauto Ht Heq | device w1 e Hc Hw1 Hi Heq];
      rewrite <- Heq in Hok; simpl in Hok; [congruence | | discriminate..].
    injection Hok as <-. simpl. split; [reflexivity | apply lookup_insert_eq].
  - intros e He.
    inversion Hrun as [model' Hc Heq | device w1 Hc Hw1 Hi Heq | e' Hc Hauto Ht Heq | device w1 e' Hc Hw1 Hi Heq];
      rewrite <- Heq in He; simpl in He; try discriminate; simpl; [auto|].
    destruct Hw1; subst; auto.
Qed.

Lemma registry_invariant_witness :
  reachable Sample.env (snd (startup_event Sample.env Sample.w0))
  /\ registry_inv Sample.env (snd (startup_event Sample.env Sample.w0)).
Proof.
  assert (H : reachable Sample.env (snd (startup_event Sample.env Sample.w0)))
    by apply reach_startup, reach_boot.
  split; [exact H|].
  apply (registry_invariant Sample.env _ (JStr "tiny") H).
Defined.

(** [/health] names the model loaded last, not the one used last: after
    loading [base] and [tiny], a request for [base] is served from the
    cache and [tiny] stays current. *)
Example health_reports_last_loaded :
  let w1 := snd (get_model Sample.env (JStr "base") Sample.w0) in
  let w2 := snd (get_model Sample.env (JStr "tiny") w1) in
  let w3 := snd (get_model Sample.env (JStr "base") w2) in
  current_model (health w1) = Some "base"
  /\ current_model (health w2) = Some "tiny"
  /\ current_model (health w3) = Some "tiny".
Proof. vm_compute. auto. Qed.

(** ** Client errors *)

Section ClientErrors.

Variable env : Env.

(** Whatever the decoding of the payload raises is an [Exception]. *)
Lemma a2b_loop_raises (data : list Z) (quad_pos leftchar pads ndata : Z) (acc : list Z)
    (e : exn) :
  Base64.a2b_loop data quad_pos leftchar pads ndata acc = Raise e -> is_Exception e = true.
Proof.
  revert quad_pos leftchar pads ndata acc.
  induction data as [|this_ch rest IH]; intros quad_pos leftchar pads ndata acc; simpl.
  - repeat match goal with |- context [if ?b then _ else _] => destruct b end;
      intros [= <-]; reflexivity.
  - repeat match goal with
           | |- context [if ?b then _ else _] => destruct b
           | |- context [match Base64.table_a2b_base64 ?c with _ => _ end] =>
               destruct (Base64.table_a2b_base64 c)
           end;
      try apply IH; discriminate.
Qed.

Lemma decode_audio_raises (audio_data : json) (e : exn) :
  decode_audio audio_data = Raise e -> is_Exception e = true.
Proof.
  unfold decode_audio.
  destruct (strip_data_url audio_data) as [payload|e'] eqn:Hs.
  - unfold Base64.b64decode, Base64.encode_ascii, Base64.a2b_base64.
    destruct (forallb _ _); [apply a2b_loop_raises | intros [= <-]; reflexivity].
  - intros [= <-]. unfold strip_data_url in Hs.
    destruct audio_data as [| b | z | f | s | items | fields];
      repeat match type of Hs with
             | context [if ?b then _ else _] => destruct b
             | context [match ?l !! ?i with _ => _ end] => destruct (l !! i)
             end;
      first [discriminate | injection Hs as <-; reflexivity].
Qed.

Lemma transcribe_falsy_audio (request : Request) (w : World) :
  truthy (get request "audio") = false ->
  transcribe env request w = (HTTPException 400 (DetailStr "No audio data provided"), w).
Proof. intros H. unfold transcribe. rewrite H. reflexivity. Qed.

(** When decoding fails the handler answers 500 before any file exists;
    the [finally] block finds nothing to delete. *)
Lemma transcribe_protected_decode_error (audio_data model_name language file_format : json)
    (w : World) (e : exn) :
  decode_audio audio_data = Raise e ->
  transcribe_protected env audio_data model_name language file_format w
  = (HTTPException 500 (DetailOfExn e), mkFrame w None None).
Proof.
  intros H. unfold transcribe_protected, transcribe_try. unfold bind at 1.
  unfold lift_result. rewrite H. unfold except_Exception.
  rewrite (decode_audio_raises _ _ H). reflexivity.
Qed.

Lemma transcribe_decode_error (request : Request) (w : World) (e : exn) :
  truthy (get request "audio") = true ->
  decode_audio (get request "audio") = Raise e ->
  transcribe env request w = (HTTPException 500 (DetailOfExn e), w).
Proof.
  intros Ht Hd. unfold transcribe. rewrite Ht. cbn [negb].
  rewrite (transcribe_protected_decode_error _ _ _ _ w e Hd). reflexivity.
Qed.

(** The engine call behind a value returned by [model_transcribe]. *)
Lemma model_transcribe_ok (h : Handle) (audio_path : string) (lang : json) (w w' : World)
    (segments_list : list Segment) (info : Info) :
  model_transcribe env h audio_path lang w = (Ok (segments_list, info), w') ->
  engine env (clock w) h audio_path (fs w !! audio_path) lang
  = EngineYields segments_list None info.
Proof.
  unfold model_transcribe.
  destruct (engine env (clock w) h audio_path (fs w !! audio_path) lang)
    as [e | segs [e|] i]; intros [=]. subst. reflexivity.
Qed.

(** A response returned by the body of the [try] block is a
    [JSONResponse] assembled from what one engine call yielded. *)
Lemma transcribe_try_response (audio_data model_name lang file_format : json) :
  hoare (fun _ => True)
    (transcribe_try env audio_data model_name lang file_format)
    (fun response _ => assembled_from env lang response)
    (fun _ _ => True).
Proof.
  unfold transcribe_try.
  do 6 (eapply hoare_bind; [apply hoare_any | intros ?]).
  eapply hoare_bind with
    (R := fun tr _ => exists c h p content,
            engine env c h p content lang = EngineYields (fst tr) None (snd tr)).
  - intros fr _. unfold lift.
    destruct (model_transcribe env _ _ lang (world fr)) as [[[segs info]|e] w'] eqn:Hm;
      simpl; [|exact I].
    apply model_transcribe_ok in Hm. eauto.
  - intros [segs info] fr (c & h & p & content & He). unfold lift_result, JSONResponse_init.
    cbn [fst snd language_probability duration] in *.
    destruct (json_compliant (info_language_probability info)) eqn:Hp; cbn [negb]; [|exact I].
    destruct (json_compliant (info_duration info)) eqn:Hd; cbn [negb]; [|exact I].
    exists c, h, p, content, segs, info. auto.
Qed.

(** Past the 400 guard the handler answers 200, with such a response, or
    500. *)
Lemma transcribe_protected_response (audio_data model_name lang file_format : json) (w : World) :
  match fst (transcribe_protected env audio_data model_name lang file_format w) with
  | JSONResponse content => assembled_from env lang (JSONResponse content)
  | HTTPException status_code _ => status_code = 500
  | Uncaught e => is_Exception e = false
  end.
Proof.
  unfold transcribe_protected.
  pose proof (transcribe_try_response audio_data model_name lang file_format
                (mkFrame w None None) I) as H.
  destruct (transcribe_try env audio_data model_name lang file_format _) as [[response|e] fr];
    simpl.
  - destruct H as (c & h & p & content & segs & info & He & Hp & Hd & ->). simpl.
    exists c, h, p, content, segs, info. auto.
  - unfold except_Exception. destruct (is_Exception e) eqn:He; [reflexivity | exact He].
Qed.

End ClientErrors.

(** C4, as stated, fails for a value that is not valid base64: the decoder's
    error is raised inside the [try] block and answered with 500. *)
Lemma invalid_base64_is_not_400 :
  Base64.b64decode "abc" = Raise BinasciiIncorrectPadding
  /\ transcribe Sample.env (<["audio" := JStr "abc"]> ∅) Sample.w0
     = (HTTPException 500 (DetailOfExn BinasciiIncorrectPadding), Sample.w0).
Proof. split; reflexivity. Qed.

(** The decoder is lenient: characters outside the base64 alphabet are
    discarded, so a value that is not valid base64 may well decode, and the
    request is then served like any other. *)
Example lenient_base64_is_decoded :
  decode_audio (JStr "!!!!") = Ok []
  /\ decode_audio (JStr "aGVs*bG8=") = Ok [104; 101; 108; 108; 111]
  /\ is_ok_response
       (fst (transcribe Sample.env (<["audio" := JStr "!!!!"]> Sample.req_wav) Sample.w0))
     = true.
Proof. repeat split; vm_compute; reflexivity. Qed.

(** C4, amended.  A request whose [audio] field is absent (or holds a
    value that counts as false) is answered with HTTP 400 and the detail
    ["No audio data provided"], and only such a request is answered with
    400; a value on which decoding raises is answered with HTTP 500
    carrying the decoder's error, before any file is created; every
    [HTTPException] of the handler is one of these two, the 400 of such a
    request or a 500. *)
Theorem missing_audio_is_400 (env : Env) (request : Request) (w : World) :
  (request !! "audio" = None \/ truthy (get request "audio") = false ->
   transcribe env request w = (HTTPException 400 (DetailStr "No audio data provided"), w))
  /\ (forall e, truthy (get request "audio") = true ->
      decode_audio (get request "audio") = Raise e ->
      transcribe env request w = (HTTPException 500 (DetailOfExn e), w))
  /\ (forall status_code detail,
      fst (transcribe env request w) = HTTPException status_code detail ->
      (status_code = 400 /\ detail = DetailStr "No audio data provided"
       /\ truthy (get request "audio") = false)
      \/ (status_code = 500 /\ truthy (get request "audio") = true)).
Proof.
  split; [|split].
  - intros H. apply transcribe_falsy_audio.
    destruct H as [H | H]; [|exact H]. unfold get. rewrite H. reflexivity.
  - intros e. apply transcribe_decode_error.
  - intros status_code detail. unfold transcribe.
    destruct (truthy (get request "audio")) eqn:Ht; cbn [negb].
    + pose proof (transcribe_protected_response env (get request "audio")
                    (get_default request "model" (JStr (DEFAULT_MODEL env)))
                    (language_hint request)
                    (get_default request "format" (JStr "ogg")) w) as H.
      fold (language_hint request).
      destruct (transcribe_protected env _ _ _ _ w) as [[content|sc d|e] fr];
        simpl in *; [discriminate | | discriminate].
      intros [= <- <-]. right. auto.
    + simpl. intros [= <- <-]. left. auto.
Qed.

(** C10. An [audio] field holding the empty string is handled exactly as
    an absent one: HTTP 400 with ["No audio data provided"], and the world
    is left as it was, so no temporary file is created. *)
Theorem empty_audio_as_absent (env : Env) (request : Request) (w : World) :
  transcribe env (<["audio" := JStr ""]> request) w
  = transcribe env (delete "audio" request) w
  /\ transcribe env (<["audio" := JStr ""]> request) w
     = (HTTPException 400 (DetailStr "No audio data provided"), w).
Proof.
  assert (H1 : transcribe env (<["audio" := JStr ""]> request) w
               = (HTTPException 400 (DetailStr "No audio data provided"), w)).
  { apply transcribe_falsy_audio. unfold get. rewrite lookup_insert_eq. reflexivity. }
  assert (H2 : transcribe env (delete "audio" request) w
               = (HTTPException 400 (DetailStr "No audio data provided"), w)).
  { apply transcribe_falsy_audio. unfold get. rewrite lookup_delete_eq. reflexivity. }
  rewrite H1, H2. auto.
Qed.

(** ** Trimming and joining *)

Section Trimming.

Lemma append_assoc (a b c : string) : (a +:+ b) +:+ c = a +:+ (b +:+ c).
Proof.
  induction a as [|x a IH]; [reflexivity|].
  exact (f_equal (String x) IH).
Qed.

Lemma append_empty_r (a : string) : a +:+ "" = a.
Proof.
  induction a as [|x a IH]; [reflexivity|].
  exact (f_equal (String x) IH).
Qed.

(** [lstrip] removes a run of whitespace from the front and nothing else. *)
Lemma lstrip_spec (s : string) :
  exists l, s = l +:+ PyStr.lstrip s /\ PyStr.all_space l = true
            /\ starts_with_space (PyStr.lstrip s) = false.
Proof.
  induction s as [|c s IH]; simpl.
  - exists "". auto.
  - destruct (PyStr.isspace c) eqn:Ec.
    + destruct IH as (l & Hs & Hl & Hh). exists (String c l). simpl.
      rewrite Ec, Hl. split; [exact (f_equal (String c) Hs) | auto].
    + exists "". simpl. auto.
Qed.

Lemma all_space_ends (s : string) :
  PyStr.all_space s = false -> exists c s', s = String c s'.
Proof. destruct s as [|c s']; [discriminate | eauto]. Qed.

(** [rstrip] removes a run of whitespace from the back and nothing else. *)
Lemma rstrip_spec (s : string) :
  exists r, s = PyStr.rstrip s +:+ r /\ PyStr.all_space r = true
            /\ ends_with_space (PyStr.rstrip s) = false.
Proof.
  induction s as [|c s IH].
  - exists "". auto.
  - cbn [PyStr.rstrip]. destruct (PyStr.all_space (String c s)) eqn:Ea.
    + exists (String c s). auto.
    + destruct IH as (r & Hs & Hr & He). exists r.
      split; [exact (f_equal (String c) Hs) | split; [exact Hr|]].
      cbn [ends_with_space]. destruct (PyStr.rstrip s) as [|d t] eqn:Et; [|exact He].
      cbn [PyStr.all_space] in Ea. destruct (PyStr.isspace c); [|reflexivity].
      cbn [andb] in Ea. change ("" +:+ r) with r in Hs. subst s. congruence.
Qed.

Lemma rstrip_head (s : string) :
  starts_with_space s = false -> starts_with_space (PyStr.rstrip s) = false.
Proof.
  destruct s as [|c s]; [auto|]. cbn [PyStr.rstrip].
  destruct (PyStr.all_space (String c s)); auto.
Qed.

(** [strip] cuts whitespace, and only whitespace, from both ends. *)
Lemma strip_spec (s : string) :
  exists l r, s = l +:+ PyStr.strip s +:+ r
              /\ PyStr.all_space l = true /\ PyStr.all_space r = true
              /\ starts_with_space (PyStr.strip s) = false
              /\ ends_with_space (PyStr.strip s) = false.
Proof.
  unfold PyStr.strip.
  destruct (lstrip_spec s) as (l & Hs & Hl & Hh).
  destruct (rstrip_spec (PyStr.lstrip s)) as (r & Ht & Hr & He).
  exists l, r. repeat split; auto.
  - rewrite <- Ht. exact Hs.
  - apply rstrip_head, Hh.
Qed.

Lemma fold_left_append (acc : string) (others : list Segment) :
  fold_left (fun acc segment => acc +:+ " " +:+ PyStr.strip (seg_text segment)) others acc
  = acc +:+ fold_left (fun acc segment => acc +:+ " " +:+ PyStr.strip (seg_text segment)) others "".
Proof.
  revert acc. induction others as [|x others IH]; intros acc; simpl.
  - symmetry. apply append_empty_r.
  - rewrite (IH (acc +:+ " " +:+ PyStr.strip (seg_text x))).
    rewrite (IH ("" +:+ " " +:+ PyStr.strip (seg_text x))).
    rewrite !append_assoc. reflexivity.
Qed.

(** The text the handler builds with [" ".join] is the merged text of the
    specification. *)
Lemma full_text_of_merged (segments_list : list Segment) :
  full_text_of segments_list = merged_text segments_list.
Proof.
  unfold full_text_of, merged_text.
  destruct segments_list as [|first others]; [reflexivity|].
  revert first. induction others as [|x others IH]; intros first; [reflexivity|].
  cbn [map PyStr.join fold_left] in *. rewrite (IH x).
  rewrite (fold_left_append (PyStr.strip (seg_text first) +:+ " " +:+ PyStr.strip (seg_text x))).
  rewrite (fold_left_append (PyStr.strip (seg_text x))).
  rewrite !append_assoc. reflexivity.
Qed.

End Trimming.

(** ** Calls that are not the engine's *)

Section Quiet.

Variable env : Env.

Lemma NamedTemporaryFile_quiet (sfx : string) : quiet (NamedTemporaryFile env sfx).
Proof.
  intros w. exists [EvMkTemp sfx]. split; [reflexivity|]. unfold NamedTemporaryFile.
  destruct (mkstemp env (clock w) sfx); reflexivity.
Qed.

Lemma file_write_quiet (p : string) (d : bytes) : quiet (file_write env p d).
Proof.
  intros w. exists [EvWrite p]. split; [reflexivity|]. unfold file_write.
  destruct (tmp_file_write env (clock w) p d); reflexivity.
Qed.

Lemma file_close_quiet (p : string) : quiet (file_close env p).
Proof.
  intros w. exists [EvClose p]. split; [reflexivity|]. unfold file_close.
  destruct (tmp_file_close env (clock w) p); reflexivity.
Qed.

Lemma unlink_quiet (p : string) : quiet (unlink env p).
Proof.
  intros w. exists [EvUnlink p]. split; [reflexivity|]. unfold unlink.
  destruct (fs w !! p); [destruct (os_unlink env (clock w) p)|]; reflexivity.
Qed.

Lemma get_model_quiet (v : json) : quiet (get_model env v).
Proof.
  intros w.
  destruct (get_model_runs env v w) as [model Hc | device w1 Hc Hw1 Hi | e Hc Hauto Ht
                                       | device w1 e Hc Hw1 Hi]; simpl.
  - exists []. auto.
  - destruct Hw1 as [-> | ->]; [eexists [_] | eexists [_; _]];
      (split; [|reflexivity]); reflexivity.
  - exists [EvTorch]. auto.
  - destruct Hw1 as [-> | ->]; [eexists [_] | eexists [_; _]];
      (split; [|reflexivity]); reflexivity.
Qed.

Lemma convert_to_wav_quiet (p : string) : quiet (convert_to_wav env p).
Proof.
  intros w.
  unfold convert_to_wav, bind, shutil_which, try_except, subprocess_run,
    os_path_exists, stderr_decode, ret, raise.
  destruct (shutil_which_ffmpeg env (clock w)) as [[|ch ff]|];
    [exists [EvWhich]; auto | | exists [EvWhich]; auto].
  exists [EvFfmpeg (String ch ff) p (output_path_of p); EvWhich]. split; [reflexivity|].
  destruct (ffmpeg env _ (String ch ff) p _) as [sp secs rc dec wr].
  ff_simpl.
  destruct sp as [e|]; ff_simpl; [destruct (is_Exception e); reflexivity|].
  destruct (FFMPEG_TIMEOUT <? secs); ff_simpl; [destruct wr; reflexivity|].
  destruct (rc =? 0); ff_simpl.
  - match goal with |- context [bool_decide ?P] => destruct (bool_decide P) end; ff_simpl.
    + destruct wr; reflexivity.
    + destruct dec; ff_simpl; destruct wr; reflexivity.
  - destruct dec; ff_simpl; destruct wr; reflexivity.
Qed.

(** The [finally] block logs its [os.unlink] calls and nothing else. *)
Lemma cleanup_quiet (fr : Frame) :
  exists evs,
    forallb (fun ev => negb (is_engine_call ev)) evs = true
    /\ trace (cleanup env fr) = (evs ++ trace (world fr))%list.
Proof.
  assert (Hu : forall p w0, exists evs,
             forallb (fun ev => negb (is_engine_call ev)) evs = true
             /\ trace (unlink_quietly env p w0) = (evs ++ trace w0)%list).
  { intros p w0. apply unlink_quiet. }
  unfold cleanup.
  destruct (tmp_path fr) as [p|];
    [destruct (path_truthy (Some p));
       [destruct (Hu p (world fr)) as (evs1 & H1 & Ht1) | ] | ];
    (destruct (converted_path fr) as [c|];
     [match goal with |- context [if ?b then _ else _] => destruct b end|]);
    try match goal with |- context [unlink_quietly env c ?w0] =>
          destruct (Hu c w0) as (evs2 & H2 & Ht2)
        end;
    try (exists (evs2 ++ evs1)%list; rewrite Ht2, Ht1, app_assoc, forallb_app, H1, H2;
         split; reflexivity);
    try (exists evs1; split; assumption);
    try (exists evs2; split; assumption);
    exists []; split; reflexivity.
Qed.

End Quiet.

(** ** The call of the engine *)

(** Where a run of ffmpeg raises nothing but [Exception]s,
    [convert_to_wav] does not raise. *)
Lemma convert_to_wav_no_raise (env : Env) (p : string) :
  ffmpeg_raises_Exceptions env -> no_raise (convert_to_wav env p).
Proof.
  intros Hffmpeg w0 _.
  destruct (convert_to_wav env p w0) as [[a|e] w'] eqn:Hc; [exact I|].
  destruct (convert_to_wav_raises env p w0 e) as (Hne & ff & _ & _ & Hsp);
    [rewrite Hc; reflexivity|].
  unfold observed_run in Hsp.
  rewrite (Hffmpeg _ _ _ _ _ Hsp) in Hne. discriminate.
Qed.

Section EngineCall.

Variable env : Env.
Hypothesis Hworks : collaborators_succeed env.
Variable w : World.
Variable lang : json.

Lemma no_raise_lift {A} (m : M A) : no_raise m -> no_raise (lift m).
Proof.
  intros H fr _. unfold lift. specialize (H (world fr) I).
  destruct (m (world fr)) as [[a|e] w']; simpl; exact H.
Qed.

Lemma NamedTemporaryFile_no_raise (sfx : string) : no_raise (NamedTemporaryFile env sfx).
Proof.
  intros w0 _. unfold NamedTemporaryFile.
  pose proof (proj1 Hworks (clock w0) sfx) as H.
  destruct (mkstemp env (clock w0) sfx); [exact I | discriminate].
Qed.

Lemma file_write_no_raise (p : string) (d : bytes) : no_raise (file_write env p d).
Proof.
  intros w0 _. unfold file_write.
  rewrite (proj1 (proj2 Hworks)). exact I.
Qed.

Lemma file_close_no_raise (p : string) : no_raise (file_close env p).
Proof.
  intros w0 _. unfold file_close.
  rewrite (proj1 (proj2 (proj2 Hworks))). exact I.
Qed.

Lemma get_model_no_raise (v : json) : no_raise (get_model env v).
Proof.
  intros w0 _.
  destruct (get_model_runs env v w0) as [model Hc | device w1 Hc Hw1 Hi | e Hc Hauto Ht | device w1 e Hc Hw1 Hi];
    try exact I.
  - destruct (proj1 (proj2 (proj2 (proj2 (proj2 Hworks)))) _ _ Ht).
  - rewrite (proj1 (proj2 (proj2 (proj2 Hworks)))) in Hi. discriminate.
Qed.

(** Binding a computation that does not raise. *)
Lemma hoare_bind_total {S A B} (P : S -> Prop) (m : St S A) (k : A -> St S B)
    (R : A -> S -> Prop) (Q : B -> S -> Prop) (E : exn -> S -> Prop) :
  hoare P m R (fun _ _ => False) -> (forall a, hoare (R a) (k a) Q E) ->
  hoare P (bind m k) Q E.
Proof.
  intros Hm Hk s HP. unfold bind. specialize (Hm s HP).
  destruct (m s) as [[a|e] s']; [apply (Hk a s' Hm) | destruct Hm].
Qed.

(** No call of the engine has been logged since [w]. *)
Local Abbreviation before_engine :=
  (fun fr : Frame => events_sat (fun ev => is_engine_call ev = false) (trace w) (world fr)).

(** The engine has been called and the request ends with [response]. *)
Local Abbreviation called :=
  (fun (response : Response) (fr : Frame) =>
     exists evs outcome,
       trace (world fr) = (evs ++ trace w)%list
       /\ engine_called env w evs lang outcome
       /\ response = response_to outcome).

Lemma quiet_before_engine {A} (m : M A) :
  quiet m -> no_raise m ->
  hoare before_engine (lift m) (fun _ => before_engine) (fun _ _ => False).
Proof.
  intros Hq Hn fr (evs & Ht & Hall). unfold lift. specialize (Hn (world fr) I).
  destruct (Hq (world fr)) as (evs' & Hevs' & Ht').
  destruct (m (world fr)) as [[a|e] w'] eqn:Hm; cbn [fst snd world] in *; [|contradiction].
  exists (evs' ++ evs)%list. rewrite Ht', Ht, app_assoc. split; [reflexivity|].
  apply Forall_app. split; [|exact Hall].
  apply Forall_forall. intros ev Hin. rewrite forallb_forall in Hevs'.
  apply list_elem_of_In in Hin. specialize (Hevs' ev Hin).
  destruct (is_engine_call ev); [discriminate | reflexivity].
Qed.

(** The call of the engine: what it yields goes on to the response; what
    it raises ends the [try] block. *)
Lemma model_transcribe_called (h : Handle) (audio_path : string) :
  hoare before_engine (lift (model_transcribe env h audio_path lang))
    (fun tr fr =>
       exists evs outcome,
         trace (world fr) = (evs ++ trace w)%list
         /\ engine_called env w evs lang outcome
         /\ outcome = EngineYields (fst tr) None (snd tr))
    (fun e => called (except_Exception e)).
Proof.
  intros fr (evs & Ht & _). unfold lift, model_transcribe.
  assert (Hcalled : engine_called env w
                      (EvEngine h audio_path (fs (world fr) !! audio_path) lang :: evs) lang
                      (engine env (clock (world fr)) h audio_path
                         (fs (world fr) !! audio_path) lang)).
  { exists [], evs, h, audio_path, (fs (world fr) !! audio_path).
    split; [reflexivity|]. unfold clock. rewrite Ht. reflexivity. }
  destruct (engine env (clock (world fr)) h audio_path (fs (world fr) !! audio_path) lang)
    as [e | segs [e|] info] eqn:He; cbn [fst snd world log_event trace];
    exists (EvEngine h audio_path (fs (world fr) !! audio_path) lang :: evs); eexists;
    (split; [rewrite Ht; reflexivity|]); (split; [exact Hcalled|]); reflexivity.
Qed.

(** When the collaborators before the engine succeed, the [try] block
    comes to the call of the engine, and ends as that call decides. *)
Lemma transcribe_try_called (audio_data model_name : json) (file_format : string)
    (audio_bytes : bytes) :
  decode_audio audio_data = Ok audio_bytes ->
  hoare before_engine
    (transcribe_try env audio_data model_name lang (JStr file_format))
    called
    (fun e => called (except_Exception e)).
Proof.
  intros Hdecode. unfold transcribe_try.
  eapply hoare_bind with (R := fun _ => before_engine).
  { intros fr H. unfold lift_result. rewrite Hdecode. exact H. }
  intros bytes'.
  eapply hoare_bind_total;
    [apply quiet_before_engine;
       [apply NamedTemporaryFile_quiet | apply NamedTemporaryFile_no_raise]|].
  intros tmp_file.
  eapply hoare_bind_total with (R := fun _ => before_engine).
  { eapply hoare_with_block with (Q := fun _ => before_engine) (R := fun _ _ => False).
    - eapply hoare_bind;
        [apply quiet_before_engine; [apply file_write_quiet | apply file_write_no_raise]|].
      intros ? fr H. exact H.
    - intros ?. apply quiet_before_engine; [apply file_close_quiet | apply file_close_no_raise].
    - intros ? fr []. }
  intros ?.
  eapply hoare_bind with (R := fun _ => before_engine); [intros fr H; exact H|].
  intros convert.
  eapply hoare_bind with (R := fun _ => before_engine).
  { destruct convert; [|intros fr H; exact H].
    eapply hoare_bind_total;
      [apply quiet_before_engine;
         [apply convert_to_wav_quiet
         | apply convert_to_wav_no_raise, (proj2 (proj2 (proj2 (proj2 (proj2 Hworks)))))]|].
    intros converted.
    eapply hoare_bind with (R := fun _ => before_engine);
      [intros fr H; exact H | intros ? fr H; exact H]. }
  intros audio_path.
  eapply hoare_bind_total;
    [apply quiet_before_engine; [apply get_model_quiet | apply get_model_no_raise]|].
  intros whisper_model.
  eapply hoare_bind; [apply model_transcribe_called|].
  intros [segments_list info] fr (evs & outcome & Ht & Hcalled & Hout).
  cbn [fst snd] in Hout. unfold lift_result.
  destruct (JSONResponse_init _) as [response|e] eqn:Hr;
    exists evs, outcome; (split; [exact Ht|]); (split; [exact Hcalled|]);
    rewrite Hout; unfold response_to; rewrite Hr; reflexivity.
Qed.

End EngineCall.

(** A request with a decodable payload and a string for its format, served
    by collaborators that succeed, calls the engine, and is answered as that
    call decides. *)
Lemma transcribe_engine_call (env : Env) (request : Request) (w : World)
    (file_format : string) (audio_bytes : bytes) :
  collaborators_succeed env ->
  truthy (get request "audio") = true ->
  decode_audio (get request "audio") = Ok audio_bytes ->
  get_default request "format" (JStr "ogg") = JStr file_format ->
  exists evs outcome,
    logged_since w (snd (transcribe env request w)) evs
    /\ engine_called env w evs (language_hint request) outcome
    /\ fst (transcribe env request w) = response_to outcome.
Proof.
  intros Hworks Htruthy Hdecode Hformat.
  unfold transcribe. fold (language_hint request).
  rewrite Htruthy, Hformat. cbn [negb]. unfold transcribe_protected.
  assert (H0 : events_sat (fun ev => is_engine_call ev = false) (trace w)
                 (world (mkFrame w None None))).
  { exists []. split; [reflexivity | constructor]. }
  match goal with |- context [transcribe_try env ?a ?m ?l ?f ?fr] =>
    pose proof (transcribe_try_called env Hworks w l a m file_format audio_bytes Hdecode
                  fr H0) as H;
    destruct (transcribe_try env a m l f fr) as [[response|e] fr']
  end;
    destruct H as (evs & outcome & Ht & (after & before & h & p & content & Hevs & Hout) & Hr);
    destruct (cleanup_quiet env fr') as (evs_c & _ & Htc);
    exists (evs_c ++ evs)%list, outcome; cbn [fst snd];
    (split; [unfold logged_since; rewrite Htc, Ht, app_assoc; reflexivity|]);
    (split; [|exact Hr]);
    exists (evs_c ++ after)%list, before, h, p, content;
    (split; [rewrite Hevs, app_assoc; reflexivity | exact Hout]).
Qed.

(** C8.  A request served by collaborators that succeed calls the engine.
    When that call yields the segments [segments_list] and the info [info],
    the handler answers 200 with the trimmed segment texts joined by single
    spaces in the order yielded, and with the engine's language, probability
    and duration as they are, provided JSON can carry the two floats; when
    one of them is NaN or an infinity, building the response fails and the
    answer is 500.  Conversely every 200 response is assembled in this way
    from what one engine call yielded.  Joining is merging from left to
    right with single spaces; trimming cuts whitespace, and nothing else,
    from both ends of a text. *)
Theorem transcript_assembly (env : Env) (request : Request) (w : World)
    (file_format : string) (audio_bytes : bytes) :
  collaborators_succeed env ->
  truthy (get request "audio") = true ->
  decode_audio (get request "audio") = Ok audio_bytes ->
  get_default request "format" (JStr "ogg") = JStr file_format ->
  (exists evs outcome,
     logged_since w (snd (transcribe env request w)) evs
     /\ engine_called env w evs (language_hint request) outcome
     /\ forall segments_list info,
          outcome = EngineYields segments_list None info ->
          (json_compliant (info_language_probability info) = true ->
           json_compliant (info_duration info) = true ->
           fst (transcribe env request w)
           = JSONResponse
               (mkContent
                  (PyStr.join " "
                     (map (fun segment => PyStr.strip (seg_text segment)) segments_list))
                  (info_language info) (info_language_probability info)
                  (info_duration info)))
          /\ (json_compliant (info_language_probability info) = false
              \/ json_compliant (info_duration info) = false ->
              exists f,
                (f = info_language_probability info \/ f = info_duration info)
                /\ json_compliant f = false
                /\ fst (transcribe env request w)
                   = HTTPException 500 (DetailOfExn (ValueErrorOutOfRange f))))
  /\ (forall segments_list,
        PyStr.join " " (map (fun segment => PyStr.strip (seg_text segment)) segments_list)
        = merged_text segments_list)
  /\ (forall s, exists l r,
        s = l +:+ PyStr.strip s +:+ r
        /\ PyStr.all_space l = true /\ PyStr.all_space r = true
        /\ starts_with_space (PyStr.strip s) = false
        /\ ends_with_space (PyStr.strip s) = false)
  /\ (forall env' request' w' content,
        fst (transcribe env' request' w') = JSONResponse content ->
        assembled_from env' (language_hint request') (JSONResponse content)).
Proof.
  intros Hworks Htruthy Hdecode Hformat.
  split; [|split; [apply full_text_of_merged | split; [apply strip_spec|]]].
  - destruct (transcribe_engine_call env request w file_format audio_bytes
                Hworks Htruthy Hdecode Hformat) as (evs & outcome & Hlog & Hcalled & Hr).
    exists evs, outcome. split; [exact Hlog|]. split; [exact Hcalled|].
    intros segments_list info ->. rewrite Hr.
    unfold response_to, JSONResponse_init. cbn [language_probability duration].
    split.
    + intros -> ->. reflexivity.
    + intros Hbad.
      destruct (json_compliant (info_language_probability info)) eqn:Hp; cbn [negb].
      * destruct Hbad as [Hbad | Hbad]; [discriminate|]. rewrite Hbad. cbn [negb].
        exists (info_duration info). auto.
      * exists (info_language_probability info). auto.
  - intros env' request' w' content. unfold transcribe.
    destruct (truthy (get request' "audio")); cbn [negb]; [|discriminate].
    fold (language_hint request').
    match goal with |- context [transcribe_protected env' ?a ?m ?l ?f w'] =>
      pose proof (transcribe_protected_response env' a m l f w') as H;
      destruct (transcribe_protected env' a m l f w') as [[c|sc d|e] fr]
    end; simpl in *; try discriminate.
    intros [= <-]. exact H.
Qed.

Lemma transcript_assembly_witness :
  fst (transcribe Sample.env Sample.req_wav Sample.w0)
  = JSONResponse (mkContent "Hello there. How are you?" "en" 0.5%float 2.5%float).
Proof.
  destruct (transcript_assembly Sample.env Sample.req_wav Sample.w0
              "wav" [104; 101; 108; 108; 111]
              ltac:(repeat split; try reflexivity; intros; discriminate)
              eq_refl eq_refl eq_refl)
    as [(evs & outcome & _ & (after & before & h & p & content & _ & Hout) & H) _].
  apply (H Sample.segments Sample.info Hout); reflexivity.
Defined.

(** ** Conversion and pass-through *)

Section Events.

Variable env : Env.
Variable before : list Event.
Variable conv : bool.
Variable decoded : bytes.

Lemma events_ok_log (written : option string) (ev : Event) (w : World) :
  ok_event conv decoded ev ->
  events_ok before conv decoded written w ->
  events_ok before conv decoded written (log_event ev w).
Proof.
  intros Hev [(evs & Ht & Hall) Hfs]. split; [|exact Hfs].
  exists (ev :: evs). simpl. rewrite Ht. split; [reflexivity | constructor; assumption].
Qed.

Lemma events_ok_forget (written : option string) (w : World) :
  events_ok before conv decoded written w -> events_ok before conv decoded None w.
Proof. intros [H _]. split; [exact H | discriminate]. Qed.

Lemma events_ok_set_fs (files : gmap string bytes) (w : World) :
  events_ok before conv decoded None w ->
  events_ok before conv decoded None (set_fs files w).
Proof. intros [H _]. split; [exact H | discriminate]. Qed.

(** An event that is neither the converter's nor the engine's. *)
Lemma ok_event_plain (ev : Event) :
  is_converter_event ev = false ->
  (forall h p c l, ev <> EvEngine h p c l) ->
  ok_event conv decoded ev.
Proof.
  intros Hc He. split; [congruence|]. intros _ h p c l Heq. destruct (He h p c l Heq).
Qed.

Ltac plain := apply ok_event_plain; [reflexivity | discriminate].

Lemma NamedTemporaryFile_events (sfx : string) :
  stable (events_ok before conv decoded None) (NamedTemporaryFile env sfx).
Proof.
  apply stable_snd. intros w H. unfold NamedTemporaryFile.
  destruct (mkstemp env (clock w) sfx); simpl;
    [apply events_ok_set_fs|]; apply events_ok_log; auto; plain.
Qed.

(** Writing [decoded] leaves a file that holds [decoded]. *)
Lemma file_write_events (p : string) :
  hoare (events_ok before conv decoded None) (file_write env p decoded)
    (fun _ => events_ok before conv decoded (Some p))
    (fun _ => events_ok before conv decoded None).
Proof.
  intros w H. unfold file_write.
  destruct (tmp_file_write env (clock w) p decoded).
  - apply events_ok_log; [plain | exact H].
  - destruct (events_ok_log None (EvWrite p) w ltac:(plain) H) as [Hev _].
    split; [exact Hev|]. intros q [= <-]. simpl. apply lookup_insert_eq.
Qed.

Lemma file_close_events (written : option string) (p : string) :
  stable (events_ok before conv decoded written) (file_close env p).
Proof.
  apply stable_snd. intros w H. unfold file_close.
  destruct (tmp_file_close env (clock w) p); simpl; apply events_ok_log; auto; plain.
Qed.

Lemma get_model_events (written : option string) (v : json) :
  stable (events_ok before conv decoded written) (get_model env v).
Proof.
  apply stable_snd. intros w H.
  assert (Hw1 : forall w1, w1 = w \/ w1 = log_event EvTorch w ->
                           events_ok before conv decoded written w1).
  { intros w1 [-> | ->]; [exact H | apply events_ok_log; [plain | exact H]]. }
  destruct (get_model_runs env v w) as [model Hc | device w1 Hc Hw Hi | e Hc Hauto Ht | device w1 e Hc Hw Hi];
    simpl.
  - exact H.
  - destruct (Hw1 w1 Hw) as [(evs & Ht & Hall) Hfs]. split; [|exact Hfs].
    eexists (_ :: evs). simpl. rewrite Ht. split; [reflexivity|].
    constructor; [plain | exact Hall].
  - apply events_ok_log; [plain | exact H].
  - apply events_ok_log; [plain | apply Hw1, Hw].
Qed.

(** The engine is given the file that was written. *)
Lemma model_transcribe_events (h : Handle) (p : string) (lang : json) :
  stable (events_ok before conv decoded (Some p)) (model_transcribe env h p lang).
Proof.
  apply stable_snd. intros w H. unfold model_transcribe.
  assert (Hev : ok_event conv decoded (EvEngine h p (fs w !! p) lang)).
  { split; [discriminate|]. intros _ h' p' c l [= _ _ <- _]. apply (proj2 H). reflexivity. }
  destruct (engine env (clock w) h p (fs w !! p) lang) as [e | segs [e|] i]; simpl;
    apply events_ok_log; auto.
Qed.

Lemma unlink_events (p : string) :
  stable (events_ok before conv decoded None) (unlink env p).
Proof.
  apply stable_snd. intros w H. unfold unlink.
  destruct (fs w !! p); [destruct (os_unlink env (clock w) p)|]; simpl;
    try apply events_ok_set_fs; apply events_ok_log; auto; plain.
Qed.

(** When the format calls for conversion, whatever the converter does is
    allowed. *)
Lemma convert_to_wav_events (p : string) :
  conv = true ->
  stable (events_ok before conv decoded None) (convert_to_wav env p).
Proof.
  intros Hconv.
  assert (Hany : forall ev, ok_event conv decoded ev).
  { intros ev. split; [auto | congruence]. }
  unfold convert_to_wav. apply stable_bind.
  { apply stable_snd. intros w H. apply events_ok_log; auto. }
  intros [[|c ff]|]; try apply stable_ret.
  apply stable_try_except; [|intros e; apply stable_ret].
  apply stable_bind.
  { apply stable_snd. intros w H. unfold subprocess_run.
    destruct (ffmpeg env (clock w) _ p (fs w !! p)) as [[e|] secs rc dec [b|]];
      ff_simpl; try destruct (FFMPEG_TIMEOUT <? secs); simpl;
      try apply events_ok_set_fs; apply events_ok_log; auto. }
  intros run. apply stable_bind; [intros w H; exact H|]. intros present.
  destruct (_ && _); [apply stable_ret|].
  apply stable_bind; [|intros ?; apply stable_ret].
  unfold stderr_decode. destruct (ff_stderr_decodes run); [apply stable_ret | apply stable_raise].
Qed.

End Events.

Lemma hoare_lift_world {A} (m : M A) (P : World -> Prop) (Q : A -> World -> Prop)
    (E : exn -> World -> Prop) :
  hoare P m Q E ->
  hoare (fun fr => P (world fr)) (lift m)
    (fun a fr => Q a (world fr)) (fun e fr => E e (world fr)).
Proof.
  intros H fr HP. unfold lift. specialize (H (world fr) HP).
  destruct (m (world fr)) as [[a|e] w']; simpl; exact H.
Qed.

Lemma lift_run {A} (m : M A) (fr : Frame) :
  lift m fr
  = (fst (m (world fr)), mkFrame (snd (m (world fr))) (tmp_path fr) (converted_path fr)).
Proof. unfold lift. destruct (m (world fr)); reflexivity. Qed.

(** A world property that [m] keeps holds after [lift m]; on the
    exceptional exit a weaker one may be asked for. *)
Lemma hoare_lift_stable {A} (m : M A) (I I' : World -> Prop) :
  stable I m -> (forall w, I w -> I' w) ->
  hoare (fun fr => I (world fr)) (lift m)
    (fun _ fr => I (world fr)) (fun _ fr => I' (world fr)).
Proof.
  intros Hs Hw fr H. rewrite lift_run.
  apply (proj1 (stable_snd _ _) Hs) in H.
  destruct (fst (m (world fr))); simpl; auto.
Qed.

Section RequestEvents.

Variable env : Env.
Variable before : list Event.
Variable conv : bool.
Variable decoded : bytes.

Lemma model_transcribe_events_conv (h : Handle) (p : string) (lang : json) :
  conv = true ->
  stable (events_ok before conv decoded None) (model_transcribe env h p lang).
Proof.
  intros Hconv. apply stable_snd. intros w H. unfold model_transcribe.
  assert (Hev : forall ev, ok_event conv decoded ev).
  { intros ev. split; [auto | congruence]. }
  destruct (engine env (clock w) h p (fs w !! p) lang) as [e | segs [e|] i]; simpl;
    apply events_ok_log; auto.
Qed.

(** The events of the [try] block are allowed events. *)
Lemma transcribe_try_events (audio_data model_name lang file_format : json) :
  (needs_conversion file_format = Ok true -> conv = true) ->
  (forall b, decode_audio audio_data = Ok b -> b = decoded) ->
  stable (fun fr => events_ok before conv decoded None (world fr))
    (transcribe_try env audio_data model_name lang file_format).
Proof.
  intros Hconv Hdec. unfold transcribe_try, stable.
  pose (J := fun written fr => events_ok before conv decoded written (world fr)).
  assert (Hforget : forall written fr, J written fr -> J None fr).
  { intros written fr. apply events_ok_forget. }
  apply hoare_bind_result; [|auto].
  intros audio_bytes Hd. apply Hdec in Hd. subst audio_bytes.
  eapply hoare_bind with (R := fun _ => J None).
  { apply (hoare_lift_stable _ _ _ (NamedTemporaryFile_events env before conv decoded _)). auto. }
  intros tmp_file.
  eapply hoare_bind with (R := fun _ => J (Some tmp_file)).
  { eapply hoare_with_block with (Q := fun _ => J (Some tmp_file)) (R := fun _ => J None).
    - eapply hoare_bind with (R := fun _ => J (Some tmp_file)).
      + apply (hoare_lift_world _ _ _ _ (file_write_events env before conv decoded tmp_file)).
      + intros ? fr H. exact H.
    - intros ?.
      apply (hoare_lift_stable _ _ _
               (file_close_events env before conv decoded (Some tmp_file) tmp_file)).
      intros w. apply events_ok_forget.
    - intros ?.
      apply (hoare_lift_stable _ _ _
               (file_close_events env before conv decoded None tmp_file)). auto. }
  intros ?.
  apply hoare_bind_result; [|intros e _ fr; apply Hforget].
  intros convert Hn.
  eapply hoare_bind with
    (R := fun audio_path fr =>
            (conv = true /\ J None fr) \/ (audio_path = tmp_file /\ J (Some tmp_file) fr)).
  { destruct convert.
    - specialize (Hconv Hn).
      eapply hoare_conseq with (P' := J None) (E' := fun _ => J None);
        [| apply Hforget | intros ? fr H; exact H | auto].
      eapply hoare_bind with (R := fun _ => J None).
      + apply (hoare_lift_stable _ _ _ (convert_to_wav_events env before conv decoded tmp_file Hconv)).
        auto.
      + intros converted.
        eapply hoare_bind with (R := fun _ => J None); [intros fr H; exact H|].
        intros ? fr H. left. auto.
    - intros fr HJ. right. auto. }
  intros audio_path.
  eapply hoare_bind with
    (R := fun _ fr =>
            (conv = true /\ J None fr) \/ (audio_path = tmp_file /\ J (Some tmp_file) fr)).
  { intros fr H. rewrite lift_run.
    pose proof (fun written =>
      proj1 (stable_snd _ _) (get_model_events env before conv decoded written model_name)
        (world fr)) as Hg.
    destruct (fst (get_model env model_name (world fr))) as [model|e];
      destruct H as [[Hc H] | [Ha H]]; apply Hg in H; unfold J; simpl; auto.
    exact (events_ok_forget _ _ _ _ _ H). }
  intros whisper_model.
  eapply hoare_bind with (R := fun _ => J None).
  { intros fr H. rewrite lift_run.
    assert (Hw : J None (mkFrame (snd (model_transcribe env whisper_model audio_path lang (world fr)))
                           (tmp_path fr) (converted_path fr))).
    { destruct H as [[Hc H] | [-> H]].
      - apply (proj1 (stable_snd _ _)
                 (model_transcribe_events_conv whisper_model audio_path lang Hc)), H.
      - apply (events_ok_forget _ _ _ (Some tmp_file)).
        apply (proj1 (stable_snd _ _)
                 (model_transcribe_events env before conv decoded whisper_model tmp_file lang)), H. }
    destruct (fst (model_transcribe env whisper_model audio_path lang (world fr))); exact Hw. }
  intros [segments_list info] fr H. unfold lift_result.
  destruct (JSONResponse_init _); exact H.
Qed.

Lemma cleanup_events (fr : Frame) :
  events_ok before conv decoded None (world fr) ->
  events_ok before conv decoded None (cleanup env fr).
Proof.
  intros H. unfold cleanup, unlink_quietly.
  assert (Hu : forall p w, events_ok before conv decoded None w ->
                           events_ok before conv decoded None (snd (unlink env p w))).
  { intros p. apply stable_snd, unlink_events. }
  destruct (tmp_path fr) as [p|], (converted_path fr) as [c|];
    repeat match goal with |- context [if ?b then _ else _] => destruct b end;
    auto.
Qed.

End RequestEvents.

Lemma needs_conversion_true (file_format : json) :
  needs_conversion file_format = Ok true ->
  exists f, file_format = JStr f /\ PyStr.lower f ∈ CONVERT_FORMATS.
Proof.
  destruct file_format as [| | | |f| |]; try discriminate.
  simpl. intros [= H]. apply bool_decide_eq_true in H. eauto.
Qed.

(** The events a request adds to the trace are allowed events. *)
Lemma transcribe_events (env : Env) (request : Request) (w : World) (audio_bytes : bytes) :
  truthy (get request "audio") = true ->
  decode_audio (get request "audio") = Ok audio_bytes ->
  events_ok (trace w)
    (match needs_conversion (get_default request "format" (JStr "ogg")) with
     | Ok true => true
     | _ => false
     end)
    audio_bytes None (snd (transcribe env request w)).
Proof.
  intros Ht Hd. unfold transcribe. rewrite Ht. cbn [negb].
  unfold transcribe_protected.
  match goal with |- context [transcribe_try env ?a ?m ?l ?f ?fr] =>
    pose proof (proj1 (stable_snd _ _)
                  (transcribe_try_events env (trace w)
                     (match needs_conversion f with Ok true => true | _ => false end)
                     audio_bytes a m l f
                     ltac:(intros ->; reflexivity) ltac:(intros b Hb; congruence)) fr) as H;
    destruct (transcribe_try env a m l f fr) as [[response|e] fr']
  end; simpl in *; apply cleanup_events, H;
    (split; [exists []; split; [reflexivity | constructor] | discriminate]).
Qed.

(** The converter's events occur only for the listed formats; for the
    others every call of the engine reads the decoded bytes. *)
Lemma transcribe_converter_events (env : Env) (request : Request) (w : World) :
  let file_format := get_default request "format" (JStr "ogg") in
  exists evs,
    trace (snd (transcribe env request w)) = (evs ++ trace w)%list
    /\ (forall ev, ev ∈ evs -> is_converter_event ev = true ->
        exists f, file_format = JStr f /\ PyStr.lower f ∈ CONVERT_FORMATS)
    /\ ((forall f, file_format = JStr f -> PyStr.lower f ∉ CONVERT_FORMATS) ->
        (forall ev, ev ∈ evs -> is_converter_event ev = false)
        /\ (forall h audio_path content lang,
              EvEngine h audio_path content lang ∈ evs ->
              exists audio_bytes,
                decode_audio (get request "audio") = Ok audio_bytes
                /\ content = Some audio_bytes)).
Proof.
  intros file_format.
  assert (Hnone : snd (transcribe env request w) = w ->
                  exists evs : list Event,
                    trace (snd (transcribe env request w)) = (evs ++ trace w)%list
                    /\ (forall ev, ev ∈ evs -> is_converter_event ev = true ->
                        exists f, file_format = JStr f /\ PyStr.lower f ∈ CONVERT_FORMATS)
                    /\ ((forall f, file_format = JStr f -> PyStr.lower f ∉ CONVERT_FORMATS) ->
                        (forall ev, ev ∈ evs -> is_converter_event ev = false)
                        /\ (forall h audio_path content lang,
                              EvEngine h audio_path content lang ∈ evs ->
                              exists audio_bytes,
                                decode_audio (get request "audio") = Ok audio_bytes
                                /\ content = Some audio_bytes))).
  { intros ->. exists []. split; [reflexivity|].
    split; [intros ev Hev; inversion Hev|].
    intros _. split; [intros ev Hev; inversion Hev | intros h p c l Hev; inversion Hev]. }
  destruct (truthy (get request "audio")) eqn:Ht.
  2:{ apply Hnone. rewrite transcribe_falsy_audio by exact Ht. reflexivity. }
  destruct (decode_audio (get request "audio")) as [audio_bytes|e] eqn:Hd.
  2:{ apply Hnone. rewrite (transcribe_decode_error env request w e Ht Hd). reflexivity. }
  destruct (transcribe_events env request w audio_bytes Ht Hd) as [(evs & Htr & Hall) _].
  fold file_format in Hall. rewrite Forall_forall in Hall.
  exists evs. split; [exact Htr|]. split.
  - intros ev Hev Hc. destruct (Hall ev Hev) as [Hconv _]. specialize (Hconv Hc).
    apply needs_conversion_true.
    destruct (needs_conversion file_format) as [[|]|]; [reflexivity | discriminate..].
  - intros Hother.
    assert (Hconv : match needs_conversion file_format with Ok true => true | _ => false end = false).
    { destruct (needs_conversion file_format) as [[|]|] eqn:Hn; try reflexivity.
      destruct (needs_conversion_true file_format Hn) as (f & Hf & Hin).
      destruct (Hother f Hf Hin). }
    rewrite Hconv in Hall. split.
    + intros ev Hev. destruct (Hall ev Hev) as [H _].
      destruct (is_converter_event ev); [discriminate (H eq_refl) | reflexivity].
    + intros h p c l Hev. destruct (Hall _ Hev) as [_ H].
      exists audio_bytes. split; [reflexivity|]. apply (H eq_refl h p c l eq_refl).
Qed.

(** C6.  The events a request adds to the trace include the converter's
    (looking ffmpeg up, running it) only when the declared format, lowered,
    is one of webm, ogg, mp4, m4a, opus, oga.  For every other declared
    format the converter is never invoked and what the engine is given is a
    file holding exactly the bytes decoded from the payload; and the engine
    is given it: when the payload decodes and the collaborators before the
    engine succeed, the engine is called on a file holding these bytes. *)
Theorem conversion_only_for_listed_formats (env : Env) (request : Request) (w : World) :
  let file_format := get_default request "format" (JStr "ogg") in
  exists evs,
    trace (snd (transcribe env request w)) = (evs ++ trace w)%list
    /\ (forall ev, ev ∈ evs -> is_converter_event ev = true ->
        exists f, file_format = JStr f /\ PyStr.lower f ∈ CONVERT_FORMATS)
    /\ ((forall f, file_format = JStr f -> PyStr.lower f ∉ CONVERT_FORMATS) ->
        (forall ev, ev ∈ evs -> is_converter_event ev = false)
        /\ (forall h audio_path content lang,
              EvEngine h audio_path content lang ∈ evs ->
              exists audio_bytes,
                decode_audio (get request "audio") = Ok audio_bytes
                /\ content = Some audio_bytes))
    /\ (forall f audio_bytes,
          file_format = JStr f -> PyStr.lower f ∉ CONVERT_FORMATS ->
          truthy (get request "audio") = true ->
          decode_audio (get request "audio") = Ok audio_bytes ->
          collaborators_succeed env ->
          exists h audio_path,
            EvEngine h audio_path (Some audio_bytes) (language_hint request) ∈ evs).
Proof.
  intros file_format.
  destruct (transcribe_converter_events env request w) as (evs & Htr & Hconv & Hother).
  fold file_format in Hconv, Hother.
  exists evs. split; [exact Htr|]. split; [exact Hconv|]. split; [exact Hother|].
  intros f audio_bytes Hf Hnot Htruthy Hdecode Hworks.
  destruct (transcribe_engine_call env request w f audio_bytes Hworks Htruthy Hdecode Hf)
    as (evs' & outcome & Hlog & (after & before & h & p & content & Hevs & _) & _).
  unfold logged_since in Hlog. rewrite Htr in Hlog. apply app_inv_tail in Hlog. subst evs'.
  assert (Hin : EvEngine h p content (language_hint request) ∈ evs).
  { rewrite Hevs. apply elem_of_app. right. apply elem_of_cons. left. reflexivity. }
  destruct Hother as [_ Hreads].
  { intros f' Hf'. rewrite Hf in Hf'. injection Hf' as <-. exact Hnot. }
  destruct (Hreads h p content _ Hin) as (b & Hb & ->).
  rewrite Hdecode in Hb. injection Hb as <-.
  exists h, p. exact Hin.
Qed.

Lemma conversion_only_for_listed_formats_witness :
  exists evs h audio_path,
    trace (snd (transcribe Sample.env Sample.req_wav Sample.w0))
    = (evs ++ trace Sample.w0)%list
    /\ EvEngine h audio_path (Some [104; 101; 108; 108; 111]) JNull ∈ evs.
Proof.
  destruct (conversion_only_for_listed_formats Sample.env Sample.req_wav Sample.w0)
    as (evs & Htr & _ & _ & Hcalled).
  destruct (Hcalled "wav" [104; 101; 108; 108; 111] eq_refl) as (h & p & Hin).
  - apply (bool_decide_eq_false_1 _). vm_compute. reflexivity.
  - reflexivity.
  - reflexivity.
  - repeat split; try reflexivity; intros; discriminate.
  - exists evs, h, p. split; [exact Htr | exact Hin].
Defined.

(** A request with format [wav]: no converter event, and the engine reads
    the decoded bytes. *)
Example wav_passes_through :
  trace (snd (transcribe Sample.env Sample.req_wav Sample.w0))
  = [ EvUnlink "/tmp/tmpk3x9ab_q.wav";
      EvEngine (mkHandle "base" "cpu" "int8" "/root/.cache/whisper" 4)
        "/tmp/tmpk3x9ab_q.wav" (Some [104; 101; 108; 108; 111]) JNull;
      EvModelInit "base" "cpu" "int8" "/root/.cache/whisper";
      EvTorch;
      EvClose "/tmp/tmpk3x9ab_q.wav";
      EvWrite "/tmp/tmpk3x9ab_q.wav";
      EvMkTemp ".wav" ].
Proof. vm_compute. reflexivity. Qed.

(** The format is compared after lowering: [OGG] is converted like [ogg]. *)
Example upper_case_ogg_is_converted :
  needs_conversion (JStr "OGG") = Ok true
  /\ existsb is_converter_event
       (trace (snd (transcribe Sample.env (<["format" := JStr "OGG"]> Sample.req_ogg) Sample.w0)))
     = true.
Proof. split; vm_compute; reflexivity. Qed.

(** ** Temporary files *)

Section TemporaryFiles.

Variable env : Env.

Lemma file_close_keeps_fs (p : string) : keeps_fs (file_close env p).
Proof. intros w. unfold file_close. destruct (tmp_file_close env (clock w) p); reflexivity. Qed.

Lemma get_model_keeps_fs (v : json) : keeps_fs (get_model env v).
Proof.
  intros w.
  destruct (get_model_runs env v w) as [model Hc | device w1 Hc Hw1 Hi | e Hc Hauto Ht | device w1 e Hc Hw1 Hi];
    simpl; try reflexivity; destruct Hw1; subst; reflexivity.
Qed.

Lemma model_transcribe_keeps_fs (h : Handle) (p : string) (lang : json) :
  keeps_fs (model_transcribe env h p lang).
Proof.
  intros w. unfold model_transcribe.
  destruct (engine env (clock w) h p (fs w !! p) lang) as [e | segs [e|] i]; reflexivity.
Qed.

(** A call that does not touch the file system keeps the files accounted
    for. *)
Lemma lift_accounted {A} (files0 : gmap string bytes) (m : M A) :
  keeps_fs m -> stable (accounted files0) (lift m).
Proof.
  intros Hk. apply stable_snd. intros fr H. rewrite lift_run. simpl.
  unfold accounted in *. simpl. rewrite (Hk (world fr)). exact H.
Qed.

Lemma temp_name_nonempty (random sfx : string) : temp_name env random sfx <> "".
Proof.
  unfold temp_name. destruct (tempdir env); discriminate.
Qed.

(** What [convert_to_wav] leaves on disk when ffmpeg is tidy: the only
    file that can be new is the output, and then the output path is what
    is returned. *)
Lemma convert_to_wav_files (input_path : string) (w : World) :
  ffmpeg_tidy env ->
  match fst (convert_to_wav env input_path w) with
  | Ok c =>
      (c = input_path \/ c = output_path_of input_path)
      /\ forall q, is_Some (fs (snd (convert_to_wav env input_path w)) !! q) ->
           is_Some (fs w !! q) \/ (q = c /\ c = output_path_of input_path)
  | Raise _ =>
      forall q, is_Some (fs (snd (convert_to_wav env input_path w)) !! q) ->
        is_Some (fs w !! q)
  end.
Proof.
  intros Htidy.
  unfold convert_to_wav, bind, shutil_which, try_except, subprocess_run,
    os_path_exists, stderr_decode, ret, raise.
  destruct (shutil_which_ffmpeg env (clock w)) as [[|ch ff]|];
    [simpl; auto | | simpl; auto].
  change (clock (log_event EvWhich w)) with (S (clock w)).
  change (fs (log_event EvWhich w)) with (fs w).
  pose proof (Htidy (S (clock w)) (String ch ff) input_path (fs w !! input_path)) as Ht.
  cbv zeta in Ht.
  destruct (ffmpeg env (S (clock w)) (String ch ff) input_path (fs w !! input_path))
    as [sp secs rc dec wr].
  ff_simpl.
  destruct sp as [e|]; ff_simpl; [destruct (is_Exception e); simpl; auto|].
  specialize (Ht eq_refl).
  destruct wr as [b|].
  - assert (Hw : is_Some (Some b)) by eauto.
    destruct (Ht Hw) as [Hsec Hrc].
    apply Z.ltb_ge in Hsec. rewrite Hsec. subst rc. ff_simpl.
    rewrite bool_decide_eq_true_2 by (simpl; rewrite lookup_insert_eq; eauto).
    simpl. split; [auto|].
    intros q. rewrite lookup_insert. case_decide as Hq; [subst; auto | auto].
  - destruct (FFMPEG_TIMEOUT <? secs); ff_simpl; [simpl; auto|].
    destruct (rc =? 0); ff_simpl.
    + match goal with |- context [bool_decide ?P] => destruct (bool_decide_reflect P) as [Hex|Hex] end;
        ff_simpl.
      * simpl. auto.
      * destruct dec; ff_simpl; simpl; auto.
    + destruct dec; ff_simpl; simpl; auto.
Qed.

Hypothesis Hwrite : write_succeeds env.
Hypothesis Htidy : ffmpeg_tidy env.

Variable files0 : gmap string bytes.

(** The body of the [try] block keeps the files accounted for: whenever
    it ends, every new file is one the [finally] block will delete. *)
Lemma transcribe_try_accounted (audio_data model_name lang file_format : json) :
  hoare (fun fr => accounted files0 fr /\ tmp_path fr = None /\ converted_path fr = None)
    (transcribe_try env audio_data model_name lang file_format)
    (fun _ => accounted files0) (fun _ => accounted files0).
Proof.
  unfold transcribe_try.
  apply hoare_bind_result; [|intros e _ fr [H _]; exact H].
  intros audio_bytes _.
  (* the file is created ... *)
  eapply hoare_bind with
    (R := fun tmp_file fr =>
            tmp_file <> "" /\ tmp_path fr = None /\ converted_path fr = None
            /\ forall q, is_Some (fs (world fr) !! q) -> is_Some (files0 !! q) \/ q = tmp_file).
  { intros fr (Hacc & Ht & Hc). rewrite lift_run. unfold NamedTemporaryFile.
    destruct (mkstemp env (clock (world fr)) (suffix_of env file_format)) as [random|e]; simpl.
    - split; [apply temp_name_nonempty|]. repeat split; auto.
      intros q. rewrite lookup_insert. case_decide as Hq; [auto|].
      intros Hs. destruct (proj1 Hacc q Hs) as [H | [H | H]]; [auto | congruence..].
    - destruct Hacc as (Hf & Hp & Hq). rewrite Ht, Hc in *. repeat split; auto. }
  intros tmp_file.
  (* ... written and recorded, then closed *)
  eapply hoare_bind with
    (R := fun _ fr => accounted files0 fr /\ tmp_path fr = Some tmp_file
                      /\ converted_path fr = None).
  { eapply hoare_with_block with
      (Q := fun _ fr => accounted files0 fr /\ tmp_path fr = Some tmp_file
                        /\ converted_path fr = None)
      (R := fun _ _ => False).
    - eapply hoare_bind with
        (R := fun _ fr =>
                tmp_file <> "" /\ tmp_path fr = None /\ converted_path fr = None
                /\ forall q, is_Some (fs (world fr) !! q) -> is_Some (files0 !! q) \/ q = tmp_file).
      + intros fr (Hne & Ht & Hc & Hf). rewrite lift_run. unfold file_write.
        rewrite Hwrite. simpl. repeat split; auto.
        intros q. rewrite lookup_insert. case_decide as Hq; [auto | apply Hf].
      + intros ? fr (Hne & Ht & Hc & Hf). unfold set_tmp_path, accounted. simpl.
        repeat split; auto.
        * intros q Hs. destruct (Hf q Hs) as [H | ->]; auto.
        * intros p [= <-]. exact Hne.
        * rewrite Hc. discriminate.
    - intros ? fr (Hacc & Ht & Hc). rewrite lift_run.
      assert (Hk : accounted files0
                     (mkFrame (snd (file_close env tmp_file (world fr))) (tmp_path fr)
                        (converted_path fr))).
      { unfold accounted in *. simpl. rewrite file_close_keeps_fs. exact Hacc. }
      destruct (fst (file_close env tmp_file (world fr))); simpl; auto.
    - intros ? fr []. }
  intros ?.
  apply hoare_bind_result; [|intros e _ fr [H _]; exact H].
  intros convert _.
  eapply hoare_bind with (R := fun _ => accounted files0).
  { destruct convert; [|intros fr [H _]; exact H].
    intros fr (Hacc & Ht & Hc). unfold bind. rewrite lift_run.
    pose proof (convert_to_wav_files tmp_file (world fr) Htidy) as Hfiles.
    destruct (fst (convert_to_wav env tmp_file (world fr))) as [c|e].
    - destruct Hfiles as (Hcc & Hf).
      unfold set_converted_path, ret, accounted. simpl.
      destruct Hacc as (Hf0 & Hp & _). rewrite Ht in *. repeat split; auto.
      + intros q Hs. destruct (Hf q Hs) as [H | [-> _]]; [|auto].
        destruct (Hf0 q H) as [H0 | [H0 | H0]]; [auto | auto | congruence].
      + intros c' [= <-]. destruct Hcc as [-> | ->];
          [apply (Hp tmp_file eq_refl) | apply output_path_of_nonempty].
    - unfold accounted in *. simpl.
      destruct Hacc as (Hf0 & Hp & Hq). repeat split; auto. }
  intros audio_path.
  eapply hoare_bind; [apply lift_accounted, get_model_keeps_fs|]. intros whisper_model.
  eapply hoare_bind; [apply lift_accounted, model_transcribe_keeps_fs|].
  intros [segments_list info] fr H. unfold lift_result.
  destruct (JSONResponse_init _); exact H.
Qed.

Hypothesis Hunlink : unlink_succeeds env.

Lemma unlink_quietly_fs (p : string) (w : World) :
  fs (unlink_quietly env p w) = delete p (fs w).
Proof.
  unfold unlink_quietly, unlink.
  destruct (fs w !! p) eqn:Hp; simpl.
  - rewrite Hunlink. reflexivity.
  - symmetry. apply delete_id. exact Hp.
Qed.

(** After the [finally] block only old files are left. *)
Lemma cleanup_accounted (fr : Frame) :
  accounted files0 fr ->
  forall q, is_Some (fs (cleanup env fr) !! q) -> is_Some (files0 !! q).
Proof.
  intros (Hf & Hp & Hc) q. unfold cleanup.
  assert (Htruthy : forall s, s <> "" -> negb (String.eqb s "") = true).
  { intros s Hs. destruct (String.eqb_spec s ""); [contradiction | reflexivity]. }
  destruct (tmp_path fr) as [p|] eqn:Et, (converted_path fr) as [c|] eqn:Ec; simpl.
  - rewrite (Htruthy p (Hp p eq_refl)), (Htruthy c (Hc c eq_refl)). cbn [andb].
    case_bool_decide as Heq; cbn [negb].
    + injection Heq as ->. rewrite unlink_quietly_fs, lookup_delete.
      case_decide as Hq; [intros [x [=]]|]. intros Hs.
      destruct (Hf q Hs) as [H | [H | H]]; [auto | congruence..].
    + rewrite !unlink_quietly_fs, !lookup_delete.
      case_decide as Hq; [intros [x [=]]|]. case_decide as Hq'; [intros [x [=]]|].
      intros Hs. destruct (Hf q Hs) as [H | [H | H]]; [auto | congruence..].
  - rewrite (Htruthy p (Hp p eq_refl)). rewrite unlink_quietly_fs, lookup_delete.
    case_decide as Hq; [intros [x [=]]|]. intros Hs.
    destruct (Hf q Hs) as [H | [H | H]]; [auto | congruence..].
  - rewrite (Htruthy c (Hc c eq_refl)). cbn [andb].
    rewrite unlink_quietly_fs, lookup_delete.
    case_decide as Hq; [intros [x [=]]|]. intros Hs.
    destruct (Hf q Hs) as [H | [H | H]]; [auto | congruence..].
  - intros Hs. destruct (Hf q Hs) as [H | [H | H]]; [auto | congruence..].
Qed.

End TemporaryFiles.

(** The [try] block never calls [os.unlink], so what it returns does not
    depend on how [os.unlink] behaves. *)
Lemma unlink_failure_keeps_response (env : Env) (unlink : nat -> string -> option exn)
    (request : Request) (w : World) :
  fst (transcribe (with_os_unlink env unlink) request w) = fst (transcribe env request w).
Proof.
  unfold transcribe.
  change (DEFAULT_MODEL (with_os_unlink env unlink)) with (DEFAULT_MODEL env).
  destruct (negb (truthy (get request "audio"))); [reflexivity|].
  match goal with
  | |- fst (let '(r, fr) := transcribe_protected _ ?a ?m ?l ?f w in _) = _ =>
      change (transcribe_protected (with_os_unlink env unlink) a m l f w)
        with (transcribe_protected env a m l f w);
      destruct (transcribe_protected env a m l f w) as [response fr]
  end.
  reflexivity.
Qed.




(** When [tmp_file.write] raises, [tmp_path] has not been assigned yet and
    the file just created is not deleted. *)
Example write_failure_leaves_file :
  fst (transcribe Sample.env_write_fails Sample.req_wav Sample.w0)
  = HTTPException 500 (DetailOfExn (External "OSError" "No space left on device"))
  /\ fs (snd (transcribe Sample.env_write_fails Sample.req_wav Sample.w0))
       !! "/tmp/tmpk3x9ab_q.wav" = Some [].
Proof. split; vm_compute; reflexivity. Qed.

(** When ffmpeg times out, [convert_to_wav] returns the input path, and
    what ffmpeg had written of the output is not deleted. *)
Example timed_out_conversion_leaves_file :
  is_ok_response (fst (transcribe Sample.env_ffmpeg_hangs Sample.req_ogg Sample.w0)) = true
  /\ map_to_list (fs (snd (transcribe Sample.env_ffmpeg_hangs Sample.req_ogg Sample.w0)))
     = [("/tmp/tmpk3x9ab_q_converted.wav", [82; 73])].
Proof. split; vm_compute; reflexivity. Qed.

(** ** Successive calls of [get_model] *)

Lemma get_model_hit (env : Env) (v : json) (w : World) (model : Handle) :
  model_cache w !! resolve_model_name env v = Some model ->
  get_model env v w = (Ok model, w).
Proof. intros H. unfold get_model. rewrite H. reflexivity. Qed.

(** A call that returns a handle leaves it in the cache, so the next call
    with the same identifier is a hit: it returns the same handle, changes
    nothing and instantiates nothing.  The two calls together call the
    constructor at most once, and exactly once when the identifier was not
    cached. *)
Lemma get_model_second_call_hits (env : Env) (v : json) (w w' : World) (model : Handle) :
  get_model env v w = (Ok model, w') ->
  get_model env v w' = (Ok model, w')
  /\ (instantiations w' <= S (instantiations w))%nat
  /\ (model_cache w !! resolve_model_name env v = None ->
      instantiations w' = S (instantiations w)).
Proof.
  intros Hg. pose proof (get_model_runs env v w) as Hrun. rewrite Hg in Hrun.
  inversion Hrun as [model' Hc | device w1 Hc Hw1 Hi | e Hc Hauto Ht | device w1 e Hc Hw1 Hi].
  - subst. split; [exact Hg|]. split; [lia | congruence].
  - split.
    + apply get_model_hit. simpl. apply lookup_insert_eq.
    + unfold instantiations. simpl.
      destruct Hw1 as [-> | ->]; simpl; split; [lia | reflexivity | lia | reflexivity].
Qed.

(** ** Loading a model *)

Section Loading.

Variable env : Env.

(** What device detection settles on, and what it asks torch. *)
Lemma detect_device_policy (w w1 : World) (device : string) :
  detect_device env w = (Ok device, w1) ->
  device_policy env device
  /\ (DEVICE env <> "auto" -> w1 = w)
  /\ (DEVICE env = "auto" ->
      w1 = log_event EvTorch w
      /\ (device = "cuda" <-> exists mps, torch env (clock w) = TorchPresent true mps)).
Proof.
  unfold detect_device, device_policy, bind, torch_probe, ret, raise.
  destruct (String.eqb_spec (DEVICE env) "auto") as [Hauto | Hauto].
  - destruct (torch env (clock w)) as [|[|] [|]|e]; intros [= <- <-];
      (split; [split; [congruence | auto] |]); (split; [congruence|]);
      intros _; (split; [reflexivity|]);
      (split; [try discriminate; eauto | try reflexivity; intros [mps [=]]]).
  - intros [= <- <-]. split; [split; [auto | congruence] |].
    split; [auto | congruence].
Qed.

Lemma detect_compute_type_policy (device : string) :
  compute_type_policy env device (detect_compute_type env device).
Proof.
  unfold compute_type_policy, detect_compute_type.
  destruct (String.eqb_spec (COMPUTE_TYPE env) "auto") as [Ha | Ha];
    [|repeat split; congruence].
  destruct (String.eqb_spec device "cuda") as [Hd | Hd]; repeat split; congruence.
Qed.

(** A call that misses the cache and returns has detected a device and
    built the handle with it. *)
Lemma get_model_load_inv (v : json) (w w' : World) (model : Handle) :
  model_cache w !! resolve_model_name env v = None ->
  get_model env v w = (Ok model, w') ->
  exists device w1,
    detect_device env w = (Ok device, w1)
    /\ WhisperModel_init env (clock w1) (resolve_model_name env v) device
         (detect_compute_type env device) (MODELS_DIR env) = None
    /\ model = fst (loaded env (resolve_model_name env v) device w1)
    /\ w' = snd (loaded env (resolve_model_name env v) device w1).
Proof.
  intros Hc. unfold get_model. rewrite Hc. unfold bind at 1.
  destruct (detect_device env w) as [[device|e] w1] eqn:Hd; [|discriminate].
  unfold bind, WhisperModel, cache_store, ret.
  destruct (WhisperModel_init env (clock w1) (resolve_model_name env v) device
              (detect_compute_type env device) (MODELS_DIR env)) as [e|] eqn:Hi;
    [discriminate|].
  intros [= <- <-]. exists device, w1. auto.
Qed.

Lemma loaded_handle_for (v : json) (device : string) (w w1 : World) :
  detect_device env w = (Ok device, w1) ->
  handle_for env (resolve_model_name env v)
    (fst (loaded env (resolve_model_name env v) device w1)).
Proof.
  intros Hd. destruct (detect_device_policy w w1 device Hd) as [Hp _].
  unfold handle_for. simpl. repeat split; try apply Hp.
  - apply detect_compute_type_policy.
  - apply detect_compute_type_policy.
  - apply detect_compute_type_policy.
  - apply resolve_model_name_range.
Qed.

End Loading.



(** ** Invariants of the reachable states *)

Section Reachable.

Variable env : Env.

(** A property of the registry that holds of the empty registry and that
    [get_model] keeps holds in every state the server reaches. *)
Lemma reachable_on_registry (R : gmap string Handle -> option string -> Prop) (w : World) :
  R ∅ None ->
  (forall v, stable (on_registry R) (get_model env v)) ->
  reachable env w -> on_registry R w.
Proof.
  intros H0 Hg. induction 1 as [files | w Hw IH | w v Hw IH | w request Hw IH | w files Hw IH].
  - exact H0.
  - revert IH. apply stable_snd. unfold startup_event.
    apply stable_try_except; [|intros e; apply stable_ret].
    apply stable_bind; [apply Hg | intros _; apply stable_ret].
  - apply (proj1 (stable_snd _ _) (Hg v)), IH.
  - apply transcribe_registry; [exact Hg | exact IH].
  - exact IH.
Qed.

Lemma get_model_keeps_handles (v : json) :
  stable (on_registry (fun cache _ =>
            forall n model, cache !! n = Some model -> handle_for env n model))
    (get_model env v).
Proof.
  apply stable_snd. intros w H. unfold on_registry in *.
  destruct (model_cache w !! resolve_model_name env v) as [m|] eqn:Hc.
  - rewrite (get_model_hit env v w m Hc). exact H.
  - destruct (get_model env v w) as [[model|e] w'] eqn:Hg.
    + destruct (get_model_load_inv env v w w' model Hc Hg) as (device & w1 & Hd & Hi & -> & ->).
      simpl. intros n m. rewrite lookup_insert. case_decide as Hn.
      * intros [= <-]. subst n. apply (loaded_handle_for env v device w w1 Hd).
      * assert (Hm : model_cache w1 = model_cache w).
        { destruct (detect_device_runs env w) as [(d & w2 & Hd' & Hw2) | (e & Hd' & _)];
            rewrite Hd in Hd'; [|discriminate].
          injection Hd' as _ <-. destruct Hw2; subst; reflexivity. }
        rewrite Hm. apply H.
    + pose proof (get_model_runs env v w) as Hrun. rewrite Hg in Hrun. simpl.
      inversion Hrun as [m Hc' | d w1 Hc' Hw1 Hi | e' Hc' Hauto Ht | d w1 e' Hc' Hw1 Hi];
        subst; simpl; [exact H|]. destruct Hw1; subst; exact H.
Qed.

Lemma get_model_keeps_emptiness (v : json) :
  stable (on_registry (fun cache current => current = None <-> cache = ∅))
    (get_model env v).
Proof.
  apply stable_snd. intros w H. unfold on_registry in *.
  destruct (get_model_runs env v w) as [model Hc | device w1 Hc Hw1 Hi | e Hc Hauto Ht
                                       | device w1 e Hc Hw1 Hi]; simpl.
  - exact H.
  - split; [discriminate|]. intros He.
    apply (f_equal (fun m => m !! resolve_model_name env v)) in He.
    rewrite lookup_insert_eq, lookup_empty in He. discriminate.
  - exact H.
  - destruct Hw1; subst; exact H.
Qed.

End Reachable.

(** In every state the server reaches, each cached handle was built for
    the name it is cached under, with the configured weights directory and
    with a device and a precision that follow the configuration; the names
    cached are supported names or the configured default. *)
Theorem cached_handles_well_formed (env : Env) (w : World) (n : string) (model : Handle) :
  reachable env w ->
  model_cache w !! n = Some model ->
  handle_for env n model.
Proof.
  intros Hreach. revert n model.
  apply (reachable_on_registry env
           (fun cache _ => forall n model, cache !! n = Some model -> handle_for env n model) w);
    [|apply get_model_keeps_handles | exact Hreach].
  intros n model. rewrite lookup_empty. discriminate.
Qed.

Lemma cached_handles_well_formed_witness :
  handle_for Sample.env "base" (mkHandle "base" "cpu" "int8" "/root/.cache/whisper" 1).
Proof.
  apply (cached_handles_well_formed Sample.env
           (snd (startup_event Sample.env Sample.w0)) "base"
           (mkHandle "base" "cpu" "int8" "/root/.cache/whisper" 1)).
  - apply reach_startup, reach_boot.
  - vm_compute. reflexivity.
Defined.

(** In every state the server reaches, [/health] reports [model_loaded]
    exactly when the cache holds a model; its [current_model] is then a key
    of the cache, and is null otherwise; [/models] reports the same current
    model. *)
Theorem health_reports_loaded_cache (env : Env) (w : World) :
  reachable env w ->
  (model_loaded (health w) = true <-> model_cache w <> ∅)
  /\ (model_loaded (health w) = false <-> current_model (health w) = None)
  /\ (forall n, current_model (health w) = Some n -> is_Some (model_cache w !! n))
  /\ current (list_models env w) = current_model (health w).
Proof.
  intros Hreach.
  pose proof (reachable_on_registry env (fun cache current => current = None <-> cache = ∅) w
                (conj (fun _ => eq_refl) (fun _ => eq_refl))
                (get_model_keeps_emptiness env) Hreach) as Hempty.
  pose proof (reachable_registry_inv env w Hreach) as Hinv.
  unfold on_registry in Hempty. unfold health. simpl.
  split; [|split; [|split; [|reflexivity]]].
  - destruct (current_model_name w) as [n|]; split.
    + intros _ He. apply Hempty in He. discriminate.
    + reflexivity.
    + discriminate.
    + intros Hne. destruct Hne. apply Hempty. reflexivity.
  - destruct (current_model_name w); split; congruence.
  - intros n Hn. apply (Hinv n Hn).
Qed.

Lemma health_reports_loaded_cache_witness :
  model_loaded (health (snd (startup_event Sample.env Sample.w0))) = true
  <-> model_cache (snd (startup_event Sample.env Sample.w0)) <> ∅.
Proof.
  apply (health_reports_loaded_cache Sample.env (snd (startup_event Sample.env Sample.w0))).
  apply reach_startup, reach_boot.
Defined.

(** ** What stays in the cache *)

Section CacheGrowth.

Variable env : Env.

Lemma get_model_keeps_entry (n : string) (model : Handle) (v : json) :
  stable (on_registry (fun cache _ => cache !! n = Some model)) (get_model env v).
Proof.
  apply stable_snd. intros w H. unfold on_registry in *.
  destruct (get_model_runs env v w) as [m Hc | device w1 Hc Hw1 Hi | e Hc Hauto Ht
                                       | device w1 e Hc Hw1 Hi]; simpl; try exact H.
  - assert (Hm : model_cache w1 = model_cache w) by (destruct Hw1; subst; reflexivity).
    rewrite Hm. rewrite lookup_insert_ne; [exact H | congruence].
  - destruct Hw1; subst; exact H.
Qed.

Lemma get_model_grows (cache0 : gmap string Handle) (current0 : option string) (v : json) :
  stable (on_registry (grown_by cache0 current0 (resolve_model_name env v)))
    (get_model env v).
Proof.
  apply stable_snd. intros w H. unfold on_registry in *.
  destruct (get_model_runs env v w) as [m Hc | device w1 Hc Hw1 Hi | e Hc Hauto Ht
                                       | device w1 e Hc Hw1 Hi]; simpl; try exact H.
  - assert (Hm : model_cache w1 = model_cache w) by (destruct Hw1; subst; reflexivity).
    rewrite Hm. destruct H as [[Hcache _] | (m & _ & Hcache & _)].
    + right. rewrite Hcache in *. eauto.
    + rewrite Hcache, lookup_insert_eq in Hc. discriminate.
  - destruct Hw1; subst; exact H.
Qed.

End CacheGrowth.

(** A cached handle is never evicted or replaced: an entry of
    [model_cache] is still there, with the same handle, after any call of
    [get_model], after [startup_event] and after any [/transcribe]
    request. *)
Theorem cache_entries_persist (env : Env) (w : World) (n : string) (model : Handle) :
  model_cache w !! n = Some model ->
  (forall v, model_cache (snd (get_model env v w)) !! n = Some model)
  /\ model_cache (snd (startup_event env w)) !! n = Some model
  /\ (forall request, model_cache (snd (transcribe env request w)) !! n = Some model).
Proof.
  intros H.
  pose (R := fun (cache : gmap string Handle) (_ : option string) => cache !! n = Some model).
  assert (Hg : forall v, stable (on_registry R) (get_model env v))
    by (intros v; apply get_model_keeps_entry).
  split; [|split].
  - intros v. apply (proj1 (stable_snd _ _) (Hg v) w H).
  - revert H. apply (proj1 (stable_snd (on_registry R) (startup_event env))).
    unfold startup_event.
    apply stable_try_except; [|intros e; apply stable_ret].
    apply stable_bind; [apply Hg | intros _; apply stable_ret].
  - intros request. apply (transcribe_registry env R request w Hg H).
Qed.

Lemma cache_entries_persist_witness :
  model_cache (snd (get_model Sample.env (JStr "tiny")
                      (snd (startup_event Sample.env Sample.w0)))) !! "base"
  = Some (mkHandle "base" "cpu" "int8" "/root/.cache/whisper" 1).
Proof.
  apply (cache_entries_persist Sample.env (snd (startup_event Sample.env Sample.w0)) "base"
           (mkHandle "base" "cpu" "int8" "/root/.cache/whisper" 1)).
  vm_compute. reflexivity.
Defined.

(** A [/transcribe] request changes the registry by at most one entry:
    either [model_cache] and [current_model_name] are as before, or the
    name its [model] field resolves to (the default when the field is
    missing, unsupported or not a string) was not cached, has been added
    and is now current. *)
Theorem transcribe_loads_at_most_its_model (env : Env) (request : Request) (w : World) :
  let name := resolve_model_name env (get_default request "model" (JStr (DEFAULT_MODEL env))) in
  let w' := snd (transcribe env request w) in
  (model_cache w' = model_cache w /\ current_model_name w' = current_model_name w)
  \/ (exists model, model_cache w !! name = None
                    /\ model_cache w' = <[name := model]> (model_cache w)
                    /\ current_model_name w' = Some name).
Proof.
  intros name w'. subst w'. unfold transcribe.
  destruct (negb (truthy (get request "audio"))); [left; auto|].
  unfold transcribe_protected.
  pose (R := grown_by (model_cache w) (current_model_name w) name).
  match goal with |- context [transcribe_try env ?a ?m ?l ?f ?fr] =>
    pose proof (proj1 (stable_snd _ _)
                  (transcribe_try_registry env R a m l f
                     (get_model_grows env (model_cache w) (current_model_name w) m))
                  fr (or_introl (conj eq_refl eq_refl))) as H;
    destruct (transcribe_try env a m l f fr) as [[response|e] fr']
  end; simpl in *; apply (cleanup_registry env R) in H; exact H.
Qed.


Lemma get_model_second_call_hits_witness :
  get_model Sample.env (JStr "tiny")
    (snd (get_model Sample.env (JStr "tiny") Sample.w0))
  = (Ok (mkHandle "tiny" "cpu" "int8" "/root/.cache/whisper" 1),
     snd (get_model Sample.env (JStr "tiny") Sample.w0)).
Proof.
  apply (get_model_second_call_hits Sample.env (JStr "tiny") Sample.w0).
  vm_compute. reflexivity.
Defined.

(** ** The order of a request's calls *)

Section CallOrder.

Variable env : Env.
Variable sfx : string.
Variable lang : json.
Variable before : list Event.

Local Abbreviation at_ph := (at_phase sfx lang before).
Local Abbreviation ready_for_cleanup := (ready_for_cleanup sfx lang before).

Lemma at_phase_log (ph ph' : Phase) (ev : Event) (w : World) :
  call_step sfx lang ph ev ph' -> at_ph ph w -> at_ph ph' (log_event ev w).
Proof.
  intros Hs (evs & Ht & Hr). exists (ev :: evs). simpl. rewrite Ht.
  split; [reflexivity | apply (reach_cons sfx lang evs ph ph' ev Hr Hs)].
Qed.

Lemma at_phase_set_fs (ph : Phase) (files : gmap string bytes) (w : World) :
  at_ph ph w -> at_ph ph (set_fs files w).
Proof. intros H. exact H. Qed.

Lemma NamedTemporaryFile_phase :
  hoare (at_ph PStart) (NamedTemporaryFile env sfx)
    (fun p w => at_ph PCreated w /\ p <> "") (fun _ => at_ph PCreated).
Proof.
  intros w H. unfold NamedTemporaryFile.
  pose proof (at_phase_log _ _ _ w (step_mktemp sfx lang) H) as H1.
  destruct (mkstemp env (clock w) sfx) as [random|e]; [|exact H1].
  split; [exact H1 | apply temp_name_nonempty].
Qed.

Lemma file_write_phase (p : string) (data : bytes) :
  hoare (at_ph PCreated) (file_write env p data)
    (fun _ => at_ph (PWritten p)) (fun _ => at_ph (PWritten p)).
Proof.
  intros w H. unfold file_write.
  pose proof (at_phase_log _ _ _ w (step_write sfx lang p) H) as H1.
  destruct (tmp_file_write env (clock w) p data); exact H1.
Qed.

Lemma file_close_phase (p : string) :
  hoare (at_ph (PWritten p)) (file_close env p)
    (fun _ => at_ph (PAt Closed p)) (fun _ => at_ph (PAt Closed p)).
Proof.
  intros w H. unfold file_close.
  pose proof (at_phase_log _ _ _ w (step_close sfx lang p) H) as H1.
  destruct (tmp_file_close env (clock w) p); exact H1.
Qed.

(** [convert_to_wav] looks ffmpeg up and runs it at most once. *)
Lemma convert_to_wav_phase (p : string) :
  hoare (at_ph (PAt Closed p)) (convert_to_wav env p)
    (fun c w => (c = p \/ c = output_path_of p)
                /\ exists s, (stage_rank s <= stage_rank Converted)%nat /\ at_ph (PAt s p) w)
    (fun _ w => exists s, (stage_rank s <= stage_rank Converted)%nat /\ at_ph (PAt s p) w).
Proof.
  intros w H.
  pose proof (at_phase_log _ _ _ w (step_which sfx lang p) H) as H1.
  unfold convert_to_wav, bind, shutil_which, try_except, subprocess_run,
    os_path_exists, stderr_decode, ret, raise.
  assert (Hlooked : exists s, (stage_rank s <= stage_rank Converted)%nat
                              /\ at_ph (PAt s p) (log_event EvWhich w)).
  { exists Looked. split; [simpl; lia | exact H1]. }
  destruct (shutil_which_ffmpeg env (clock w)) as [[|ch ff]|]; [auto | | auto].
  pose proof (at_phase_log _ _ _ _ (step_ffmpeg sfx lang p (String ch ff)) H1) as H2.
  assert (Hconv : forall files, exists s,
            (stage_rank s <= stage_rank Converted)%nat
            /\ at_ph (PAt s p)
                 (set_fs files (log_event (EvFfmpeg (String ch ff) p (output_path_of p))
                                  (log_event EvWhich w)))).
  { intros files. exists Converted. split; [simpl; lia | exact H2]. }
  assert (Hconv' : exists s,
            (stage_rank s <= stage_rank Converted)%nat
            /\ at_ph (PAt s p)
                 (log_event (EvFfmpeg (String ch ff) p (output_path_of p))
                    (log_event EvWhich w))).
  { exists Converted. split; [simpl; lia | exact H2]. }
  destruct (ffmpeg env _ (String ch ff) p _) as [sp secs rc dec wr].
  ff_simpl.
  destruct sp as [e|]; ff_simpl; [destruct (is_Exception e); auto|].
  destruct (FFMPEG_TIMEOUT <? secs); ff_simpl; [destruct wr; auto|].
  destruct (rc =? 0); ff_simpl.
  - match goal with |- context [bool_decide ?P] => destruct (bool_decide P) end; ff_simpl.
    + destruct wr; auto.
    + destruct dec; ff_simpl; destruct wr; auto.
  - destruct dec; ff_simpl; destruct wr; auto.
Qed.

(** [get_model] probes torch and calls the constructor at most once
    each, in this order. *)
Lemma get_model_phase (v : json) (s : Stage) (p : string) (w : World) :
  (stage_rank s <= stage_rank Converted)%nat ->
  at_ph (PAt s p) w ->
  exists s', (stage_rank s' <= stage_rank Built)%nat
             /\ at_ph (PAt s' p) (snd (get_model env v w)).
Proof.
  intros Hs H.
  pose proof (at_phase_log _ _ _ w (step_torch sfx lang s p Hs) H) as Ht.
  assert (Hbuilt : forall w1 name device compute_type root,
            w1 = w \/ w1 = log_event EvTorch w ->
            at_ph (PAt Built p) (log_event (EvModelInit name device compute_type root) w1)).
  { intros w1 name device compute_type root [-> | ->].
    - apply (at_phase_log (PAt s p)); [|exact H]. apply step_init. simpl in *. lia.
    - apply (at_phase_log (PAt Probed p)); [|exact Ht]. apply step_init. simpl. lia. }
  destruct (get_model_runs env v w) as [model Hc | device w1 Hc Hw1 Hi | e Hc Hauto Hto
                                       | device w1 e Hc Hw1 Hi]; simpl.
  - exists s. split; [simpl in *; lia | exact H].
  - exists Built. split; [simpl; lia|]. apply (Hbuilt w1 _ _ _ _ Hw1).
  - exists Probed. split; [simpl; lia | exact Ht].
  - exists Built. split; [simpl; lia|]. apply (Hbuilt w1 _ _ _ _ Hw1).
Qed.

(** The engine is called once, on the temporary file or on the converted
    one, with the language [lang]. *)
Lemma model_transcribe_phase (h : Handle) (audio_path : string) (s : Stage) (p : string)
    (w : World) :
  (stage_rank s <= stage_rank Built)%nat ->
  audio_path = p \/ audio_path = output_path_of p ->
  at_ph (PAt s p) w ->
  at_ph (PAt Transcribed p) (snd (model_transcribe env h audio_path lang w)).
Proof.
  intros Hs Hp H. unfold model_transcribe.
  pose proof (at_phase_log _ _ _ w
                (step_engine sfx lang s p audio_path h (fs w !! audio_path) Hs Hp) H) as H1.
  destruct (engine env (clock w) h audio_path (fs w !! audio_path) lang)
    as [e | segs [e|] i]; exact H1.
Qed.

Lemma unlink_phase (ph ph' : Phase) (q : string) (w : World) :
  call_step sfx lang ph (EvUnlink q) ph' ->
  at_ph ph w -> at_ph ph' (unlink_quietly env q w).
Proof.
  intros Hs H. unfold unlink_quietly, unlink.
  pose proof (at_phase_log _ _ _ w Hs H) as H1.
  destruct (fs w !! q); [destruct (os_unlink env (clock w) q)|]; exact H1.
Qed.

Lemma ready_at (s : Stage) (p : string) (c : option string) (w : World) :
  p <> "" -> (stage_rank s <= stage_rank Transcribed)%nat ->
  c = None \/ c = Some p \/ c = Some (output_path_of p) ->
  at_ph (PAt s p) w ->
  ready_for_cleanup (mkFrame w (Some p) c).
Proof. intros Hp Hs Hc H. exists (PAt s p). simpl. eauto 10. Qed.

(** The body of the [try] block makes its calls in order. *)
Lemma transcribe_try_phase (audio_data model_name file_format : json) :
  sfx = suffix_of env file_format ->
  hoare (fun fr => at_ph PStart (world fr) /\ tmp_path fr = None /\ converted_path fr = None)
    (transcribe_try env audio_data model_name lang file_format)
    (fun _ => ready_for_cleanup) (fun _ => ready_for_cleanup).
Proof.
  intros Hsfx. unfold transcribe_try. rewrite <- Hsfx.
  assert (Hnone : forall ph w, at_ph ph w -> (phase_rank ph <= stage_rank Closed)%nat ->
                    ready_for_cleanup (mkFrame w None None)).
  { intros ph w H Hr. exists ph. simpl. auto. }
  apply hoare_bind_result.
  2:{ intros e _ [w t c] (H & Ht & Hc). simpl in *. subst t c.
      apply (Hnone PStart w H). simpl. lia. }
  intros audio_bytes _.
  eapply hoare_bind with
    (R := fun tmp_file fr => tmp_file <> "" /\ at_ph PCreated (world fr)
                             /\ tmp_path fr = None /\ converted_path fr = None).
  { intros fr (H & Ht & Hc). rewrite lift_run.
    pose proof (NamedTemporaryFile_phase (world fr) H) as Hn.
    destruct (NamedTemporaryFile env sfx (world fr)) as [[tmp_file|e] w']; simpl in *.
    - tauto.
    - rewrite Ht, Hc. apply (Hnone PCreated w' Hn). simpl. lia. }
  intros tmp_file.
  eapply hoare_bind with
    (R := fun _ fr => tmp_file <> "" /\ at_ph (PAt Closed tmp_file) (world fr)
                      /\ tmp_path fr = Some tmp_file /\ converted_path fr = None).
  { eapply hoare_with_block with
      (Q := fun _ fr => tmp_file <> "" /\ at_ph (PWritten tmp_file) (world fr)
                        /\ tmp_path fr = Some tmp_file /\ converted_path fr = None)
      (R := fun _ fr => at_ph (PWritten tmp_file) (world fr)
                        /\ tmp_path fr = None /\ converted_path fr = None).
    - eapply hoare_bind with
        (R := fun _ fr => tmp_file <> "" /\ at_ph (PWritten tmp_file) (world fr)
                          /\ tmp_path fr = None /\ converted_path fr = None).
      + intros fr (Hne & H & Ht & Hc). rewrite lift_run.
        pose proof (file_write_phase tmp_file audio_bytes (world fr) H) as Hw.
        destruct (file_write env tmp_file audio_bytes (world fr)) as [[u|e] w']; simpl in *;
          tauto.
      + intros ? fr (Hne & H & Ht & Hc). unfold set_tmp_path. simpl. auto.
    - intros ? fr (Hne & H & Ht & Hc). rewrite lift_run.
      pose proof (file_close_phase tmp_file (world fr) H) as Hcl.
      destruct (file_close env tmp_file (world fr)) as [[u|e] w']; simpl in *.
      + auto.
      + rewrite Ht. apply (ready_at Closed tmp_file (converted_path fr));
          [exact Hne | simpl; lia | auto | exact Hcl].
    - intros ? fr (H & Ht & Hc). rewrite lift_run.
      pose proof (file_close_phase tmp_file (world fr) H) as Hcl.
      destruct (file_close env tmp_file (world fr)) as [[u|e'] w']; simpl in *;
        rewrite Ht, Hc; apply (Hnone (PAt Closed tmp_file) w' Hcl); simpl; lia. }
  intros ?.
  apply hoare_bind_result.
  2:{ intros e _ fr (Hne & H & Ht & Hc). destruct fr as [w t c]. simpl in *. subst t c.
      apply (ready_at Closed tmp_file None); [exact Hne | simpl; lia | auto | exact H]. }
  intros convert _.
  eapply hoare_bind with
    (R := fun audio_path fr =>
            (audio_path = tmp_file \/ audio_path = output_path_of tmp_file)
            /\ tmp_file <> "" /\ tmp_path fr = Some tmp_file
            /\ (converted_path fr = None \/ converted_path fr = Some tmp_file
                \/ converted_path fr = Some (output_path_of tmp_file))
            /\ exists s, (stage_rank s <= stage_rank Converted)%nat
                         /\ at_ph (PAt s tmp_file) (world fr)).
  { destruct convert.
    - intros fr (Hne & H & Ht & Hc). unfold bind. rewrite lift_run.
      pose proof (convert_to_wav_phase tmp_file (world fr) H) as Hcv.
      destruct (convert_to_wav env tmp_file (world fr)) as [[c|e] w'].
      2:{ destruct Hcv as (s & Hs & Hat). cbn [fst snd]. rewrite Ht.
          apply (ready_at s tmp_file (converted_path fr));
            [exact Hne | simpl in *; lia | auto | exact Hat]. }
      destruct Hcv as (Hcp & s & Hs & Hat). unfold set_converted_path, ret. simpl.
      split; [destruct (String.eqb_spec c tmp_file); auto|].
      repeat split; auto.
      + destruct Hcp as [-> | ->]; auto.
      + eauto.
    - intros fr (Hne & H & Ht & Hc). unfold ret. repeat split; auto.
      exists Closed. split; [simpl; lia | exact H]. }
  intros audio_path.
  eapply hoare_bind with
    (R := fun _ fr =>
            (audio_path = tmp_file \/ audio_path = output_path_of tmp_file)
            /\ tmp_file <> "" /\ tmp_path fr = Some tmp_file
            /\ (converted_path fr = None \/ converted_path fr = Some tmp_file
                \/ converted_path fr = Some (output_path_of tmp_file))
            /\ exists s, (stage_rank s <= stage_rank Built)%nat
                         /\ at_ph (PAt s tmp_file) (world fr)).
  { intros fr (Hap & Hne & Ht & Hc & s & Hs & H). rewrite lift_run.
    destruct (get_model_phase model_name s tmp_file (world fr) Hs H) as (s' & Hs' & H').
    destruct (fst (get_model env model_name (world fr))); simpl.
    - repeat split; eauto.
    - rewrite Ht. apply (ready_at s' tmp_file (converted_path fr));
        [exact Hne | simpl in *; lia | exact Hc | exact H']. }
  intros whisper_model.
  eapply hoare_bind with (R := fun _ => ready_for_cleanup).
  { intros fr (Hap & Hne & Ht & Hc & s & Hs & H). rewrite lift_run.
    pose proof (model_transcribe_phase whisper_model audio_path s tmp_file (world fr) Hs Hap H)
      as H'.
    assert (Hr : ready_for_cleanup
                   (mkFrame (snd (model_transcribe env whisper_model audio_path lang (world fr)))
                      (tmp_path fr) (converted_path fr))).
    { rewrite Ht. apply (ready_at Transcribed tmp_file (converted_path fr));
        [exact Hne | simpl; lia | exact Hc | exact H']. }
    destruct (fst (model_transcribe env whisper_model audio_path lang (world fr))); exact Hr. }
  intros [segments_list info] fr H. unfold lift_result.
  destruct (JSONResponse_init _); exact H.
Qed.

(** After the [finally] block: nothing was recorded and nothing is
    unlinked, or the temporary file has been unlinked and, when it is
    distinct, the converted file after it. *)
Lemma cleanup_phase (fr : Frame) :
  ready_for_cleanup fr ->
  exists ph, at_ph ph (cleanup env fr)
    /\ ((phase_rank ph <= stage_rank Closed)%nat
        \/ exists p, ph = PAt Unlinked1 p \/ ph = PAt Unlinked2 p).
Proof.
  intros (ph & H & Hfr). unfold cleanup.
  assert (Htruthy : forall s, s <> "" -> negb (String.eqb s "") = true).
  { intros s Hs. destruct (String.eqb_spec s ""); [contradiction | reflexivity]. }
  destruct (tmp_path fr) as [p|] eqn:Et.
  - destruct Hfr as (Hne & (s & -> & Hs) & Hc).
    simpl. rewrite (Htruthy p Hne).
    pose proof (unlink_phase _ _ p (world fr) (step_unlink1 sfx lang s p Hs) H) as H1.
    destruct Hc as [-> | [-> | ->]].
    + exists (PAt Unlinked1 p). eauto.
    + simpl. rewrite (Htruthy p Hne). rewrite bool_decide_eq_true_2 by reflexivity.
      simpl. exists (PAt Unlinked1 p). eauto.
    + simpl. rewrite (Htruthy _ (output_path_of_nonempty p)).
      rewrite bool_decide_eq_false_2.
      2:{ intros [= Heq]. apply (output_path_of_neq p Heq). }
      simpl. exists (PAt Unlinked2 p). split; [|eauto].
      apply (unlink_phase (PAt Unlinked1 p)); [apply step_unlink2 | exact H1].
  - destruct Hfr as [-> Hr]. exists ph. auto.
Qed.

End CallOrder.

(** The calls of a request lead to a phase in which nothing is left to
    unlink. *)
Lemma transcribe_calls_reach (env : Env) (request : Request) (w : World) :
  exists evs ph,
    logged_since w (snd (transcribe env request w)) evs
    /\ calls_reach (suffix_of env (get_default request "format" (JStr "ogg")))
         (language_hint request) evs ph
    /\ ((phase_rank ph <= stage_rank Closed)%nat
        \/ exists p, ph = PAt Unlinked1 p \/ ph = PAt Unlinked2 p).
Proof.
  unfold transcribe, logged_since.
  destruct (negb (truthy (get request "audio"))).
  { exists [], PStart. simpl. split; [reflexivity|]. split; [constructor | left; lia]. }
  fold (language_hint request). unfold transcribe_protected.
  set (sfx := suffix_of env (get_default request "format" (JStr "ogg"))).
  match goal with |- context [transcribe_try env ?a ?m ?l ?f ?fr] =>
    pose proof (transcribe_try_phase env sfx l (trace w) a m f eq_refl fr) as H;
    destruct (transcribe_try env a m l f fr) as [[response|e] fr']
  end; simpl in *;
    (destruct (cleanup_phase env sfx (language_hint request) (trace w) fr') as (ph & (evs & Ht & Hr) & Hend);
     [apply H; repeat split; exists []; split; [reflexivity | constructor] | eauto]).
Qed.

Section CallsReach.

Variable sfx : string.
Variable lang : json.

Local Open Scope nat_scope.

Lemma call_step_rank (ph ph' : Phase) (ev : Event) :
  call_step sfx lang ph ev ph' ->
  phase_rank ph < phase_rank ph'
  /\ call_rank ev <= phase_rank ph'
  /\ phase_rank ph <= call_rank ev
  /\ (is_unlink ev = false -> phase_rank ph < call_rank ev).
Proof.
  intros H. destruct H; simpl in *; repeat split; try lia; try discriminate.
Qed.

(** Every call made so far has its place at or before the phase reached. *)
Lemma calls_reach_rank (evs : list Event) (ph : Phase) :
  calls_reach sfx lang evs ph -> forall e, e ∈ evs -> call_rank e <= phase_rank ph.
Proof.
  induction 1 as [|evs ph ph' ev Hr IH Hs]; intros e He.
  - inversion He.
  - destruct (call_step_rank ph ph' ev Hs) as (Hlt & Hev & _).
    apply elem_of_cons in He as [-> | He]; [exact Hev|].
    specialize (IH e He). lia.
Qed.

Lemma calls_reach_in_order (evs : list Event) (ph : Phase) :
  calls_reach sfx lang evs ph -> in_call_order evs.
Proof.
  induction 1 as [|evs ph ph' ev Hr IH Hs]; simpl; [exact I|].
  split; [|exact IH]. intros e He.
  pose proof (calls_reach_rank evs ph Hr e He) as Hrank.
  destruct (call_step_rank ph ph' ev Hs) as (_ & _ & Hle & Hlt).
  split; [lia | intros Hu; specialize (Hlt Hu); lia].
Qed.

(** A kind of call with a place of its own occurs at most once. *)
Lemma in_call_order_once (f : Event -> bool) (k : nat) (evs : list Event) :
  (forall e, f e = true -> call_rank e = k /\ is_unlink e = false) ->
  in_call_order evs -> length (List.filter f evs) <= 1.
Proof.
  intros Hf. induction evs as [|ev evs IH]; simpl; [lia|].
  intros [Hall Hrest]. specialize (IH Hrest).
  destruct (f ev) eqn:Hev; [|exact IH]. simpl.
  destruct (Hf ev Hev) as [Hk Hu].
  assert (Hnone : List.filter f evs = []).
  { clear IH. induction evs as [|e evs IHe]; [reflexivity|]. simpl.
    destruct (f e) eqn:He.
    - destruct (Hf e He) as [Hke _].
      destruct (Hall e ltac:(left)) as [_ Hlt]. specialize (Hlt Hu). lia.
    - apply IHe.
      + intros e' He'. apply Hall. right. exact He'.
      + destruct Hrest as [_ Hrest]. exact Hrest. }
  rewrite Hnone. simpl. lia.
Qed.

(** [os.unlink] is called as often as the phase reached says. *)
Lemma calls_reach_unlinks (evs : list Event) (ph : Phase) :
  calls_reach sfx lang evs ph ->
  length (List.filter is_unlink evs) = phase_rank ph - stage_rank Transcribed.
Proof.
  induction 1 as [|evs ph ph' ev Hr IH Hs]; [reflexivity|].
  simpl. destruct Hs; simpl in *; try (rewrite IH; lia).
Qed.

(** The engine is only ever given the language [lang]. *)
Lemma calls_reach_language (evs : list Event) (ph : Phase) :
  calls_reach sfx lang evs ph ->
  forall h audio_path content l, EvEngine h audio_path content l ∈ evs -> l = lang.
Proof.
  induction 1 as [|evs ph ph' ev Hr IH Hs]; intros h ap c l He.
  - inversion He.
  - apply elem_of_cons in He as [He | He]; [|apply (IH h ap c l He)].
    destruct Hs; try discriminate. injection He as _ _ _ ->. reflexivity.
Qed.

(** A membership in the calls so far extended by one: the new call, or
    one the induction hypothesis speaks of. *)
Ltac step_member :=
  match goal with
  | Hq : _ ∈ _ :: _ |- _ =>
      apply elem_of_cons in Hq as [Hq | Hq];
      [ try discriminate; injection Hq; intros; subst; auto
      | first [ solve [eauto]
              | match goal with
                | Hf : forall _ _ _, _ ∈ _ -> _ /\ _ |- _ =>
                    destruct (Hf _ _ _ Hq); solve [auto]
                end ] ]
  end.

(** The paths of the calls are the temporary file of the phase reached
    and its converted sibling. *)
Lemma calls_reach_paths (evs : list Event) (ph : Phase) :
  calls_reach sfx lang evs ph ->
  match ph with
  | PStart | PCreated => forall e, e ∈ evs -> exists s, e = EvMkTemp s
  | PWritten p | PAt _ p =>
      EvWrite p ∈ evs
      /\ (forall q, EvUnlink q ∈ evs -> q = p \/ q = output_path_of p)
      /\ (forall h audio_path content l,
            EvEngine h audio_path content l ∈ evs ->
            audio_path = p \/ audio_path = output_path_of p)
      /\ (forall ffmpeg_path i o,
            EvFfmpeg ffmpeg_path i o ∈ evs -> i = p /\ o = output_path_of p)
      /\ (forall q, EvWrite q ∈ evs -> q = p)
      /\ (stage_rank Unlinked1 <= phase_rank ph -> EvUnlink p ∈ evs)
  end.
Proof.
  induction 1 as [|evs ph ph' ev Hr IH Hs].
  - intros e He. inversion He.
  - destruct Hs; simpl in *.
    + intros e He. apply elem_of_cons in He as [-> | He]; eauto.
    + split; [apply elem_of_cons; auto|].
      repeat split; intros; try lia;
        match goal with
        | Hq : _ ∈ _ :: _ |- _ =>
            apply elem_of_cons in Hq as [Hq | Hq];
            [ try discriminate; injection Hq as ->; reflexivity
            | destruct (IH _ Hq) as [? Heq]; discriminate Heq ]
        end.
    + destruct IH as (Hw & Hu & He & Hf & Hw' & _).
      split; [apply elem_of_cons; auto|]. repeat split; intros; try lia; step_member.
    + destruct IH as (Hw & Hu & He & Hf & Hw' & _).
      split; [apply elem_of_cons; auto|]. repeat split; intros; try lia; step_member.
    + destruct IH as (Hw & Hu & He & Hf & Hw' & _).
      split; [apply elem_of_cons; auto|]. repeat split; intros; try lia; step_member.
    + destruct IH as (Hw & Hu & He & Hf & Hw' & _).
      split; [apply elem_of_cons; auto|]. repeat split; intros; try lia; step_member.
    + destruct IH as (Hw & Hu & He & Hf & Hw' & _).
      split; [apply elem_of_cons; auto|]. repeat split; intros; try lia; step_member.
    + destruct IH as (Hw & Hu & He & Hf & Hw' & _).
      split; [apply elem_of_cons; auto|]. repeat split; intros; try lia; step_member.
    + destruct IH as (Hw & Hu & He & Hf & Hw' & _).
      split; [apply elem_of_cons; auto|].
      repeat split; intros; try step_member. apply elem_of_cons. auto.
    + destruct IH as (Hw & Hu & He & Hf & Hw' & Hun).
      split; [apply elem_of_cons; auto|].
      repeat split; intros; try step_member. apply elem_of_cons. right. apply Hun. lia.
Qed.

End CallsReach.

(** The handler reads four fields of the request, and nothing else. *)
Lemma transcribe_fields (env : Env) (r1 r2 : Request) (w : World) :
  get r1 "audio" = get r2 "audio" ->
  get_default r1 "model" (JStr (DEFAULT_MODEL env))
  = get_default r2 "model" (JStr (DEFAULT_MODEL env)) ->
  language_hint r1 = language_hint r2 ->
  get_default r1 "format" (JStr "ogg") = get_default r2 "format" (JStr "ogg") ->
  transcribe env r1 w = transcribe env r2 w.
Proof.
  intros Ha Hm Hl Hf. unfold transcribe.
  fold (language_hint r1). fold (language_hint r2).
  rewrite Ha, Hm, Hl, Hf. reflexivity.
Qed.

(** The external calls of a [/transcribe] request come in the order of the
    handler's text and none is repeated: ffmpeg is run at most once, the
    [WhisperModel] constructor and the engine are called at most once, and
    [os.unlink] at most twice. *)
Theorem request_calls_in_order (env : Env) (request : Request) (w : World) :
  exists evs,
    logged_since w (snd (transcribe env request w)) evs
    /\ in_call_order evs
    /\ (length (List.filter is_ffmpeg_run evs) <= 1)%nat
    /\ (length (List.filter is_model_init evs) <= 1)%nat
    /\ (length (List.filter is_engine_call evs) <= 1)%nat
    /\ (length (List.filter is_unlink evs) <= 2)%nat.
Proof.
  destruct (transcribe_calls_reach env request w) as (evs & ph & Hlog & Hr & Hend).
  pose proof (calls_reach_in_order _ _ evs ph Hr) as Hord.
  exists evs. split; [exact Hlog|]. split; [exact Hord|].
  split; [|split; [|split]].
  - apply (in_call_order_once is_ffmpeg_run 5); [|exact Hord].
    intros [] He; try discriminate. auto.
  - apply (in_call_order_once is_model_init 7); [|exact Hord].
    intros [] He; try discriminate. auto.
  - apply (in_call_order_once is_engine_call 8); [|exact Hord].
    intros [] He; try discriminate. auto.
  - rewrite (calls_reach_unlinks _ _ evs ph Hr).
    destruct Hend as [Hle | [p [-> | ->]]]; simpl in *; lia.
Qed.

(** The engine is only ever given the language of the request with
    ["auto"] and [""] replaced by [None]; it is never given ["auto"] or
    [""].  A request whose [language] is ["auto"], [""] or null is handled
    exactly as one without the field. *)
Theorem language_auto_means_unspecified (env : Env) (request : Request) (w : World) :
  (exists evs,
     logged_since w (snd (transcribe env request w)) evs
     /\ forall h audio_path content l,
          EvEngine h audio_path content l ∈ evs ->
          l = language_hint request /\ l <> JStr "auto" /\ l <> JStr "")
  /\ transcribe env (<["language" := JStr "auto"]> request) w
     = transcribe env (delete "language" request) w
  /\ transcribe env (<["language" := JStr ""]> request) w
     = transcribe env (delete "language" request) w
  /\ transcribe env (<["language" := JNull]> request) w
     = transcribe env (delete "language" request) w.
Proof.
  split.
  - destruct (transcribe_calls_reach env request w) as (evs & ph & Hlog & Hr & _).
    exists evs. split; [exact Hlog|]. intros h ap c l He.
    rewrite (calls_reach_language _ _ evs ph Hr h ap c l He).
    split; [reflexivity|]. unfold language_hint.
    destruct (in_strs (get request "language") ["auto"; ""]) eqn:Hin;
      [split; discriminate|].
    split; intros Heq; rewrite Heq in Hin; discriminate.
  - assert (Hsame : forall v, in_strs v ["auto"; ""] = true \/ v = JNull ->
              transcribe env (<["language" := v]> request) w
              = transcribe env (delete "language" request) w).
    { intros v Hv. apply transcribe_fields; unfold get, get_default, language_hint, get.
      - rewrite lookup_insert_ne, lookup_delete_ne by discriminate. reflexivity.
      - rewrite lookup_insert_ne, lookup_delete_ne by discriminate. reflexivity.
      - rewrite lookup_insert_eq, lookup_delete_eq. cbn [default]. unfold id.
        destruct Hv as [Hv | ->]; [rewrite Hv|]; reflexivity.
      - rewrite lookup_insert_ne, lookup_delete_ne by discriminate. reflexivity. }
    repeat split; apply Hsame; auto.
Qed.

(** The paths a request hands to its collaborators are its own: ffmpeg
    is run on the temporary file that was written and told to write its
    converted sibling; the engine reads one of these two; [os.unlink] is
    called on nothing else; and once any call has been made after closing
    the temporary file, that file is unlinked before the request ends. *)
Theorem request_works_on_its_own_files (env : Env) (request : Request) (w : World) :
  exists evs,
    logged_since w (snd (transcribe env request w)) evs
    /\ (forall ffmpeg_path i o,
          EvFfmpeg ffmpeg_path i o ∈ evs -> EvWrite i ∈ evs /\ o = output_path_of i)
    /\ (forall h audio_path content l,
          EvEngine h audio_path content l ∈ evs ->
          exists p, EvWrite p ∈ evs /\ (audio_path = p \/ audio_path = output_path_of p))
    /\ (forall q, EvUnlink q ∈ evs ->
          exists p, EvWrite p ∈ evs /\ (q = p \/ q = output_path_of p))
    /\ (forall e, e ∈ evs -> (stage_rank Looked <= call_rank e)%nat ->
          exists p, EvWrite p ∈ evs /\ EvUnlink p ∈ evs).
Proof.
  destruct (transcribe_calls_reach env request w) as (evs & ph & Hlog & Hr & Hend).
  pose proof (calls_reach_paths _ _ evs ph Hr) as Hp.
  pose proof (calls_reach_rank _ _ evs ph Hr) as Hrank.
  exists evs. split; [exact Hlog|].
  destruct ph as [| |p|s p].
  - repeat split; intros;
      match goal with
      | H : ?e ∈ evs |- _ =>
          first [ destruct (Hp _ H) as [? Heq]; discriminate Heq
                | specialize (Hrank _ H); simpl in *; lia ]
      end.
  - repeat split; intros;
      match goal with
      | H : ?e ∈ evs |- _ =>
          first [ destruct (Hp _ H) as [? Heq]; discriminate Heq
                | specialize (Hrank _ H); simpl in *; lia ]
      end.
  - destruct Hp as (Hw & Hu & He & Hf & Hw' & _).
    split; [|split; [|split]].
    + intros ff i o H. destruct (Hf ff i o H) as [-> ->]. auto.
    + intros h ap c l H. exists p. eauto.
    + intros q H. exists p. eauto.
    + intros e H Hge. specialize (Hrank _ H). simpl in *. lia.
  - destruct Hp as (Hw & Hu & He & Hf & Hw' & Hun).
    split; [|split; [|split]].
    + intros ff i o H. destruct (Hf ff i o H) as [-> ->]. auto.
    + intros h ap c l H. exists p. eauto.
    + intros q H. exists p. eauto.
    + intros e H Hge. exists p. split; [exact Hw|]. apply Hun.
      specialize (Hrank _ H).
      destruct Hend as [Hle | [p' [[= -> ->] | [= -> ->]]]]; simpl in *; lia.
Qed.

(** ** Defaults of the request fields *)

Lemma bind_ext {S A B} (m m' : St S A) (k k' : A -> St S B) :
  (forall s, m s = m' s) -> (forall a s, k a s = k' a s) ->
  forall s, bind m k s = bind m' k' s.
Proof.
  intros Hm Hk s. unfold bind. rewrite Hm.
  destruct (m' s) as [[a|e] s']; [apply Hk | reflexivity].
Qed.

(** The handler sees its [model] argument only through the name it
    resolves to. *)
Lemma transcribe_protected_model (env : Env) (audio_data m1 m2 lang file_format : json)
    (w : World) :
  resolve_model_name env m1 = resolve_model_name env m2 ->
  transcribe_protected env audio_data m1 lang file_format w
  = transcribe_protected env audio_data m2 lang file_format w.
Proof.
  intros Hr. unfold transcribe_protected.
  assert (H : forall fr, transcribe_try env audio_data m1 lang file_format fr
                         = transcribe_try env audio_data m2 lang file_format fr).
  { unfold transcribe_try.
    do 5 (apply bind_ext; [reflexivity | intros ? ?]).
    apply bind_ext; [|reflexivity].
    intros fr. unfold lift. rewrite (get_model_resolve env m1 m2 _ Hr). reflexivity. }
  rewrite H. reflexivity.
Qed.

(** A request whose [model] is not one of [AVAILABLE_MODELS] (an unknown
    name, null, a number, ...) is handled exactly as a request without the
    field and exactly as one that names the configured default; a request
    without [format] is handled exactly as one with format ["ogg"]. *)
Theorem request_defaults (env : Env) (request : Request) (v : json) (w : World) :
  in_strs v AVAILABLE_MODELS = false ->
  transcribe env (<["model" := v]> request) w
  = transcribe env (delete "model" request) w
  /\ transcribe env (<["model" := v]> request) w
     = transcribe env (<["model" := JStr (DEFAULT_MODEL env)]> request) w
  /\ transcribe env (delete "format" request) w
     = transcribe env (<["format" := JStr "ogg"]> request) w.
Proof.
  intros Hv.
  assert (Hmodel : forall (r1 r2 : Request) m1 m2,
            get r1 "audio" = get r2 "audio" ->
            language_hint r1 = language_hint r2 ->
            get_default r1 "format" (JStr "ogg") = get_default r2 "format" (JStr "ogg") ->
            get_default r1 "model" (JStr (DEFAULT_MODEL env)) = m1 ->
            get_default r2 "model" (JStr (DEFAULT_MODEL env)) = m2 ->
            resolve_model_name env m1 = resolve_model_name env m2 ->
            transcribe env r1 w = transcribe env r2 w).
  { intros r1 r2 m1 m2 Ha Hl Hf H1 H2 Hr. unfold transcribe.
    fold (language_hint r1). fold (language_hint r2).
    rewrite Ha, Hl, Hf, H1, H2.
    destruct (negb (truthy (get r2 "audio"))); [reflexivity|].
    rewrite (transcribe_protected_model env _ m1 m2 _ _ w Hr). reflexivity. }
  pose proof (resolve_model_name_unsupported env v Hv) as Hrv.
  split; [|split].
  - apply (Hmodel _ _ v (JStr (DEFAULT_MODEL env)));
      unfold get, get_default, language_hint, get;
      rewrite ?lookup_insert_eq, ?lookup_delete_eq,
        ?lookup_insert_ne, ?lookup_delete_ne by discriminate;
      try reflexivity.
    rewrite Hrv, resolve_model_name_default. reflexivity.
  - apply (Hmodel _ _ v (JStr (DEFAULT_MODEL env)));
      unfold get, get_default, language_hint, get;
      rewrite ?lookup_insert_eq, ?lookup_insert_ne by discriminate;
      try reflexivity.
    rewrite Hrv, resolve_model_name_default. reflexivity.
  - apply transcribe_fields; unfold get, get_default, language_hint, get;
      rewrite ?lookup_insert_eq, ?lookup_delete_eq,
        ?lookup_insert_ne, ?lookup_delete_ne by discriminate;
      reflexivity.
Qed.

Lemma request_defaults_witness :
  transcribe Sample.env (<["model" := JInt 7]> Sample.req_wav) Sample.w0
  = transcribe Sample.env (delete "model" Sample.req_wav) Sample.w0.
Proof.
  apply (request_defaults Sample.env Sample.req_wav (JInt 7) Sample.w0 eq_refl).
Defined.

(** ** More on the payload *)

(** Only what stands between the first and the second comma is decoded:
    whatever follows a second comma is dropped. *)
Theorem data_url_second_piece (prefix payload rest : string) :
  PyStr.contains comma prefix = false ->
  PyStr.contains comma payload = false ->
  decode_audio (JStr (prefix +:+ String comma (payload +:+ String comma rest)))
  = Base64.b64decode payload.
Proof.
  intros Hp Hq. unfold decode_audio, strip_data_url.
  rewrite contains_append, Hp. simpl.
  rewrite (split_at_first comma prefix _ Hp), (split_at_first comma payload rest Hq).
  reflexivity.
Qed.

Lemma data_url_second_piece_witness :
  decode_audio (JStr ("data:audio/ogg;base64" +:+ String comma ("aGk=" +:+ String comma "!!")))
  = Ok [104; 105].
Proof.
  rewrite (data_url_second_piece "data:audio/ogg;base64" "aGk=" "!!" eq_refl eq_refl).
  reflexivity.
Defined.

(** An [audio] value that is present and counts as true but is not a
    string (a number, [true], a non-empty list or object) is answered with
    HTTP 500, carrying a [TypeError] or an [AttributeError]; nothing is
    created or changed. *)
Theorem non_string_audio_is_500 (env : Env) (request : Request) (v : json) (w : World) :
  (forall s, v <> JStr s) -> truthy v = true ->
  exists e,
    transcribe env (<["audio" := v]> request) w = (HTTPException 500 (DetailOfExn e), w)
    /\ ((exists what, e = TypeError what) \/ (exists what, e = AttributeError what)).
Proof.
  intros Hns Ht.
  assert (Hd : exists e, decode_audio v = Raise e
                         /\ ((exists what, e = TypeError what)
                             \/ (exists what, e = AttributeError what))).
  { unfold decode_audio, strip_data_url. destruct v as [| b | z | f | s | items | fields].
    - discriminate.
    - eauto.
    - eauto.
    - eauto.
    - destruct (Hns s eq_refl).
    - destruct (existsb _ items); eauto.
    - destruct (existsb _ fields); eauto. }
  destruct Hd as (e & Hd & He). exists e. split; [|exact He].
  apply transcribe_decode_error; unfold get; rewrite lookup_insert_eq; assumption.
Qed.

Lemma non_string_audio_is_500_witness :
  exists e,
    transcribe Sample.env (<["audio" := JInt 5]> Sample.req_wav) Sample.w0
    = (HTTPException 500 (DetailOfExn e), Sample.w0)
    /\ ((exists what, e = TypeError what) \/ (exists what, e = AttributeError what)).
Proof.
  apply (non_string_audio_is_500 Sample.env Sample.req_wav (JInt 5) Sample.w0).
  - discriminate.
  - reflexivity.
Defined.

(** ** The converted path *)

Section OutputPath.

Lemma rsplit1_head_last (sep : ascii) (stem ext : string) :
  PyStr.contains sep ext = false ->
  PyStr.rsplit1_head sep (stem +:+ String sep ext) = stem.
Proof.
  intros He. induction stem as [|c stem IH].
  - change ("" +:+ String sep ext) with (String sep ext). simpl.
    rewrite Ascii.eqb_refl, He. reflexivity.
  - change (String c stem +:+ String sep ext) with (String c (stem +:+ String sep ext)).
    cbn [PyStr.rsplit1_head].
    rewrite contains_append. simpl. rewrite Ascii.eqb_refl, orb_true_r, andb_false_r.
    rewrite IH. reflexivity.
Qed.

Lemma rsplit1_head_none (sep : ascii) (s : string) :
  PyStr.contains sep s = false -> PyStr.rsplit1_head sep s = s.
Proof.
  induction s as [|c s IH]; [reflexivity|]. simpl.
  destruct (Ascii.eqb c sep); [discriminate|]. intros H. simpl. rewrite (IH H). reflexivity.
Qed.

(** Lowering a character neither makes nor unmakes a dot. *)
Lemma lower_char_dot (c : ascii) :
  Ascii.eqb (PyStr.lower_char c) dot = Ascii.eqb c dot.
Proof. destruct c as [[] [] [] [] [] [] [] []]; reflexivity. Qed.

Lemma contains_dot_lower (s : string) :
  PyStr.contains dot (PyStr.lower s) = PyStr.contains dot s.
Proof.
  induction s as [|c s IH]; [reflexivity|]. simpl.
  rewrite lower_char_dot, IH. reflexivity.
Qed.

Lemma convert_format_no_dot (f : string) :
  PyStr.lower f ∈ CONVERT_FORMATS -> PyStr.contains dot f = false.
Proof.
  intros H. rewrite <- contains_dot_lower.
  unfold CONVERT_FORMATS in H.
  repeat (apply elem_of_cons in H as [-> | H]; [reflexivity|]).
  inversion H.
Qed.

End OutputPath.

(** The converted path is the input path with its last extension
    replaced by [_converted.wav], or with [_converted.wav] appended when
    the path has no dot.  For the temporary file of a request whose format
    calls for conversion, it is the sibling of that file with the same
    random name. *)
Theorem output_path_replaces_extension (env : Env) (stem ext random f : string) :
  PyStr.contains dot ext = false ->
  PyStr.lower f ∈ CONVERT_FORMATS ->
  output_path_of (stem +:+ String dot ext) = stem +:+ "_converted.wav"
  /\ output_path_of ext = ext +:+ "_converted.wav"
  /\ output_path_of (temp_name env random (suffix_of env (JStr f)))
     = tempdir env +:+ "/tmp" +:+ random +:+ "_converted.wav".
Proof.
  intros He Hf. unfold output_path_of. split; [|split].
  - rewrite (rsplit1_head_last dot stem ext He). reflexivity.
  - rewrite (rsplit1_head_none dot ext He). reflexivity.
  - unfold temp_name. cbn [suffix_of].
    change ("." +:+ f) with (String dot f). rewrite <- !append_assoc.
    rewrite (rsplit1_head_last dot _ f (convert_format_no_dot f Hf)). reflexivity.
Qed.

Lemma output_path_replaces_extension_witness :
  output_path_of ("/tmp/tmpk3x9ab_q" +:+ String dot "ogg") = "/tmp/tmpk3x9ab_q_converted.wav".
Proof.
  destruct (output_path_replaces_extension Sample.env "/tmp/tmpk3x9ab_q" "ogg" "k3x9ab_q" "OGG"
              eq_refl) as [H _].
  - apply (bool_decide_eq_true_1 _). vm_compute. reflexivity.
  - rewrite H. reflexivity.
Defined.

(** One end of [convert_to_wav]: the world is the old one with the
    converter's events logged and at most the converted file written. *)
Ltac conv_leaf :=
  cbn [snd fst];
  split; [first [left; reflexivity | right; eexists; split; reflexivity]|];
  split; [first [left; reflexivity | right; eexists; reflexivity]|];
  split; [first [reflexivity | apply lookup_insert_ne, output_path_of_neq]|];
  split; reflexivity.

(** What [convert_to_wav] does to the world: it looks ffmpeg up once and
    runs it at most once, on the input path and the converted path; the
    only file it can create or change is the converted one, so the input
    file is as it was; the registry is untouched. *)
Theorem convert_to_wav_effects (env : Env) (input_path : string) (w : World) :
  let w' := snd (convert_to_wav env input_path w) in
  (logged_since w w' [EvWhich]
   \/ exists ffmpeg_path,
        shutil_which_ffmpeg env (clock w) = Some ffmpeg_path
        /\ logged_since w w'
             [EvFfmpeg ffmpeg_path input_path (output_path_of input_path); EvWhich])
  /\ (fs w' = fs w \/ exists b, fs w' = <[output_path_of input_path := b]> (fs w))
  /\ fs w' !! input_path = fs w !! input_path
  /\ model_cache w' = model_cache w
  /\ current_model_name w' = current_model_name w.
Proof.
  intros w'. subst w'.
  unfold convert_to_wav, bind, shutil_which, try_except, subprocess_run,
    os_path_exists, stderr_decode, ret, raise, logged_since.
  destruct (shutil_which_ffmpeg env (clock w)) as [[|ch ff]|];
    [conv_leaf | | conv_leaf].
  destruct (ffmpeg env _ (String ch ff) input_path _) as [sp secs rc dec wr].
  ff_simpl.
  destruct sp as [e|]; ff_simpl; [destruct (is_Exception e); conv_leaf|].
  destruct (FFMPEG_TIMEOUT <? secs); ff_simpl; [destruct wr; conv_leaf|].
  destruct (rc =? 0); ff_simpl.
  - match goal with |- context [bool_decide ?P] => destruct (bool_decide P) end; ff_simpl.
    + destruct wr; conv_leaf.
    + destruct dec; ff_simpl; destruct wr; conv_leaf.
  - destruct dec; ff_simpl; destruct wr; conv_leaf.
Qed.

(** ** Paths a request touches *)

Section TouchedPaths.

Variable env : Env.
Variable files0 : gmap string bytes.

Lemma keeps_fs_touches_only {A} (p : string) (m : M A) : keeps_fs m -> touches_only p m.
Proof. intros H w q _ _. rewrite H. reflexivity. Qed.

Lemma file_write_touches (p : string) (data : bytes) : touches_only p (file_write env p data).
Proof.
  intros w q Hp _. unfold file_write.
  destruct (tmp_file_write env (clock w) p data); simpl; [reflexivity|].
  apply lookup_insert_ne. congruence.
Qed.

Lemma convert_to_wav_touches (p : string) : touches_only p (convert_to_wav env p).
Proof.
  intros w q _ Hq.
  unfold convert_to_wav, bind, shutil_which, try_except, subprocess_run,
    os_path_exists, stderr_decode, ret, raise.
  assert (Hins : forall b, (<[output_path_of p := b]> (fs w)) !! q = fs w !! q).
  { intros b. apply lookup_insert_ne. congruence. }
  destruct (shutil_which_ffmpeg env (clock w)) as [[|ch ff]|]; [reflexivity | | reflexivity].
  destruct (ffmpeg env _ (String ch ff) p _) as [sp secs rc dec wr].
  ff_simpl.
  destruct sp as [e|]; ff_simpl; [destruct (is_Exception e); reflexivity|].
  destruct (FFMPEG_TIMEOUT <? secs); ff_simpl; [destruct wr; simpl; auto|].
  destruct (rc =? 0); ff_simpl.
  - match goal with |- context [bool_decide ?P] => destruct (bool_decide P) end; ff_simpl.
    + destruct wr; simpl; auto.
    + destruct dec; ff_simpl; destruct wr; simpl; auto.
  - destruct dec; ff_simpl; destruct wr; simpl; auto.
Qed.

Lemma unlink_quietly_other (x q : string) (w : World) :
  q <> x -> fs (unlink_quietly env x w) !! q = fs w !! q.
Proof.
  intros Hq. unfold unlink_quietly, unlink.
  destruct (fs w !! x); [destruct (os_unlink env (clock w) x)|]; simpl; try reflexivity.
  apply lookup_delete_ne. congruence.
Qed.

Lemma lift_touched {A} (p : string) (m : M A) :
  touches_only p m -> stable (touched_at_most files0 p) (lift m).
Proof.
  intros Hm. apply stable_snd. intros fr (Hf & Ht & Hc). rewrite lift_run. simpl.
  split; [|auto]. simpl. intros q Hp Ho. rewrite (Hm (world fr) q Hp Ho). auto.
Qed.

(** From the moment the temporary file [tmp_file] exists, the rest of the
    [try] block touches nothing but it and its converted sibling. *)
Lemma after_creation_touched (audio_bytes : bytes) (tmp_file : string)
    (model_name lang file_format : json) :
  stable (touched_at_most files0 tmp_file)
    (with_block
       (lift (file_write env tmp_file audio_bytes) ;;; set_tmp_path tmp_file)
       (lift (file_close env tmp_file)) ;;;
     convert <- lift_result (needs_conversion file_format) ;;
     audio_path <-
       (if convert : bool then
          converted <- lift (convert_to_wav env tmp_file) ;;
          set_converted_path converted ;;;
          ret (if String.eqb converted tmp_file then tmp_file else converted)
        else ret tmp_file) ;;
     whisper_model <- lift (get_model env model_name) ;;
     transcribed <- lift (model_transcribe env whisper_model audio_path lang) ;;
     let '(segments_list, info) := transcribed in
     lift_result (JSONResponse_init
            (mkContent (full_text_of segments_list) (info_language info)
               (info_language_probability info) (info_duration info)))).
Proof.
  apply stable_bind.
  { apply stable_with_block.
    - apply stable_bind; [apply lift_touched, file_write_touches|].
      intros _. apply stable_snd. intros fr (Hf & Ht & Hc).
      unfold set_tmp_path. simpl. repeat split; auto.
    - apply lift_touched, keeps_fs_touches_only, file_close_keeps_fs. }
  intros _. apply stable_bind; [apply stable_lift_result|]. intros convert.
  apply stable_bind.
  { destruct convert; [|apply stable_ret].
    intros fr H. unfold bind. rewrite lift_run.
    pose proof (proj1 (stable_snd _ _) (lift_touched tmp_file _ (convert_to_wav_touches tmp_file))
                  fr H) as H'.
    rewrite lift_run in H'. simpl in H'.
    pose proof (convert_to_wav_returns env tmp_file (world fr)) as Hret.
    destruct (fst (convert_to_wav env tmp_file (world fr))) as [c|e]; [|exact H'].
    destruct Hret as [(c' & [= <-] & Hcp) | (e & [=] & _)].
    unfold set_converted_path, ret. simpl.
    destruct H' as (Hf & Ht & _). repeat split; auto.
    destruct Hcp as [-> | ->]; auto. }
  intros audio_path.
  apply stable_bind; [apply lift_touched, keeps_fs_touches_only, get_model_keeps_fs|].
  intros whisper_model.
  apply stable_bind; [apply lift_touched, keeps_fs_touches_only, model_transcribe_keeps_fs|].
  intros [segments_list info]. apply stable_lift_result.
Qed.

Lemma transcribe_try_touched (audio_data model_name lang file_format : json) :
  hoare (fun fr => fs (world fr) = files0 /\ tmp_path fr = None /\ converted_path fr = None)
    (transcribe_try env audio_data model_name lang file_format)
    (fun _ fr => exists p, touched_at_most files0 p fr)
    (fun _ fr => exists p, touched_at_most files0 p fr).
Proof.
  unfold transcribe_try.
  apply hoare_bind_result.
  2:{ intros e _ fr (Hf & Ht & Hc). exists "". unfold touched_at_most.
      rewrite Hf, Ht, Hc. auto. }
  intros audio_bytes _.
  eapply hoare_bind with (R := fun tmp_file => touched_at_most files0 tmp_file).
  { intros fr (Hf & Ht & Hc). rewrite lift_run. unfold NamedTemporaryFile.
    destruct (mkstemp env (clock (world fr)) (suffix_of env file_format)) as [random|e]; simpl.
    - unfold touched_at_most. simpl. rewrite Ht, Hc. repeat split; auto.
      intros q Hq _. rewrite lookup_insert_ne by congruence. rewrite Hf. reflexivity.
    - exists "". unfold touched_at_most. simpl. rewrite Hf, Ht, Hc. auto. }
  intros tmp_file.
  eapply hoare_conseq;
    [apply (after_creation_touched audio_bytes tmp_file model_name lang file_format) | ..];
    cbv beta; eauto.
Qed.

Lemma cleanup_touched (p : string) (fr : Frame) :
  touched_at_most files0 p fr ->
  forall q, q <> p -> q <> output_path_of p -> fs (cleanup env fr) !! q = files0 !! q.
Proof.
  intros (Hf & Ht & Hc) q Hp Ho. unfold cleanup.
  destruct Ht as [-> | ->], Hc as [-> | [-> | ->]]; simpl;
    repeat match goal with |- context [if ?b then _ else _] => destruct b end;
    rewrite ?unlink_quietly_other by assumption; auto.
Qed.

End TouchedPaths.


(** ** Failures of the pipeline *)

Section PipelineFailures.

Variable env : Env.
Hypothesis Hfiles : files_succeed env.
Hypothesis Hffmpeg : ffmpeg_raises_Exceptions env.

Lemma hoare_stable_no_raise {S A} (I : S -> Prop) (m : St S A) (E : exn -> S -> Prop) :
  stable I m -> no_raise m -> hoare I m (fun _ => I) E.
Proof.
  intros Hs Hn s HI. specialize (Hs s HI). specialize (Hn s Logic.I).
  destruct (m s) as [[a|e] s']; [exact Hs | contradiction].
Qed.

Lemma lift_no_raise {A} (m : M A) : no_raise m -> no_raise (lift m).
Proof.
  intros H fr _. rewrite lift_run. specialize (H (world fr) I).
  destruct (m (world fr)) as [[a|e] w']; exact H.
Qed.

Lemma NamedTemporaryFile_succeeds (sfx : string) : no_raise (NamedTemporaryFile env sfx).
Proof.
  intros w _. unfold NamedTemporaryFile.
  pose proof (proj1 Hfiles (clock w) sfx) as H.
  destruct (mkstemp env (clock w) sfx); [exact I | discriminate].
Qed.

Lemma with_file_succeeds (tmp_file : string) (audio_bytes : bytes) :
  no_raise (with_block
              (lift (file_write env tmp_file audio_bytes) ;;; set_tmp_path tmp_file)
              (lift (file_close env tmp_file))).
Proof.
  intros fr _. unfold with_block, bind, set_tmp_path. rewrite lift_run.
  unfold file_write. rewrite (proj1 (proj2 Hfiles)). cbn [fst snd].
  rewrite lift_run. unfold file_close. cbn [world].
  rewrite (proj2 (proj2 Hfiles)). exact I.
Qed.

(** The steps of the [try] block before the model is resolved keep a
    property of the registry and do not raise. *)
Lemma before_model_resolution (R : gmap string Handle -> option string -> Prop)
    (audio_data model_name lang : json) (file_format : string) (audio_bytes : bytes)
    (Q : Response -> Frame -> Prop) (E : exn -> Frame -> Prop) :
  decode_audio audio_data = Ok audio_bytes ->
  (forall audio_path,
     hoare (fun fr => on_registry R (world fr))
       (whisper_model <- lift (get_model env model_name) ;;
        transcribed <- lift (model_transcribe env whisper_model audio_path lang) ;;
        let '(segments_list, info) := transcribed in
        lift_result (JSONResponse_init
               (mkContent (full_text_of segments_list) (info_language info)
                  (info_language_probability info) (info_duration info))))
       Q E) ->
  hoare (fun fr => on_registry R (world fr))
    (transcribe_try env audio_data model_name lang (JStr file_format)) Q E.
Proof.
  intros Hd Hrest. unfold transcribe_try.
  apply hoare_bind_result; [|intros e He; rewrite Hd in He; discriminate].
  intros b _.
  eapply hoare_bind.
  { apply hoare_stable_no_raise;
      [apply stable_lift, NamedTemporaryFile_registry
      | apply lift_no_raise, NamedTemporaryFile_succeeds]. }
  intros tmp_file.
  eapply hoare_bind.
  { apply hoare_stable_no_raise; [|apply with_file_succeeds].
    apply stable_with_block; [|apply stable_lift, file_close_registry].
    apply stable_bind; [apply stable_lift, file_write_registry|].
    intros _ fr H. exact H. }
  intros ?.
  apply hoare_bind_result; [|intros e He; discriminate].
  intros convert _.
  eapply hoare_bind; [|intros audio_path; apply Hrest].
  destruct convert; [|intros fr H; exact H].
  eapply hoare_bind.
  { apply hoare_stable_no_raise;
      [apply stable_lift, convert_to_wav_registry
      | apply lift_no_raise, convert_to_wav_no_raise, Hffmpeg]. }
  intros converted.
  eapply hoare_bind with (R := fun _ fr => on_registry R (world fr));
    [intros fr H; exact H | intros ? fr H; exact H].
Qed.

End PipelineFailures.

(** A request served by collaborators that succeed calls the engine.  When
    that call fails with [e] (at the call or while its segments are
    consumed), the request is answered with HTTP 500 carrying [e] if [e] is
    an [Exception]; otherwise [e] leaves the handler as it is. *)
Theorem engine_failure_is_500 (env : Env) (request : Request) (w : World)
    (file_format : string) (audio_bytes : bytes) :
  collaborators_succeed env ->
  truthy (get request "audio") = true ->
  decode_audio (get request "audio") = Ok audio_bytes ->
  get_default request "format" (JStr "ogg") = JStr file_format ->
  exists evs outcome,
    logged_since w (snd (transcribe env request w)) evs
    /\ engine_called env w evs (language_hint request) outcome
    /\ forall e, fails_with outcome e ->
         (is_Exception e = true ->
          fst (transcribe env request w) = HTTPException 500 (DetailOfExn e))
         /\ (is_Exception e = false -> fst (transcribe env request w) = Uncaught e).
Proof.
  intros Hworks Htruthy Hdecode Hformat.
  destruct (transcribe_engine_call env request w file_format audio_bytes
              Hworks Htruthy Hdecode Hformat) as (evs & outcome & Hlog & Hcalled & Hr).
  exists evs, outcome. split; [exact Hlog|]. split; [exact Hcalled|].
  intros e Hfails. rewrite Hr.
  assert (Hresp : response_to outcome = except_Exception e).
  { destruct Hfails as [-> | (segs & info & ->)]; reflexivity. }
  rewrite Hresp. unfold except_Exception. split; intros ->; reflexivity.
Qed.

Lemma engine_failure_is_500_witness :
  fst (transcribe Sample.env_engine_fails Sample.req_wav Sample.w0)
  = HTTPException 500 (DetailOfExn (External "RuntimeError" "out of memory")).
Proof.
  destruct (engine_failure_is_500 Sample.env_engine_fails Sample.req_wav Sample.w0
              "wav" [104; 101; 108; 108; 111]
              ltac:(repeat split; try reflexivity; intros; discriminate)
              eq_refl eq_refl eq_refl)
    as (evs & outcome & _ & (after & before & h & p & content & _ & Hout) & H).
  apply (H (External "RuntimeError" "out of memory")); [|reflexivity].
  left. exact Hout.
Defined.

(** When the model of the request is not cached and the [WhisperModel]
    constructor fails with [e], the request is answered with HTTP 500
    carrying [e] if [e] is an [Exception], and otherwise [e] leaves the
    handler as it is; either way the registry is left as it was, so the
    failure is not remembered and the next request tries to load again. *)
Theorem load_failure_is_500 (env : Env) (request : Request) (w : World)
    (file_format : string) (audio_bytes : bytes) (e : exn) :
  let name := resolve_model_name env (get_default request "model" (JStr (DEFAULT_MODEL env))) in
  files_succeed env ->
  ffmpeg_raises_Exceptions env ->
  load_fails env e ->
  truthy (get request "audio") = true ->
  decode_audio (get request "audio") = Ok audio_bytes ->
  get_default request "format" (JStr "ogg") = JStr file_format ->
  model_cache w !! name = None ->
  (is_Exception e = true ->
   fst (transcribe env request w) = HTTPException 500 (DetailOfExn e))
  /\ (is_Exception e = false -> fst (transcribe env request w) = Uncaught e)
  /\ model_cache (snd (transcribe env request w)) = model_cache w
  /\ current_model_name (snd (transcribe env request w)) = current_model_name w.
Proof.
  intros name Hfiles Hffmpeg [Htorch Hinit] Htruthy Hdecode Hformat Hmiss.
  unfold transcribe. fold (language_hint request).
  rewrite Htruthy, Hformat. cbn [negb]. unfold transcribe_protected.
  pose (R := fun (cache : gmap string Handle) (current : option string) =>
               cache = model_cache w /\ current = current_model_name w).
  assert (Hrest : forall audio_path,
    hoare (fun fr : Frame => on_registry R (world fr))
      (whisper_model <- lift (get_model env
                                (get_default request "model" (JStr (DEFAULT_MODEL env)))) ;;
       transcribed <- lift (model_transcribe env whisper_model audio_path
                              (language_hint request)) ;;
       let '(segments_list, info) := transcribed in
       lift_result (JSONResponse_init
              (mkContent (full_text_of segments_list) (info_language info)
                 (info_language_probability info) (info_duration info))))
      (fun _ _ => False) (fun e' fr => e' = e /\ on_registry R (world fr))).
  { intros audio_path.
    eapply hoare_bind with (R := fun _ _ => False); [|intros ? ? []].
    intros fr0 [Hc Hcur]. rewrite lift_run.
    destruct (get_model_runs env (get_default request "model" (JStr (DEFAULT_MODEL env)))
                (world fr0))
      as [model Hhit | device w1 Hc' Hw1 Hi | t Hc' Hauto Ht | device w1 e' Hc' Hw1 Hi];
      cbn [fst snd].
    - fold name in Hhit. rewrite Hc, Hmiss in Hhit. discriminate.
    - rewrite Hinit in Hi. discriminate.
    - destruct (Htorch _ _ Ht).
    - rewrite Hinit in Hi. injection Hi as <-. split; [reflexivity|].
      unfold on_registry, R. simpl. destruct Hw1; subst; auto. }
  match goal with |- context [transcribe_try env ?a ?m ?l ?f ?fr] =>
    pose proof (before_model_resolution env Hfiles Hffmpeg R a m l file_format
                  audio_bytes (fun _ _ => False)
                  (fun e' fr1 => e' = e /\ on_registry R (world fr1)) Hdecode
                  Hrest fr (conj eq_refl eq_refl)) as H;
    destruct (transcribe_try env a m l f fr) as [[response|e'] fr']
  end; [contradiction|].
  destruct H as [-> Hreg]. apply (cleanup_registry env R) in Hreg.
  destruct Hreg as [Hc Hcur]. cbn [fst snd]. unfold except_Exception.
  split; [intros ->; reflexivity|]. split; [intros ->; reflexivity|]. auto.
Qed.

Lemma load_failure_is_500_witness :
  fst (transcribe Sample.env_load_fails Sample.req_wav Sample.w0)
  = HTTPException 500 (DetailOfExn (External "ValueError" "Invalid model size")).
Proof.
  apply (proj1 (load_failure_is_500 Sample.env_load_fails Sample.req_wav Sample.w0
                  "wav" [104; 101; 108; 108; 111] (External "ValueError" "Invalid model size")
                  ltac:(repeat split; reflexivity)
                  ltac:(intros c ff i content e; discriminate)
                  ltac:(split; [intros c t; discriminate | reflexivity])
                  eq_refl eq_refl eq_refl eq_refl)).
  reflexivity.
Defined.

(** ** What the engine reads *)

Section EngineInput.

Variable env : Env.
Variable decoded : bytes.
Variable before : list Event.

Local Abbreviation sat := (events_sat (engine_reads env decoded) before).

Lemma sat_log (ev : Event) (w : World) :
  engine_reads env decoded ev -> sat w -> sat (log_event ev w).
Proof.
  intros Hev (evs & Ht & Hall). exists (ev :: evs). simpl. rewrite Ht.
  split; [reflexivity | constructor; assumption].
Qed.

Lemma engine_reads_other (ev : Event) :
  is_engine_call ev = false -> engine_reads env decoded ev.
Proof. intros H h p c l ->. discriminate. Qed.

(** A world that differs from [w] by events that are not engine calls and
    by its files. *)
Lemma sat_world (w : World) (evs : list Event) (files : gmap string bytes)
    (cache : gmap string Handle) (current : option string) :
  forallb (fun ev => negb (is_engine_call ev)) evs = true ->
  sat w -> sat (mkWorld files cache current (evs ++ trace w)%list).
Proof.
  intros Hevs (old & Ht & Hall). exists (evs ++ old)%list. simpl.
  rewrite Ht, app_assoc. split; [reflexivity|].
  apply Forall_app. split; [|exact Hall].
  apply Forall_forall. intros ev Hin. apply engine_reads_other.
  rewrite forallb_forall in Hevs. apply list_elem_of_In in Hin.
  specialize (Hevs ev Hin). destruct (is_engine_call ev); [discriminate | reflexivity].
Qed.

Lemma quiet_sat {A} (m : M A) (w : World) : quiet m -> sat w -> sat (snd (m w)).
Proof.
  intros Hq Hs. destruct (Hq w) as (evs & Hevs & Ht).
  pose proof (sat_world w evs (fs (snd (m w))) (model_cache (snd (m w)))
                (current_model_name (snd (m w))) Hevs Hs) as H.
  rewrite <- Ht in H. destruct (snd (m w)). exact H.
Qed.

(** [convert_to_wav] leaves the input file as it is. *)
Lemma convert_to_wav_keeps_input (p : string) (w : World) :
  fs (snd (convert_to_wav env p w)) !! p = fs w !! p.
Proof.
  assert (Hins : forall b, (<[output_path_of p := b]> (fs w)) !! p = fs w !! p).
  { intros b. apply lookup_insert_ne, output_path_of_neq. }
  unfold convert_to_wav, bind, shutil_which, try_except, subprocess_run,
    os_path_exists, stderr_decode, ret, raise.
  destruct (shutil_which_ffmpeg env (clock w)) as [[|ch ff]|]; [reflexivity | | reflexivity].
  destruct (ffmpeg env _ (String ch ff) p _) as [sp secs rc dec wr].
  ff_simpl.
  destruct sp as [e|]; ff_simpl; [destruct (is_Exception e); reflexivity|].
  destruct (FFMPEG_TIMEOUT <? secs); ff_simpl; [destruct wr; simpl; auto|].
  destruct (rc =? 0); ff_simpl.
  - match goal with |- context [bool_decide ?P] => destruct (bool_decide P) end; ff_simpl.
    + destruct wr; simpl; auto.
    + destruct dec; ff_simpl; destruct wr; simpl; auto.
  - destruct dec; ff_simpl; destruct wr; simpl; auto.
Qed.

(** When [convert_to_wav] returns the converted path, that file exists
    and a conversion has just succeeded. *)
Lemma convert_to_wav_converted (p : string) (w : World) :
  fst (convert_to_wav env p w) = Ok (output_path_of p) ->
  is_Some (fs (snd (convert_to_wav env p w)) !! output_path_of p)
  /\ conversion_possible env.
Proof.
  intros Hc.
  destruct (shutil_which_ffmpeg env (clock w)) as [ff|] eqn:Hw.
  2:{ rewrite convert_to_wav_no_ffmpeg in Hc by auto. simpl in Hc.
      injection Hc as Hc. destruct (output_path_of_neq p (eq_sym Hc)). }
  destruct (String.eqb_spec ff "") as [-> | Hff].
  { rewrite convert_to_wav_no_ffmpeg in Hc by auto. simpl in Hc.
    injection Hc as Hc. destruct (output_path_of_neq p (eq_sym Hc)). }
  pose proof (convert_to_wav_converted_iff env p ff w Hw Hff) as Hiff.
  cbv zeta in Hiff. unfold observed_run in Hiff.
  apply Hiff in Hc. destruct Hc as (Hsp & Hsec & Hrc & Hex).
  split; [exact Hex|].
  exists (clock w), ff, p, (fs w !! p). cbv zeta. repeat split; auto.
Qed.

End EngineInput.

Section EngineInputRequest.

Variable env : Env.
Variable decoded : bytes.
Variable before : list Event.

Local Abbreviation sat := (events_sat (engine_reads env decoded) before).

(** From the moment the temporary file exists, every engine call reads
    the decoded bytes or a converted file. *)
Lemma after_creation_engine_reads (tmp_file : string) (model_name lang file_format : json) :
  stable (fun fr => sat (world fr))
    (with_block
       (lift (file_write env tmp_file decoded) ;;; set_tmp_path tmp_file)
       (lift (file_close env tmp_file)) ;;;
     convert <- lift_result (needs_conversion file_format) ;;
     audio_path <-
       (if convert : bool then
          converted <- lift (convert_to_wav env tmp_file) ;;
          set_converted_path converted ;;;
          ret (if String.eqb converted tmp_file then tmp_file else converted)
        else ret tmp_file) ;;
     whisper_model <- lift (get_model env model_name) ;;
     transcribed <- lift (model_transcribe env whisper_model audio_path lang) ;;
     let '(segments_list, info) := transcribed in
     lift_result (JSONResponse_init
            (mkContent (full_text_of segments_list) (info_language info)
               (info_language_probability info) (info_duration info)))).
Proof.
  pose (W := fun fr : Frame => sat (world fr) /\ fs (world fr) !! tmp_file = Some decoded).
  pose (Rd := fun (audio_path : string) (fr : Frame) =>
                sat (world fr)
                /\ ((audio_path = tmp_file /\ fs (world fr) !! tmp_file = Some decoded)
                    \/ (audio_path = output_path_of tmp_file
                        /\ is_Some (fs (world fr) !! output_path_of tmp_file)
                        /\ conversion_possible env))).
  eapply hoare_bind with (R := fun _ => W).
  { eapply hoare_with_block with (Q := fun _ => W) (R := fun _ fr => sat (world fr)).
    - eapply hoare_bind with (R := fun _ => W); [|intros ? fr H; exact H].
      intros fr H. rewrite lift_run.
      pose proof (quiet_sat env decoded before _ (world fr)
                    (file_write_quiet env tmp_file decoded) H) as Hs.
      unfold file_write in *.
      destruct (tmp_file_write env (clock (world fr)) tmp_file decoded); simpl in *;
        [exact Hs|]. split; [exact Hs | apply lookup_insert_eq].
    - intros ? fr [H Hf]. rewrite lift_run.
      pose proof (quiet_sat env decoded before _ (world fr)
                    (file_close_quiet env tmp_file) H) as Hs.
      assert (HW : W (mkFrame (snd (file_close env tmp_file (world fr)))
                        (tmp_path fr) (converted_path fr))).
      { split; [exact Hs|]. simpl. rewrite file_close_keeps_fs. exact Hf. }
      destruct (fst (file_close env tmp_file (world fr))); [exact HW | exact Hs].
    - intros ? fr H. rewrite lift_run.
      pose proof (quiet_sat env decoded before _ (world fr)
                    (file_close_quiet env tmp_file) H) as Hs.
      destruct (fst (file_close env tmp_file (world fr))); exact Hs. }
  intros ?.
  apply hoare_bind_result; [|intros e _ fr [H _]; exact H].
  intros convert _.
  eapply hoare_bind with (R := Rd).
  { destruct convert.
    - intros fr [H Hf]. unfold bind. rewrite lift_run.
      pose proof (quiet_sat env decoded before _ (world fr)
                    (convert_to_wav_quiet env tmp_file) H) as Hs.
      pose proof (convert_to_wav_keeps_input env tmp_file (world fr)) as Hin.
      pose proof (convert_to_wav_converted env tmp_file (world fr)) as Hout.
      destruct (convert_to_wav_returns env tmp_file (world fr))
        as [(c & Hc & Hcp) | (e & Hc & _)];
        rewrite Hc in *; [|exact Hs].
      unfold set_converted_path, ret. simpl.
      split; [exact Hs|]. destruct Hcp as [-> | ->].
      + rewrite String.eqb_refl. left. split; [reflexivity|].
        cbn [world]. rewrite Hin. exact Hf.
      + destruct (String.eqb_spec (output_path_of tmp_file) tmp_file) as [Heq | _];
          [destruct (output_path_of_neq tmp_file Heq)|].
        right. split; [reflexivity | cbn [world]; apply Hout; reflexivity].
    - intros fr [H Hf]. split; [exact H|]. left. auto. }
  intros audio_path.
  eapply hoare_bind with (R := fun _ => Rd audio_path).
  { intros fr [H Hcases]. rewrite lift_run.
    pose proof (quiet_sat env decoded before _ (world fr)
                  (get_model_quiet env model_name) H) as Hs.
    assert (HR : Rd audio_path (mkFrame (snd (get_model env model_name (world fr)))
                                  (tmp_path fr) (converted_path fr))).
    { split; [exact Hs|]. simpl. rewrite get_model_keeps_fs. exact Hcases. }
    destruct (fst (get_model env model_name (world fr))); [exact HR | exact Hs]. }
  intros whisper_model.
  eapply hoare_bind with (R := fun _ fr => sat (world fr)).
  { intros fr [H Hcases]. rewrite lift_run.
    assert (Hs : sat (snd (model_transcribe env whisper_model audio_path lang (world fr)))).
    { unfold model_transcribe.
      assert (Hev : engine_reads env decoded
                      (EvEngine whisper_model audio_path (fs (world fr) !! audio_path) lang)).
      { intros h p c l [= _ <- <- _].
        destruct Hcases as [[-> Hf] | (-> & Hex & Hposs)]; [left; exact Hf|].
        right. split; [exact Hex|]. split; [eauto | exact Hposs]. }
      destruct (engine env (clock (world fr)) whisper_model audio_path
                  (fs (world fr) !! audio_path) lang) as [e | segs [e|] i];
        simpl; apply sat_log; assumption. }
    destruct (fst (model_transcribe env whisper_model audio_path lang (world fr))); exact Hs. }
  intros [segments_list info] fr H. unfold lift_result.
  destruct (JSONResponse_init _); exact H.
Qed.

Lemma transcribe_try_engine_reads (audio_data model_name lang file_format : json) :
  decode_audio audio_data = Ok decoded ->
  stable (fun fr => sat (world fr))
    (transcribe_try env audio_data model_name lang file_format).
Proof.
  intros Hd. unfold transcribe_try.
  apply hoare_bind_result; [|intros e _ fr H; exact H].
  intros audio_bytes Hb. rewrite Hd in Hb. injection Hb as <-.
  eapply hoare_bind with (R := fun _ fr => sat (world fr)).
  { intros fr H. rewrite lift_run.
    pose proof (quiet_sat env decoded before _ (world fr)
                  (NamedTemporaryFile_quiet env (suffix_of env file_format)) H) as Hs.
    destruct (fst (NamedTemporaryFile env (suffix_of env file_format) (world fr))); exact Hs. }
  intros tmp_file. apply after_creation_engine_reads.
Qed.

Lemma cleanup_engine_reads (fr : Frame) : sat (world fr) -> sat (cleanup env fr).
Proof.
  intros H. unfold cleanup, unlink_quietly.
  assert (Hu : forall p w, sat w -> sat (snd (unlink env p w))).
  { intros p w. apply quiet_sat, unlink_quiet. }
  destruct (tmp_path fr) as [p|], (converted_path fr) as [c|];
    repeat match goal with |- context [if ?b then _ else _] => destruct b end;
    auto.
Qed.

End EngineInputRequest.

(** Whatever the format and whatever becomes of the conversion, every
    engine call of a request reads the bytes decoded from the payload,
    unless it reads an existing converted file, and that only on a host on
    which ffmpeg is found and exits zero within the timeout.  In
    particular, where ffmpeg is never found the engine always reads the
    decoded bytes. *)
Theorem engine_reads_decoded_or_converted (env : Env) (request : Request) (w : World)
    (audio_bytes : bytes) :
  decode_audio (get request "audio") = Ok audio_bytes ->
  exists evs,
    logged_since w (snd (transcribe env request w)) evs
    /\ (forall h audio_path content lang,
          EvEngine h audio_path content lang ∈ evs ->
          content = Some audio_bytes
          \/ (is_Some content /\ (exists p, audio_path = output_path_of p)
              /\ conversion_possible env))
    /\ ((forall c, shutil_which_ffmpeg env c = None) ->
        forall h audio_path content lang,
          EvEngine h audio_path content lang ∈ evs -> content = Some audio_bytes).
Proof.
  intros Hd.
  assert (Hsat : events_sat (engine_reads env audio_bytes) (trace w)
                   (snd (transcribe env request w))).
  { unfold transcribe.
    destruct (negb (truthy (get request "audio")));
      [exists []; split; [reflexivity | constructor]|].
    unfold transcribe_protected.
    match goal with |- context [transcribe_try env ?a ?m ?l ?f ?fr] =>
      pose proof (proj1 (stable_snd _ _)
                    (transcribe_try_engine_reads env audio_bytes (trace w) a m l f Hd) fr) as H;
      destruct (transcribe_try env a m l f fr) as [[response|e] fr']
    end; simpl in *; apply cleanup_engine_reads, H;
      (exists []; split; [reflexivity | constructor]). }
  destruct Hsat as (evs & Ht & Hall). rewrite Forall_forall in Hall.
  exists evs. split; [exact Ht|]. split.
  - intros h p c l Hev. apply (Hall _ Hev h p c l eq_refl).
  - intros Hnone h p c l Hev.
    destruct (Hall _ Hev h p c l eq_refl) as [H | (_ & _ & Hposs)]; [exact H|].
    destruct Hposs as (c0 & ff & i & content & Hw & _). rewrite Hnone in Hw. discriminate.
Qed.

Lemma engine_reads_decoded_or_converted_witness :
  exists evs,
    logged_since Sample.w0 (snd (transcribe Sample.env Sample.req_ogg Sample.w0)) evs
    /\ (forall h audio_path content lang,
          EvEngine h audio_path content lang ∈ evs ->
          content = Some [104; 101; 108; 108; 111]
          \/ (is_Some content /\ (exists p, audio_path = output_path_of p)
              /\ conversion_possible Sample.env))
    /\ ((forall c, shutil_which_ffmpeg Sample.env c = None) ->
        forall h audio_path content lang,
          EvEngine h audio_path content lang ∈ evs ->
          content = Some [104; 101; 108; 108; 111]).
Proof.
  apply (engine_reads_decoded_or_converted Sample.env Sample.req_ogg Sample.w0).
  reflexivity.
Defined.

(** ** A format that is not a string *)

(** A [format] that is present but not a string (null, a number, ...)
    does not fall back to ["ogg"]: the temporary file is created with the
    suffix made of its [str], written and closed, then [file_format.lower()]
    fails, and the request is answered with HTTP 500 carrying the
    [AttributeError].  Neither ffmpeg, nor the model, nor the engine is
    called; the temporary file is unlinked; the registry is as before. *)
Theorem non_string_format_is_500 (env : Env) (request : Request) (v : json) (w : World)
    (audio_bytes : bytes) :
  files_succeed env ->
  request !! "format" = Some v ->
  (forall s, v <> JStr s) ->
  truthy (get request "audio") = true ->
  decode_audio (get request "audio") = Ok audio_bytes ->
  let w' := snd (transcribe env request w) in
  fst (transcribe env request w) = HTTPException 500 (DetailOfExn (AttributeError "lower"))
  /\ (exists p,
        logged_since w w' [EvUnlink p; EvClose p; EvWrite p; EvMkTemp ("." +:+ py_str env v)])
  /\ model_cache w' = model_cache w
  /\ current_model_name w' = current_model_name w.
Proof.
  intros (Hmk & Hwr & Hcl) Hfmt Hns Htruthy Hdecode w'. subst w'.
  assert (Hsfx : suffix_of env v = "." +:+ py_str env v).
  { destruct v; try reflexivity. destruct (Hns _ eq_refl). }
  assert (Hconv : needs_conversion v = Raise (AttributeError "lower")).
  { destruct v; try reflexivity. destruct (Hns _ eq_refl). }
  unfold transcribe, get_default. rewrite Htruthy, Hfmt. cbn [negb default]. unfold id.
  unfold transcribe_protected, transcribe_try.
  rewrite Hdecode, Hconv, Hsfx.
  unfold bind, lift_result, lift, with_block, set_tmp_path, NamedTemporaryFile,
    file_write, file_close. cbn [world tmp_path converted_path].
  specialize (Hmk (clock w) ("." +:+ py_str env v)).
  destruct (mkstemp env (clock w) ("." +:+ py_str env v)) as [random | e]; [|discriminate].
  cbn [world tmp_path converted_path fst snd].
  rewrite Hwr. cbn [world tmp_path converted_path fst snd].
  rewrite Hcl. cbn [world tmp_path converted_path fst snd].
  unfold cleanup, path_truthy, unlink_quietly, unlink. cbn [tmp_path converted_path world].
  destruct (String.eqb_spec (temp_name env random ("." +:+ py_str env v)) "") as [He | _];
    [destruct (temp_name_nonempty env _ _ He)|].
  cbn [negb fs set_fs log_event]. 
  split; [reflexivity|].
  split.
  - exists (temp_name env random ("." +:+ py_str env v)). unfold logged_since.
    simpl. rewrite lookup_insert_eq.
    destruct (os_unlink env _ _); reflexivity.
  - simpl. rewrite lookup_insert_eq. destruct (os_unlink env _ _); split; reflexivity.
Qed.

Lemma non_string_format_is_500_witness :
  fst (transcribe Sample.env (<["format" := JNull]> Sample.req_wav) Sample.w0)
  = HTTPException 500 (DetailOfExn (AttributeError "lower")).
Proof.
  apply (non_string_format_is_500 Sample.env (<["format" := JNull]> Sample.req_wav) JNull
           Sample.w0 [104; 101; 108; 108; 111]).
  - repeat split; reflexivity.
  - apply lookup_insert_eq.
  - intros s. discriminate.
  - reflexivity.
  - reflexivity.
Defined.
